(** * motion_capture_firefly: thread_cam.py

    A shallow embedding of [thread_cam.py] (readiness poller, capture
    worker, camera manager) and of the synchronisation objects it uses,
    with the properties of the synchronisation protocol.

    The camera SDK (PyCapture2) and the operating system are the
    environment.  A worker process sees the environment as a sequence of
    answers: the k-th interaction of the process (an SDK call, a read of
    the stop event, a barrier wait) receives the k-th answer.  Every SDK
    call may raise [Fc2error]; [print] and [time.sleep] never fail.  Every
    interaction is recorded in the log of the process. *)

From Stdlib Require Import ZArith List Bool Arith Lia QArith.
Import ListNotations.
Local Open Scope Z_scope.

(** ** Constants *)

(* SOFTWARE_TRIGGER = 0x62C *)
Definition SOFTWARE_TRIGGER : Z := 0x62C.
(* FIRE_VALUE = 0x80000000  # Bit 31 set *)
Definition FIRE_VALUE : Z := 0x80000000.
(* time.sleep(0.001): the literal, in seconds *)
Definition POLL_SLEEP : Q := (1 # 1000)%Q.
(* self.barrier.wait(timeout=5): seconds *)
Definition WAIT_TIMEOUT : Z := 5.
(* trigger_mode.source = 7  # Software *)
Definition SOFTWARE_SOURCE : Z := 7.

(** ** Data *)

(** The exception classes that occur in the program:
    [PyCapture2.Fc2error], [multiprocessing.TimeoutError] and
    [threading.BrokenBarrierError] (what [Barrier.wait] raises).  None is a
    subclass of another. *)
Inductive exn : Type :=
| Fc2error
| TimeoutError
| BrokenBarrierError.

Definition exn_eqb (a b : exn) : bool :=
  match a, b with
  | Fc2error, Fc2error => true
  | TimeoutError, TimeoutError => true
  | BrokenBarrierError, BrokenBarrierError => true
  | _, _ => false
  end.

(* PyCapture2.TriggerMode *)
Record TriggerMode : Type := mkTriggerMode {
  onOff : bool;
  polarity : Z;
  source : Z;
  mode : Z;
  parameter : Z
}.

(** References to the two shared objects (barrier, stop event). *)
Definition loc : Type := nat.
Bind Scope nat_scope with loc.

(** Values returned by the environment. *)
Inductive value : Type :=
| VNone
| VInt (z : Z)
| VInfo (timestamp_available : bool)   (* getEmbeddedImageInfo() *)
| VTriggerMode (tm : TriggerMode)      (* getTriggerMode() *)
| VGuid (g : Z)                        (* getCameraFromIndex(i) *)
| VImage (ts : Z).                     (* retrieveBuffer(); ts = image.getTimeStamp() *)

(** Calls into PyCapture2. *)
Inductive call : Type :=
| BusManager_new                       (* PyCapture2.BusManager() *)
| Camera_new                           (* PyCapture2.Camera() *)
| getEmbeddedImageInfo
| setEmbeddedImageInfo (timestamp : bool)
| getCameraFromIndex (i : nat)
| connect (guid : Z)
| getTriggerMode
| setTriggerMode (tm : TriggerMode)
| startCapture
| readRegister (addr : Z)
| writeRegister (addr val : Z)
| retrieveBuffer
| stopCapture
| disconnect.

(** What [print] writes. *)
Inductive message : Type :=
| TimeStampEnabled                     (* '\nTimeStamp is enabled.\n' *)
| TimeStampDisabled                    (* '\nTimeStamp is disabled.\n' *)
| StandingBy (cam_index : nat)         (* "[Cam i] Standing by..." *)
| Captured (cam_index : nat) (ts : Z)  (* "[Cam i] Captured image with timestamp: ts" *)
| CaptureError (cam_index : nat) (e : exn). (* "[Cam i] Capture Error: e" *)

(** The log of a process. *)
Inductive event : Type :=
| EvCall (c : call) (r : exn + value)
| EvIsSet (ev : loc) (b : bool)               (* stop_event.is_set() returned b *)
| EvWaitCall (b : loc) (timeout : Z)          (* barrier.wait(timeout) entered *)
| EvWaitRet (b : loc) (r : exn + nat)         (* ... returned an index or raised *)
| EvSleep (seconds : Q)
| EvPrint (m : message).

(** One answer of the environment; each interaction reads the fields it
    needs. *)
Record response : Type := mkResponse {
  fails : bool;                 (* the SDK call raises Fc2error *)
  reg_val : Z;                  (* readRegister *)
  info_timestamp : bool;        (* getEmbeddedImageInfo().available.timestamp *)
  trigger_mode : TriggerMode;   (* getTriggerMode *)
  guid : Z;                     (* getCameraFromIndex *)
  image_ts : Z;                 (* retrieveBuffer().getTimeStamp() *)
  flag : bool;                  (* stop_event.is_set() *)
  wait_result : exn + nat       (* barrier.wait(timeout) *)
}.

Definition env : Type := nat -> response.

(** ** The monad of a process

    A computation reads the environment from a cursor on, and returns an
    outcome, the new cursor and the events it logged. *)

Inductive outcome (A : Type) : Type :=
| Ret (a : A)
| Raise (e : exn)
| OutOfFuel.
Arguments Ret {A} a.
Arguments Raise {A} e.
Arguments OutOfFuel {A}.

Record res (A : Type) : Type := mkRes {
  out : outcome A;
  cur : nat;
  log : list event
}.
Arguments mkRes {A} out cur log.
Arguments out {A} r.
Arguments cur {A} r.
Arguments log {A} r.

Definition M (A : Type) : Type := env -> nat -> res A.

Definition ret {A} (a : A) : M A := fun _ c => mkRes (Ret a) c [].

Definition raise {A} (e : exn) : M A := fun _ c => mkRes (Raise e) c [].

Definition out_of_fuel {A} : M A := fun _ c => mkRes OutOfFuel c [].

Definition bind {A B} (m : M A) (k : A -> M B) : M B :=
  fun E c =>
    let r := m E c in
    match out r with
    | Ret a =>
        let r' := k a E (cur r) in
        mkRes (out r') (cur r') (log r ++ log r')
    | Raise e => mkRes (Raise e) (cur r) (log r)
    | OutOfFuel => mkRes OutOfFuel (cur r) (log r)
    end.

Declare Scope proc_scope.
Delimit Scope proc_scope with proc.
Notation "x <- m ;; k" := (bind m (fun x => k))
  (at level 61, m at next level, right associativity) : proc_scope.
Notation "m ;; k" := (bind m (fun _ => k))
  (at level 61, right associativity) : proc_scope.
Local Open Scope proc_scope.

(** [try: body / except cls: handler]: [handler e] is [None] when the
    exception does not match the clause. *)
Definition try_except {A} (body : M A) (handler : exn -> option (M A)) : M A :=
  fun E c =>
    let r := body E c in
    match out r with
    | Raise e =>
        match handler e with
        | Some h =>
            let r' := h E (cur r) in
            mkRes (out r') (cur r') (log r ++ log r')
        | None => r
        end
    | _ => r
    end.

(** [try: body / finally: fin]: [fin] runs whether [body] returned or
    raised; an exception of [fin] replaces the outcome of [body]. *)
Definition try_finally {A} (body : M A) (fin : M unit) : M A :=
  fun E c =>
    let r := body E c in
    match out r with
    | OutOfFuel => r
    | o =>
        let r' := fin E (cur r) in
        mkRes (match out r' with
               | Ret _ => o
               | Raise e' => Raise e'
               | OutOfFuel => OutOfFuel
               end) (cur r') (log r ++ log r')
    end.

(** *** Interactions *)

(** An SDK call: raises [Fc2error] when the answer says so, else returns
    the value [v] extracts from the answer. *)
Definition sdk (c : call) (v : response -> value) : M value :=
  fun E k =>
    if fails (E k)
    then mkRes (Raise Fc2error) (S k) [EvCall c (inl Fc2error)]
    else mkRes (Ret (v (E k))) (S k) [EvCall c (inr (v (E k)))].

Definition print (m : message) : M unit :=
  fun _ c => mkRes (Ret tt) c [EvPrint m].

Definition time_sleep (seconds : Q) : M unit :=
  fun _ c => mkRes (Ret tt) c [EvSleep seconds].

(* stop_event.is_set() *)
Definition is_set (ev : loc) : M bool :=
  fun E k => mkRes (Ret (flag (E k))) (S k) [EvIsSet ev (flag (E k))].

(* barrier.wait(timeout) *)
Definition barrier_wait (b : loc) (timeout : Z) : M nat :=
  fun E k =>
    match wait_result (E k) with
    | inl e => mkRes (Raise e) (S k) [EvWaitCall b timeout; EvWaitRet b (inl e)]
    | inr i => mkRes (Ret i) (S k) [EvWaitCall b timeout; EvWaitRet b (inr i)]
    end.

(** ** thread_cam.py *)

(* def poll_for_trigger_ready(cam) *)
Fixpoint poll_for_trigger_ready (fuel : nat) : M unit :=
  match fuel with
  | O => out_of_fuel
  | S fuel' =>
      (* reg_val = cam.readRegister(SOFTWARE_TRIGGER) *)
      v <- sdk (readRegister SOFTWARE_TRIGGER) (fun a => VInt (reg_val a)) ;;
      let reg_val := match v with VInt z => z | _ => 0 end in
      (* if not (reg_val & FIRE_VALUE): break *)
      if Z.land reg_val FIRE_VALUE =? 0 then ret tt
      else
        (* time.sleep(0.001) *)
        time_sleep POLL_SLEEP ;;
        poll_for_trigger_ready fuel'
  end.

(* def enable_embedded_timestamp(cam, enable_timestamp) *)
Definition enable_embedded_timestamp (enable_timestamp : bool) : M unit :=
  embedded_info <- sdk getEmbeddedImageInfo (fun a => VInfo (info_timestamp a)) ;;
  match embedded_info with
  | VInfo true =>
      sdk (setEmbeddedImageInfo enable_timestamp) (fun _ => VNone) ;;
      if enable_timestamp then print TimeStampEnabled
      else print TimeStampDisabled
  | _ => ret tt
  end.

(* class CameraWorker *)
Record CameraWorker : Type := mkCameraWorker {
  cam_index : nat;
  barrier : loc;
  stop_event : loc
}.

(** Steps 2 to 4 of the body of the [while] loop of [run]. *)
Definition fire_on_rendezvous (self : CameraWorker) : M unit :=
  (* 2. try: self.barrier.wait(timeout=5)
        except multiprocessing.TimeoutError: continue *)
  go_on <- try_except
             (barrier_wait (barrier self) WAIT_TIMEOUT ;; ret true)
             (fun e => match e with
                       | TimeoutError => Some (ret false)
                       | _ => None
                       end) ;;
  if go_on : bool then
    (* 3. cam.writeRegister(SOFTWARE_TRIGGER, FIRE_VALUE) *)
    sdk (writeRegister SOFTWARE_TRIGGER FIRE_VALUE) (fun _ => VNone) ;;
    (* 4. try: image = cam.retrieveBuffer(); print(... image.getTimeStamp())
          except PyCapture2.Fc2error as e: print(... e) *)
    try_except
      (image <- sdk retrieveBuffer (fun a => VImage (image_ts a)) ;;
       print (Captured (cam_index self)
                (match image with VImage ts => ts | _ => 0 end)))
      (fun e => match e with
                | Fc2error => Some (print (CaptureError (cam_index self) e))
                | _ => None
                end)
  else ret tt.

(** One pass through the body of the [while] loop of [run]. *)
Definition cycle (self : CameraWorker) (fuel : nat) : M unit :=
  (* 1. poll_for_trigger_ready(cam) *)
  poll_for_trigger_ready fuel ;;
  fire_on_rendezvous self.

(* while not self.stop_event.is_set(): ... *)
Fixpoint capture_loop (self : CameraWorker) (fuel : nat) : M unit :=
  match fuel with
  | O => out_of_fuel
  | S fuel' =>
      stop <- is_set (stop_event self) ;;
      if stop : bool then ret tt
      else cycle self fuel' ;; capture_loop self fuel'
  end.

(** The [try] block of [run]. *)
Definition capture_session (self : CameraWorker) (fuel : nat) : M unit :=
  (* cam.connect(bus.getCameraFromIndex(self.cam_index)) *)
  g <- sdk (getCameraFromIndex (cam_index self)) (fun a => VGuid (guid a)) ;;
  sdk (connect (match g with VGuid z => z | _ => 0 end)) (fun _ => VNone) ;;
  (* trigger_mode = cam.getTriggerMode(); .onOff = True; .source = 7 *)
  t <- sdk getTriggerMode (fun a => VTriggerMode (trigger_mode a)) ;;
  let tm := match t with
            | VTriggerMode tm => tm
            | _ => mkTriggerMode false 0 0 0 0
            end in
  let tm := mkTriggerMode true (polarity tm) SOFTWARE_SOURCE (mode tm) (parameter tm) in
  (* cam.setTriggerMode(trigger_mode); cam.startCapture() *)
  sdk (setTriggerMode tm) (fun _ => VNone) ;;
  sdk startCapture (fun _ => VNone) ;;
  print (StandingBy (cam_index self)) ;;
  capture_loop self fuel.

(** The [finally] block of [run]. *)
Definition release_camera : M unit :=
  sdk stopCapture (fun _ => VNone) ;;
  sdk disconnect (fun _ => VNone) ;;
  ret tt.

(** What [run] does before its [try] statement. *)
Definition prepare_camera : M unit :=
  sdk BusManager_new (fun _ => VNone) ;;
  sdk Camera_new (fun _ => VNone) ;;
  enable_embedded_timestamp true.

(* def run(self) *)
Definition CameraWorker_run (self : CameraWorker) (fuel : nat) : M unit :=
  prepare_camera ;;
  try_finally (capture_session self fuel) release_camera.

(* class CameraManager *)
Record Process : Type := mkProcess {
  pid : nat;               (* identity of the process object *)
  target : CameraWorker    (* Process(target=worker.run) *)
}.

Record CameraManager : Type := mkCameraManager {
  num_cams : nat;
  mgr_barrier : loc;
  mgr_stop_event : loc;
  processes : list Process
}.

(** What the manager does to the processes and the shared objects. *)
Inductive maction : Type :=
| MStart (p : Process)     (* p.start() *)
| MSet (ev : loc)          (* stop_event.set() *)
| MAbort (b : loc)         (* barrier.abort() *)
| MJoin (p : Process).     (* p.join() returned *)

(** ** The shared objects

    [multiprocessing.Barrier] is [threading.Barrier] with its two fields
    in shared memory; the definitions below follow the methods of
    [threading.Barrier] in CPython's [threading.py] (library code, not
    code of this repository).  Each definition is one critical section of
    the barrier's condition lock. *)
Record Barrier : Type := mkBarrier {
  b_parties : Z;
  b_state : Z;    (* 0 filling, 1 draining, -1 resetting, -2 broken *)
  b_count : Z
}.

(* Barrier(parties) *)
Definition Barrier_new (parties : Z) : Barrier := mkBarrier parties 0 0.

Definition set_state (b : Barrier) (s : Z) : Barrier :=
  mkBarrier (b_parties b) s (b_count b).

Definition set_count (b : Barrier) (n : Z) : Barrier :=
  mkBarrier (b_parties b) (b_state b) n.

(* def _break(self): self._state = -2; self._cond.notify_all() *)
Definition Barrier_break (b : Barrier) : Barrier := set_state b (-2).

(* def abort(self): with self._cond: self._break() *)
Definition Barrier_abort (b : Barrier) : Barrier := Barrier_break b.

(* def _release(self), with action None: self._state = 1; notify_all() *)
Definition Barrier_release (b : Barrier) : Barrier := set_state b 1.

(* def _exit(self):
     if self._count == 0:
       if self._state in (-1, 1): self._state = 0; notify_all() *)
Definition Barrier_exit (b : Barrier) : Barrier :=
  if b_count b =? 0
  then if (b_state b =? -1) || (b_state b =? 1) then set_state b 0 else b
  else b.

(* the finally clause of wait: self._count -= 1; self._exit() *)
Definition Barrier_leave (b : Barrier) : Barrier :=
  Barrier_exit (set_count b (b_count b - 1)).

(** How a caller of [wait] gets past [_enter]. *)
Inductive entered : Type :=
| EnterBroken                 (* _enter raised BrokenBarrierError *)
| EnterReleased (index : nat) (* last party: released the others, returns index *)
| EnterParked (index : nat).  (* parked in _wait, lock given up *)

(** [wait], from the call to the first point where the lock is given up.
    [None]: the caller stays in the loop of [_enter]
    ([while self._state in (-1, 1): self._cond.wait()]). *)
Definition Barrier_wait_enter (b : Barrier) : option (entered * Barrier) :=
  if (b_state b =? -1) || (b_state b =? 1) then None
  else if b_state b <? 0 then Some (EnterBroken, b)
  else
    let index := b_count b in
    let b1 := set_count b (index + 1) in
    if index + 1 =? b_parties b
    then Some (EnterReleased (Z.to_nat index), Barrier_leave (Barrier_release b1))
    else Some (EnterParked (Z.to_nat index), b1).

(** [wait], from the wake-up in [_wait] to the end: [wait_for] returns
    true when the state has left 0, false (time-out) while it is still 0;
    then the finally clause. *)
Definition Barrier_wait_resume (b : Barrier) (index : nat)
  : (exn + nat) * Barrier :=
  if b_state b =? 0
  then (inl BrokenBarrierError, Barrier_leave (Barrier_break b))
  else if b_state b <? 0
       then (inl BrokenBarrierError, Barrier_leave b)
       else (inr index, Barrier_leave b).

(** The two shared objects of a session. *)
Record shared : Type := mkShared {
  the_barrier : Barrier;
  the_stop : bool     (* the flag of the multiprocessing.Event *)
}.

(* def __init__(self); [n] is what bus.getNumOfCameras() returns *)
Definition CameraManager_init (n : nat) : CameraManager * shared :=
  (mkCameraManager n 0 1 [],
   mkShared (Barrier_new (Z.of_nat n)) false).

(** One pass of the [for] loop of [start]. *)
Definition spawn (st : CameraManager * list maction) (i : nat)
  : CameraManager * list maction :=
  let self := fst st in
  let worker := mkCameraWorker i (mgr_barrier self) (mgr_stop_event self) in
  let p := mkProcess (length (processes self)) worker in
  (mkCameraManager (num_cams self) (mgr_barrier self) (mgr_stop_event self)
     (processes self ++ [p]),
   snd st ++ [MStart p]).

(* def start(self): for i in range(self.num_cams): ... *)
Definition CameraManager_start (self : CameraManager)
  : CameraManager * list maction :=
  fold_left spawn (seq 0 (num_cams self)) (self, []).

(* def stop(self) *)
Definition CameraManager_stop (self : CameraManager) : list maction :=
  [MSet (mgr_stop_event self); MAbort (mgr_barrier self)]
  ++ map MJoin (processes self).

(* __main__: mgr = CameraManager(); mgr.start(); ...; mgr.stop() *)
Definition main_actions (n : nat) : list maction :=
  let m1 := CameraManager_start (fst (CameraManager_init n)) in
  snd m1 ++ CameraManager_stop (fst m1).

(** ** The session: the manager and its worker processes

    An execution is a sequence of labelled steps.  A worker contributes
    the events of its log; inside [barrier.wait] it also contributes the
    step at which it gets past [_enter] as a party of the barrier. *)
Inductive wlabel : Type :=
| WEv (e : event)
| WArrive (index : nat)   (* counted in by the barrier as party [index] *)
| WExit.                  (* the process has terminated *)

Inductive label : Type :=
| ByWorker (p : nat) (w : wlabel)
| ByManager (a : maction).

Definition trace : Type := list label.

Inductive wstatus : Type :=
| Running
| Called                  (* in wait, before or in _enter *)
| Parked (index : nat)    (* in wait, parked in _wait *)
| Released (index : nat)  (* in wait, about to return index *)
| Exited.

Record system : Type := mkSystem {
  sys_shared : shared;
  sys_status : list wstatus   (* by pid *)
}.

Fixpoint set_nth {A} (n : nat) (x : A) (l : list A) : list A :=
  match l, n with
  | [], _ => []
  | _ :: l', O => x :: l'
  | a :: l', S n' => a :: set_nth n' x l'
  end.

Definition with_status (s : system) (p : nat) (st : wstatus) : system :=
  mkSystem (sys_shared s) (set_nth p st (sys_status s)).

Definition with_barrier (s : system) (b : Barrier) : system :=
  mkSystem (mkShared b (the_stop (sys_shared s))) (sys_status s).

Definition exn_sum_eqb (a b : exn + nat) : bool :=
  match a, b with
  | inl x, inl y => exn_eqb x y
  | inr x, inr y => Nat.eqb x y
  | _, _ => false
  end.

(** A step of worker [p] in status [st]. *)
Definition worker_step (m : CameraManager) (s : system) (p : nat)
  (st : wstatus) (w : wlabel) : option system :=
  let b := the_barrier (sys_shared s) in
  match st, w with
  | Running, WExit => Some (with_status s p Exited)
  | Running, WEv (EvIsSet ev v) =>
      if Nat.eqb ev (mgr_stop_event m) && Bool.eqb v (the_stop (sys_shared s))
      then Some s else None
  | Running, WEv (EvWaitCall bl _) =>
      if Nat.eqb bl (mgr_barrier m) then Some (with_status s p Called) else None
  | Running, WEv (EvWaitRet _ _) => None
  | Running, WEv _ => Some s
  | Called, WArrive i =>
      match Barrier_wait_enter b with
      | Some (EnterParked j, b') =>
          if Nat.eqb i j then Some (with_status (with_barrier s b') p (Parked j))
          else None
      | Some (EnterReleased j, b') =>
          if Nat.eqb i j then Some (with_status (with_barrier s b') p (Released j))
          else None
      | _ => None
      end
  | Called, WEv (EvWaitRet bl r) =>
      match Barrier_wait_enter b with
      | Some (EnterBroken, b') =>
          if Nat.eqb bl (mgr_barrier m) && exn_sum_eqb r (inl BrokenBarrierError)
          then Some (with_status (with_barrier s b') p Running) else None
      | _ => None
      end
  | Parked i, WEv (EvWaitRet bl r) =>
      let (r', b') := Barrier_wait_resume b i in
      if Nat.eqb bl (mgr_barrier m) && exn_sum_eqb r r'
      then Some (with_status (with_barrier s b') p Running) else None
  | Released i, WEv (EvWaitRet bl r) =>
      if Nat.eqb bl (mgr_barrier m) && exn_sum_eqb r (inr i)
      then Some (with_status s p Running) else None
  | _, _ => None
  end.

(** A step of the manager. *)
Definition manager_step (m : CameraManager) (s : system) (a : maction)
  : option system :=
  match a with
  | MStart p =>
      if Nat.eqb (pid p) (length (sys_status s))
      then Some (mkSystem (sys_shared s) (sys_status s ++ [Running]))
      else None
  | MSet ev =>
      if Nat.eqb ev (mgr_stop_event m)
      then Some (mkSystem (mkShared (the_barrier (sys_shared s)) true) (sys_status s))
      else None
  | MAbort bl =>
      if Nat.eqb bl (mgr_barrier m)
      then Some (with_barrier s (Barrier_abort (the_barrier (sys_shared s))))
      else None
  | MJoin p =>
      match nth_error (sys_status s) (pid p) with
      | Some Exited => Some s
      | _ => None
      end
  end.

Definition sys_step (m : CameraManager) (s : system) (l : label) : option system :=
  match l with
  | ByWorker p w =>
      match nth_error (sys_status s) p with
      | Some st => worker_step m s p st w
      | None => None
      end
  | ByManager a => manager_step m s a
  end.

Fixpoint replay (m : CameraManager) (s : system) (t : trace) : option system :=
  match t with
  | [] => Some s
  | l :: t' =>
      match sys_step m s l with
      | Some s' => replay m s' t'
      | None => None
      end
  end.

(** The log of worker [p] and the actions of the manager in a trace. *)
Fixpoint worker_events (p : nat) (t : trace) : list event :=
  match t with
  | [] => []
  | ByWorker q (WEv e) :: t' =>
      if Nat.eqb q p then e :: worker_events p t' else worker_events p t'
  | _ :: t' => worker_events p t'
  end.

Fixpoint manager_actions (t : trace) : list maction :=
  match t with
  | [] => []
  | ByManager a :: t' => a :: manager_actions t'
  | _ :: t' => manager_actions t'
  end.

Definition prefix {A} (l1 l2 : list A) : Prop := exists l3, l2 = l1 ++ l3.

Definition has_exited (p : nat) (t : trace) : Prop := In (ByWorker p WExit) t.

(** The manager after [start], and the session before it, with [n]
    cameras on the bus. *)
Definition session_manager (n : nat) : CameraManager :=
  fst (CameraManager_start (fst (CameraManager_init n))).

Definition session_start (n : nat) : system :=
  mkSystem (snd (CameraManager_init n)) [].

(** [t] leads the session to [s]. *)
Definition reach (n : nat) (t : trace) (s : system) : Prop :=
  replay (session_manager n) (session_start n) t = Some s.

(** An execution of the program with [n] cameras on the bus: the steps
    fit the shared objects and the process table, the manager follows
    [__main__], and every worker follows [run] against some environment;
    a worker that has terminated has run [run] to its end. *)
Definition execution (n : nat) (t : trace) : Prop :=
  (exists s, reach n t s)
  /\ prefix (manager_actions t) (main_actions n)
  /\ forall p, In p (processes (session_manager n)) ->
       (exists E fuel,
           prefix (worker_events (pid p) t)
                  (log (CameraWorker_run (target p) fuel E 0%nat)))
       /\ (has_exited (pid p) t ->
           exists E fuel,
             worker_events (pid p) t = log (CameraWorker_run (target p) fuel E 0%nat)
             /\ out (CameraWorker_run (target p) fuel E 0%nat) <> OutOfFuel).

(** ** The control points of [run]

    [wnext] is the control-flow graph of [CameraWorker.run] over the
    events of its log: the state is the statement about to be executed.
    In the finally block and at the end, the flag tells whether an
    exception is pending.  The graph is used in the proofs only;
    [run_follows_graph] shows that every log of [CameraWorker_run] is a
    path of it. *)
Inductive pc : Type :=
| PStart          (* bus = PyCapture2.BusManager() *)
| PCamera         (* cam = PyCapture2.Camera() *)
| PGetInfo        (* cam.getEmbeddedImageInfo() *)
| PSetInfo        (* cam.setEmbeddedImageInfo(timestamp = True) *)
| PPrintTs        (* print('TimeStamp is enabled.') *)
| PGetCam         (* try: bus.getCameraFromIndex(self.cam_index) *)
| PConnect        (* cam.connect(...) *)
| PGetTM          (* cam.getTriggerMode() *)
| PSetTM          (* cam.setTriggerMode(trigger_mode) *)
| PStartCapture   (* cam.startCapture() *)
| PStandBy        (* print("Standing by...") *)
| PLoopTop        (* while not self.stop_event.is_set() *)
| PPoll           (* cam.readRegister(SOFTWARE_TRIGGER) *)
| PSleep          (* time.sleep(0.001) *)
| PWaitCall       (* self.barrier.wait(timeout=5), the call *)
| PWaitRet        (* inside wait *)
| PFire           (* cam.writeRegister(SOFTWARE_TRIGGER, FIRE_VALUE) *)
| PRetrieve       (* cam.retrieveBuffer() *)
| PPrintCaptured  (* print("Captured image ...") *)
| PPrintError     (* print("Capture Error ...") *)
| PFinally (raising : bool)     (* finally: cam.stopCapture() *)
| PDisconnect (raising : bool)  (* cam.disconnect() *)
| PEnd (raised : bool).         (* run has returned or raised *)

Definition wnext (q : pc) (e : event) : option pc :=
  match q, e with
  | PStart, EvCall BusManager_new (inr _) => Some PCamera
  | PStart, EvCall BusManager_new (inl _) => Some (PEnd true)
  | PCamera, EvCall Camera_new (inr _) => Some PGetInfo
  | PCamera, EvCall Camera_new (inl _) => Some (PEnd true)
  | PGetInfo, EvCall getEmbeddedImageInfo (inr (VInfo true)) => Some PSetInfo
  | PGetInfo, EvCall getEmbeddedImageInfo (inr _) => Some PGetCam
  | PGetInfo, EvCall getEmbeddedImageInfo (inl _) => Some (PEnd true)
  | PSetInfo, EvCall (setEmbeddedImageInfo _) (inr _) => Some PPrintTs
  | PSetInfo, EvCall (setEmbeddedImageInfo _) (inl _) => Some (PEnd true)
  | PPrintTs, EvPrint TimeStampEnabled => Some PGetCam
  | PGetCam, EvCall (getCameraFromIndex _) (inr _) => Some PConnect
  | PGetCam, EvCall (getCameraFromIndex _) (inl _) => Some (PFinally true)
  | PConnect, EvCall (connect _) (inr _) => Some PGetTM
  | PConnect, EvCall (connect _) (inl _) => Some (PFinally true)
  | PGetTM, EvCall getTriggerMode (inr _) => Some PSetTM
  | PGetTM, EvCall getTriggerMode (inl _) => Some (PFinally true)
  | PSetTM, EvCall (setTriggerMode _) (inr _) => Some PStartCapture
  | PSetTM, EvCall (setTriggerMode _) (inl _) => Some (PFinally true)
  | PStartCapture, EvCall startCapture (inr _) => Some PStandBy
  | PStartCapture, EvCall startCapture (inl _) => Some (PFinally true)
  | PStandBy, EvPrint (StandingBy _) => Some PLoopTop
  | PLoopTop, EvIsSet _ true => Some (PFinally false)
  | PLoopTop, EvIsSet _ false => Some PPoll
  | PPoll, EvCall (readRegister a) (inr (VInt v)) =>
      if a =? SOFTWARE_TRIGGER
      then if Z.land v FIRE_VALUE =? 0 then Some PWaitCall else Some PSleep
      else None
  | PPoll, EvCall (readRegister _) (inl _) => Some (PFinally true)
  | PSleep, EvSleep _ => Some PPoll
  | PWaitCall, EvWaitCall _ _ => Some PWaitRet
  | PWaitRet, EvWaitRet _ (inr _) => Some PFire
  | PWaitRet, EvWaitRet _ (inl TimeoutError) => Some PLoopTop
  | PWaitRet, EvWaitRet _ (inl _) => Some (PFinally true)
  | PFire, EvCall (writeRegister _ _) (inr _) => Some PRetrieve
  | PFire, EvCall (writeRegister _ _) (inl _) => Some (PFinally true)
  | PRetrieve, EvCall retrieveBuffer (inr _) => Some PPrintCaptured
  | PRetrieve, EvCall retrieveBuffer (inl _) => Some PPrintError
  | PPrintCaptured, EvPrint (Captured _ _) => Some PLoopTop
  | PPrintError, EvPrint (CaptureError _ _) => Some PLoopTop
  | PFinally b, EvCall stopCapture (inr VNone) => Some (PDisconnect b)
  | PFinally _, EvCall stopCapture (inl Fc2error) => Some (PEnd true)
  | PDisconnect b, EvCall disconnect (inr VNone) => Some (PEnd b)
  | PDisconnect _, EvCall disconnect (inl Fc2error) => Some (PEnd true)
  | _, _ => None
  end.

Fixpoint path (q : pc) (l : list event) : option pc :=
  match l with
  | [] => Some q
  | e :: l' =>
      match wnext q e with
      | Some q' => path q' l'
      | None => None
      end
  end.

(** The control points at which a run of the model can be cut off: the
    heads of the two loops. *)
Definition starved (q : pc) : bool :=
  match q with
  | PLoopTop | PPoll => true
  | _ => false
  end.

(** [follows m q qr qx]: from control point [q], the log of [m] is a path
    of the graph, to [qr a] when [m] returns [a] and to [qx e] when it
    raises [e]. *)
Definition follows {A} (m : M A) (q : pc) (qr : A -> pc) (qx : exn -> pc) : Prop :=
  forall E c, exists q',
    path q (log (m E c)) = Some q' /\
    match out (m E c) with
    | Ret a => q' = qr a
    | Raise e => q' = qx e
    | OutOfFuel => starved q' = true
    end.

Definition to_finally : exn -> pc := fun _ => PFinally true.
Definition to_end : exn -> pc := fun _ => PEnd true.

(** [l] is a log of the finally block of [run]: [stopCapture], and
    [disconnect] when [stopCapture] returned. *)
Definition finally_log (l : list event) : Prop :=
  exists E c, l = log (release_camera E c).

(** Number of calls of one SDK function in a log. *)
Definition same_call (c d : call) : bool :=
  match c, d with
  | stopCapture, stopCapture => true
  | disconnect, disconnect => true
  | _, _ => false
  end.

Fixpoint calls_of (c : call) (l : list event) : nat :=
  match l with
  | [] => O
  | EvCall d _ :: l' =>
      if same_call c d then S (calls_of c l') else calls_of c l'
  | _ :: l' => calls_of c l'
  end.

(** [r] preceded by the events [l]. *)
Definition after {A} (l : list event) (r : res A) : res A :=
  mkRes (out r) (cur r) (l ++ log r).

(** The events of the first [k] iterations, all on a busy register. *)
Definition busy_rounds (E : env) (c k : nat) : list event :=
  flat_map (fun j => [EvCall (readRegister SOFTWARE_TRIGGER)
                             (inr (VInt (reg_val (E (c + j)%nat))));
                      EvSleep (1 # 1000)])
           (seq 0 k).

(** Whether an event is an SDK call that releases the camera. *)
Definition is_cleanup (ev : event) : bool :=
  match ev with
  | EvCall stopCapture _ | EvCall disconnect _ => true
  | _ => false
  end.

(** ** Environments given by a list of answers *)

Definition quiet : response :=
  mkResponse false 0 false (mkTriggerMode false 0 0 0 0) 0 0 false (inr 0%nat).

(** The SDK call fails. *)
Definition failing : response :=
  mkResponse true 0 false (mkTriggerMode false 0 0 0 0) 0 0 false (inr 0%nat).

(** The trigger register has bit 31 set. *)
Definition busy : response :=
  mkResponse false FIRE_VALUE false (mkTriggerMode false 0 0 0 0) 0 0 false (inr 0%nat).

(** The stop event is set. *)
Definition stop_set : response :=
  mkResponse false 0 false (mkTriggerMode false 0 0 0 0) 0 0 true (inr 0%nat).

(** [barrier.wait] raises [e]. *)
Definition wait_raises (e : exn) : response :=
  mkResponse false 0 false (mkTriggerMode false 0 0 0 0) 0 0 false (inl e).

Definition env_of (l : list response) : env := fun k => nth k l quiet.

(** Control points from which [getEmbeddedImageInfo] is still to come,
    or at which [run] has ended. *)
Definition early (q : pc) : bool :=
  match q with
  | PStart | PCamera | PGetInfo | PEnd _ => true
  | _ => false
  end.

(** Control points after [stopCapture] has returned or [run] has ended. *)
Definition late (q : pc) : bool :=
  match q with
  | PDisconnect _ | PEnd _ => true
  | _ => false
  end.

(** Control points inside the try block of [run]. *)
Definition in_try (q : pc) : bool :=
  match q with
  | PGetCam | PConnect | PGetTM | PSetTM | PStartCapture | PStandBy
  | PLoopTop | PPoll | PSleep | PWaitCall | PWaitRet | PFire | PRetrieve
  | PPrintCaptured | PPrintError => true
  | _ => false
  end.

(** A worker on which [writeRegister] fails in the first cycle: the
    answers to BusManager(), Camera(), getEmbeddedImageInfo,
    getCameraFromIndex, connect, getTriggerMode, setTriggerMode,
    startCapture, is_set, readRegister, wait, writeRegister, stopCapture,
    disconnect. *)
Definition fire_fails_env : env :=
  env_of [quiet; quiet; quiet; quiet; quiet; quiet; quiet; quiet;
          quiet; quiet; quiet; failing; quiet; quiet].

(** A worker on which [stopCapture] fails after the stop event was read
    set at the first loop test. *)
Definition stop_capture_fails_env : env :=
  env_of [quiet; quiet; quiet; quiet; quiet; quiet; quiet; quiet;
          stop_set; failing].

(** A worker on which [retrieveBuffer] fails in the first cycle and the
    stop event is read set at the second loop test. *)
Definition retrieve_fails_env : env :=
  env_of [quiet; quiet; quiet; quiet; quiet; quiet; quiet; quiet;
          quiet; quiet; quiet; quiet; failing; stop_set; quiet; quiet].

(** A worker on which [getEmbeddedImageInfo] fails. *)
Definition timestamp_fails_env : env := env_of [quiet; quiet; failing].

(** A register that is busy at three reads and ready at the fourth. *)
Definition three_busy_env : env := env_of [busy; busy; busy; quiet].

Definition worker0 : CameraWorker := mkCameraWorker 0 0 1.

(** ** Generations of the barrier *)

(** The arrival of the last of [n] parties, which releases the others. *)
Definition is_release (n : nat) (l : label) : bool :=
  match l with
  | ByWorker _ (WArrive i) => Nat.eqb (S i) n
  | _ => false
  end.

(** The number of releases in a trace: the generation that a party
    arriving after the trace belongs to. *)
Definition generation (n : nat) (t : trace) : nat :=
  length (filter (is_release n) t).

(** The log ends with a read of the trigger register that shows bit 31
    clear, followed by the call of [barrier.wait]. *)
Definition observed_ready (l : list event) : Prop :=
  exists l0 v bl tmo,
    l = l0 ++ [EvCall (readRegister SOFTWARE_TRIGGER) (inr (VInt v)); EvWaitCall bl tmo]
    /\ Z.testbit v 31 = false.

(** Worker [j] arrives at the barrier in generation [g], having observed
    readiness just before. *)
Definition arrives_in (n j g : nat) (t : trace) : Prop :=
  exists t1 i t2,
    t = t1 ++ ByWorker j (WArrive i) :: t2
    /\ generation n t1 = g
    /\ observed_ready (worker_events j t1).

Definition all_arrived (n g : nat) (t : trace) : Prop :=
  forall j, (j < n)%nat -> arrives_in n j g t.

(** Worker [j] has arrived in generation [g] as party [i] and is still
    inside [wait]. *)
Definition arrived_pending (n j g i : nat) (t : trace) : Prop :=
  exists t1 t2,
    t = t1 ++ ByWorker j (WArrive i) :: t2
    /\ generation n t1 = g
    /\ observed_ready (worker_events j t1)
    /\ worker_events j t2 = [].

(** Worker [j] has arrived in generation [g], and since then its only
    event is the return of that [wait] with an index. *)
Definition released_in (n j g : nat) (t : trace) : Prop :=
  exists t1 i t2 bl,
    t = t1 ++ ByWorker j (WArrive i) :: t2
    /\ generation n t1 = g
    /\ worker_events j t2 = [EvWaitRet bl (inr i)].

(** Number of workers parked in the barrier. *)
Fixpoint parked (l : list wstatus) : nat :=
  match l with
  | [] => O
  | Parked _ :: l' => S (parked l')
  | _ :: l' => parked l'
  end.

Definition is_start (a : maction) : bool :=
  match a with MStart _ => true | _ => false end.

(** The process of camera [j] in a session. *)
Definition process_of (j : nat) : Process :=
  mkProcess j (mkCameraWorker j 0 1).

(** What the proofs about sessions use of an execution: the steps fit
    the shared objects, the manager follows [__main__], and the log of
    every worker is a path of the graph of [run]. *)
Definition well_formed (n : nat) (t : trace) : Prop :=
  (exists s, reach n t s)
  /\ prefix (manager_actions t) (main_actions n)
  /\ forall j, (j < n)%nat -> exists q, path PStart (worker_events j t) = Some q.

Definition is_parked (st : wstatus) : bool :=
  match st with Parked _ => true | _ => false end.

(** ** The invariant of a session *)

(** The fields of the barrier against the process table: while the
    barrier is filling or draining, its count is the number of parked
    workers. *)
Definition barrier_ok (n : nat) (s : system) : Prop :=
  let b := the_barrier (sys_shared s) in
  b_parties b = Z.of_nat n
  /\ (b_state b = 0 \/ b_state b = 1 \/ b_state b = -2)
  /\ (b_state b = 0 \/ b_state b = 1 -> b_count b = Z.of_nat (parked (sys_status s))).

(** What the trace tells about worker [j] in status [st]. *)
Definition worker_inv (n : nat) (t : trace) (s : system) (j : nat) (st : wstatus)
  : Prop :=
  let b := the_barrier (sys_shared s) in
  match st with
  | Called => observed_ready (worker_events j t)
  | Parked i =>
      exists g, arrived_pending n j g i t
                /\ (b_state b = 0 -> g = generation n t)
                /\ (b_state b = 1 -> all_arrived n g t)
  | Released i => exists g, arrived_pending n j g i t /\ all_arrived n g t
  | _ => True
  end.

(** A worker whose last event is the return of [wait] with an index was
    released in a generation in which all [n] workers arrived. *)
Definition return_inv (n : nat) (t : trace) (j : nat) : Prop :=
  forall we bl i,
    worker_events j t = we ++ [EvWaitRet bl (inr i)] ->
    exists g, released_in n j g t /\ all_arrived n g t.

Definition session_inv (n : nat) (t : trace) (s : system) : Prop :=
  barrier_ok n s
  /\ (forall j st, nth_error (sys_status s) j = Some st -> worker_inv n t s j st)
  /\ (forall j, return_inv n t j).

(** ** Example sessions *)

(** The steps of worker [p] for a list of events of its log. *)
Definition by_worker (p : nat) (l : list event) : trace :=
  map (fun e => ByWorker p (WEv e)) l.

(** The log of worker [i] from the start of [run] to the loop, when every
    call returns and the camera has no embedded timestamp. *)
Definition setup_log (i : nat) : list event :=
  [EvCall BusManager_new (inr VNone); EvCall Camera_new (inr VNone);
   EvCall getEmbeddedImageInfo (inr (VInfo false));
   EvCall (getCameraFromIndex i) (inr (VGuid 0));
   EvCall (connect 0) (inr VNone);
   EvCall getTriggerMode (inr (VTriggerMode (mkTriggerMode false 0 0 0 0)));
   EvCall (setTriggerMode (mkTriggerMode true 0 7 0 0)) (inr VNone);
   EvCall startCapture (inr VNone); EvPrint (StandingBy i)].

Definition read_ready : event :=
  EvCall (readRegister SOFTWARE_TRIGGER) (inr (VInt 0)).
Definition read_busy : event :=
  EvCall (readRegister SOFTWARE_TRIGGER) (inr (VInt FIRE_VALUE)).
Definition fire_ok : event :=
  EvCall (writeRegister SOFTWARE_TRIGGER FIRE_VALUE) (inr VNone).

(** Two cameras.  Worker 0 is parked in the barrier, worker 1 arrives as
    the last party and releases it; worker 1 returns from [wait] and
    fires, then worker 0 returns and fires. *)
Definition two_fire_before : trace :=
  [ByManager (MStart (process_of 0)); ByManager (MStart (process_of 1))]
  ++ by_worker 0 (setup_log 0 ++ [EvIsSet 1 false; read_ready; EvWaitCall 0 5])
  ++ [ByWorker 0 (WArrive 0)]
  ++ by_worker 1 (setup_log 1 ++ [EvIsSet 1 false; read_ready; EvWaitCall 0 5])
  ++ [ByWorker 1 (WArrive 1)]
  ++ by_worker 1 [EvWaitRet 0 (inr 1%nat)].

Definition two_fire_after : trace :=
  by_worker 0 [EvWaitRet 0 (inr 0%nat); fire_ok].

Definition two_fire_trace : trace :=
  two_fire_before ++ ByWorker 1 (WEv fire_ok) :: two_fire_after.

(** One camera.  The manager sets the stop event while the worker is
    polling a busy register; the worker sleeps, reads again, passes the
    barrier, fires and retrieves. *)
Definition stop_while_polling_before : trace :=
  ByManager (MStart (process_of 0))
  :: by_worker 0 (setup_log 0 ++ [EvIsSet 1 false; read_busy]).

Definition stop_while_polling_after : trace :=
  by_worker 0 [EvSleep (1 # 1000); read_ready; EvWaitCall 0 5]
  ++ [ByWorker 0 (WArrive 0)]
  ++ by_worker 0 [EvWaitRet 0 (inr 0%nat); fire_ok;
                  EvCall retrieveBuffer (inr (VImage 0));
                  EvPrint (Captured 0 0)].

Definition stop_while_polling_trace : trace :=
  stop_while_polling_before ++ ByManager (MSet 1) :: stop_while_polling_after.

Definition stop_while_polling_env : env :=
  env_of [quiet; quiet; quiet; quiet; quiet; quiet; quiet; quiet;
          quiet; busy; quiet; quiet; quiet; quiet].

(** Two cameras.  Worker 0 is parked in the barrier; worker 1 polls a busy
    register; the wait of worker 0 times out. *)
Definition timeout_before : trace :=
  [ByManager (MStart (process_of 0)); ByManager (MStart (process_of 1))]
  ++ by_worker 0 (setup_log 0 ++ [EvIsSet 1 false; read_ready; EvWaitCall 0 5])
  ++ [ByWorker 0 (WArrive 0)]
  ++ by_worker 1 (setup_log 1 ++ [EvIsSet 1 false; read_busy; EvSleep (1 # 1000);
                                  read_busy; EvSleep (1 # 1000)]).

Definition timeout_after : trace :=
  by_worker 0 [EvCall stopCapture (inr VNone); EvCall disconnect (inr VNone)]
  ++ [ByWorker 0 WExit].

Definition timeout_trace : trace :=
  timeout_before
  ++ ByWorker 0 (WEv (EvWaitRet 0 (inl BrokenBarrierError))) :: timeout_after.

Definition timeout_env0 : env :=
  env_of [quiet; quiet; quiet; quiet; quiet; quiet; quiet; quiet;
          quiet; quiet; wait_raises BrokenBarrierError; quiet; quiet].

Definition always_busy_env : env :=
  fun k => if (k <? 9)%nat then quiet else busy.

(** Two cameras.  Both workers are in [wait] (worker 0 parked, worker 1
    about to enter) when the manager stops the session; both waits raise,
    both workers release their cameras and are joined. *)
Definition abort_before : trace :=
  [ByManager (MStart (process_of 0)); ByManager (MStart (process_of 1))]
  ++ by_worker 0 (setup_log 0 ++ [EvIsSet 1 false; read_ready; EvWaitCall 0 5])
  ++ [ByWorker 0 (WArrive 0)]
  ++ by_worker 1 (setup_log 1 ++ [EvIsSet 1 false; read_ready; EvWaitCall 0 5])
  ++ [ByManager (MSet 1)].

Definition abort_after : trace :=
  by_worker 0 [EvWaitRet 0 (inl BrokenBarrierError);
               EvCall stopCapture (inr VNone); EvCall disconnect (inr VNone)]
  ++ [ByWorker 0 WExit]
  ++ by_worker 1 [EvWaitRet 0 (inl BrokenBarrierError);
                  EvCall stopCapture (inr VNone); EvCall disconnect (inr VNone)]
  ++ [ByWorker 1 WExit;
      ByManager (MJoin (process_of 0)); ByManager (MJoin (process_of 1))].

Definition abort_trace : trace :=
  abort_before ++ ByManager (MAbort 0) :: abort_after.

(** A worker that reads the stop event set at its first loop test. *)
Definition stop_at_once_env : env :=
  env_of [quiet; quiet; quiet; quiet; quiet; quiet; quiet; quiet; stop_set].

(** ** The arguments of the interactions of [run]

    [event_ok self prev e] checks an event [e] of the log of worker
    [self] against the objects of the worker and against the event
    [prev] just before it: the arguments that [run] passes are its own
    camera index, barrier and stop event and the constants of the file,
    and a value that [run] passes on is the value it was given by the
    call before. *)

(* trigger_mode.onOff = True; trigger_mode.source = 7 *)
Definition software_trigger (tm : TriggerMode) : TriggerMode :=
  mkTriggerMode true (polarity tm) SOFTWARE_SOURCE (mode tm) (parameter tm).

Definition TriggerMode_eqb (a b : TriggerMode) : bool :=
  Bool.eqb (onOff a) (onOff b) && (polarity a =? polarity b)
  && (source a =? source b) && (mode a =? mode b) && (parameter a =? parameter b).

Definition Q_eqb (a b : Q) : bool :=
  (Qnum a =? Qnum b) && Pos.eqb (Qden a) (Qden b).

Definition event_ok (self : CameraWorker) (prev : option event) (e : event) : bool :=
  match e with
  | EvCall (setEmbeddedImageInfo b) _ => b
  | EvCall (getCameraFromIndex i) _ => Nat.eqb i (cam_index self)
  | EvCall (connect g) _ =>
      match prev with
      | Some (EvCall (getCameraFromIndex _) (inr (VGuid g'))) => g =? g'
      | _ => false
      end
  | EvCall (setTriggerMode tm) _ =>
      match prev with
      | Some (EvCall getTriggerMode (inr (VTriggerMode tm0))) =>
          TriggerMode_eqb tm (software_trigger tm0)
      | _ => false
      end
  | EvCall (readRegister a) _ => a =? SOFTWARE_TRIGGER
  | EvCall (writeRegister a v) _ => (a =? SOFTWARE_TRIGGER) && (v =? FIRE_VALUE)
  | EvCall _ _ => true
  | EvIsSet ev _ => Nat.eqb ev (stop_event self)
  | EvWaitCall b t => Nat.eqb b (barrier self) && (t =? WAIT_TIMEOUT)
  | EvWaitRet b _ => Nat.eqb b (barrier self)
  | EvSleep s => Q_eqb s POLL_SLEEP
  | EvPrint TimeStampEnabled => true
  | EvPrint TimeStampDisabled => false
  | EvPrint (StandingBy i) => Nat.eqb i (cam_index self)
  | EvPrint (Captured i ts) =>
      Nat.eqb i (cam_index self)
      && match prev with
         | Some (EvCall retrieveBuffer (inr (VImage ts'))) => ts =? ts'
         | _ => false
         end
  | EvPrint (CaptureError i e) =>
      Nat.eqb i (cam_index self)
      && match prev with
         | Some (EvCall retrieveBuffer (inl e')) => exn_eqb e e'
         | _ => false
         end
  end.

Fixpoint well_linked (self : CameraWorker) (prev : option event) (l : list event)
  : bool :=
  match l with
  | [] => true
  | e :: l' => event_ok self prev e && well_linked self (Some e) l'
  end.

(** A register that never becomes ready. *)
Definition busy_env : env := fun _ => busy.

(** A register whose value has all of bits 0 to 31 set. *)
Definition all_ones : response :=
  mkResponse false 0xFFFFFFFF false (mkTriggerMode false 0 0 0 0) 0 0 false (inr 0%nat).

Definition all_ones_env : env := fun _ => all_ones.

(** Events of the capture loop of [run]. *)
Definition loop_event (e : event) : bool :=
  match e with
  | EvIsSet _ _ | EvSleep _ | EvWaitCall _ _ | EvWaitRet _ _ => true
  | EvCall (readRegister _) _ | EvCall (writeRegister _ _) _
  | EvCall retrieveBuffer _ => true
  | EvPrint (Captured _ _) | EvPrint (CaptureError _ _) => true
  | _ => false
  end.

(** Control points that [run] can be at while [connect],
    [setTriggerMode], [startCapture] has not returned yet. *)
Definition not_connected (q : pc) : bool :=
  match q with
  | PStart | PCamera | PGetInfo | PSetInfo | PPrintTs | PGetCam | PConnect
  | PFinally _ | PDisconnect _ | PEnd _ => true
  | _ => false
  end.

Definition not_configured (q : pc) : bool :=
  match q with
  | PGetTM | PSetTM => true
  | _ => not_connected q
  end.

Definition not_started (q : pc) : bool :=
  match q with
  | PStartCapture => true
  | _ => not_configured q
  end.

Definition connect_returned (e : event) : bool :=
  match e with EvCall (connect _) (inr _) => true | _ => false end.

Definition set_trigger_mode_returned (e : event) : bool :=
  match e with EvCall (setTriggerMode _) (inr _) => true | _ => false end.

Definition start_capture_returned (e : event) : bool :=
  match e with EvCall startCapture (inr _) => true | _ => false end.

(** A register that is busy at two reads; the third read fails. *)
Definition two_busy_then_fail_env : env := env_of [busy; busy; failing].

(** Two cameras, as in [abort_trace], but on worker 0 [stopCapture] raises:
    the [wait] of worker 0 raises after the abort, its finally block ends
    at the failed [stopCapture], the process terminates and is joined. *)
Definition abort_fail_after : trace :=
  by_worker 0 [EvWaitRet 0 (inl BrokenBarrierError);
               EvCall stopCapture (inl Fc2error)]
  ++ [ByWorker 0 WExit]
  ++ by_worker 1 [EvWaitRet 0 (inl BrokenBarrierError);
                  EvCall stopCapture (inr VNone); EvCall disconnect (inr VNone)]
  ++ [ByWorker 1 WExit;
      ByManager (MJoin (process_of 0)); ByManager (MJoin (process_of 1))].

Definition abort_fail_trace : trace :=
  abort_before ++ ByManager (MAbort 0) :: abort_fail_after.

(** A worker whose first [wait] raises [BrokenBarrierError] and on which
    [stopCapture] then fails. *)
Definition broken_then_stop_capture_fails_env : env :=
  env_of [quiet; quiet; quiet; quiet; quiet; quiet; quiet; quiet;
          quiet; quiet; wait_raises BrokenBarrierError; failing].


(** * Every log of [run] is a path of the control-flow graph *)

Lemma path_app q l1 l2 :
  path q (l1 ++ l2) =
  match path q l1 with Some q' => path q' l2 | None => None end.
Proof.
  revert q; induction l1 as [|e l1 IH]; intros q; simpl; [reflexivity|].
  destruct (wnext q e); [apply IH | reflexivity].
Qed.

Lemma path_split q l1 l2 q2 :
  path q (l1 ++ l2) = Some q2 ->
  exists q1, path q l1 = Some q1 /\ path q1 l2 = Some q2.
Proof.
  rewrite path_app. destruct (path q l1) as [q1|]; [|discriminate].
  intros H; exists q1; auto.
Qed.

Lemma follows_bind {A B} (m : M A) (k : A -> M B) q qr qr' qx :
  follows m q qr qx ->
  (forall a, follows (k a) (qr a) qr' qx) ->
  follows (bind m k) q qr' qx.
Proof.
  intros Hm Hk E c. unfold bind.
  destruct (Hm E c) as (q1 & Hp & Ho).
  destruct (out (m E c)) as [a|e|]; simpl.
  - subst q1. destruct (Hk a E (cur (m E c))) as (q2 & Hp2 & Ho2).
    exists q2. rewrite path_app, Hp. auto.
  - exists q1; auto.
  - exists q1; auto.
Qed.

Lemma follows_ret {A} (a : A) q qr qx : qr a = q -> follows (ret a) q qr qx.
Proof. intros <- E c. exists (qr a); simpl; auto. Qed.

Lemma follows_out_of_fuel {A} q (qr : A -> pc) qx :
  starved q = true -> follows out_of_fuel q qr qx.
Proof. intros H E c. exists q; simpl; auto. Qed.

Lemma follows_sdk c v q qr qx :
  (forall r, wnext q (EvCall c (inr (v r))) = Some (qr (v r))) ->
  wnext q (EvCall c (inl Fc2error)) = Some (qx Fc2error) ->
  follows (sdk c v) q qr qx.
Proof.
  intros Hr Hx E k. unfold sdk. destruct (fails (E k)); simpl.
  - rewrite Hx. eauto.
  - rewrite Hr. eauto.
Qed.

Lemma follows_print m q qr qx :
  wnext q (EvPrint m) = Some (qr tt) -> follows (print m) q qr qx.
Proof. intros H E c. simpl. rewrite H. eauto. Qed.

Lemma follows_sleep s q qr qx :
  wnext q (EvSleep s) = Some (qr tt) -> follows (time_sleep s) q qr qx.
Proof. intros H E c. simpl. rewrite H. eauto. Qed.

Lemma follows_is_set ev q qr qx :
  (forall b, wnext q (EvIsSet ev b) = Some (qr b)) -> follows (is_set ev) q qr qx.
Proof. intros H E c. simpl. rewrite H. eauto. Qed.

Lemma follows_barrier_wait b t :
  follows (barrier_wait b t) PWaitCall (fun _ => PFire)
    (fun e => match e with TimeoutError => PLoopTop | _ => PFinally true end).
Proof.
  intros E c. unfold barrier_wait.
  destruct (wait_result (E c)) as [[]|i]; simpl; eauto.
Qed.

Lemma follows_try_except {A} (body : M A) handler q qr qb qx :
  follows body q qr qb ->
  (forall e, match handler e with
             | Some h => follows h (qb e) qr qx
             | None => qb e = qx e
             end) ->
  follows (try_except body handler) q qr qx.
Proof.
  intros Hb Hh E c. unfold try_except.
  destruct (Hb E c) as (q1 & Hp & Ho).
  destruct (out (body E c)) as [a|e|] eqn:Hout.
  - exists q1. rewrite Hout. auto.
  - specialize (Hh e). destruct (handler e) as [h|].
    + subst q1. destruct (Hh E (cur (body E c))) as (q2 & Hp2 & Ho2).
      exists q2. simpl. rewrite path_app, Hp. auto.
    + exists q1. rewrite Hout. split; congruence.
  - exists q1. rewrite Hout. auto.
Qed.

Lemma follows_try_finally {A} (body : M A) fin q :
  follows body q (fun _ => PFinally false) to_finally ->
  (forall b, follows fin (PFinally b) (fun _ => PEnd b) to_end) ->
  follows (try_finally body fin) q (fun _ => PEnd false) to_end.
Proof.
  intros Hb Hf E c. unfold try_finally.
  destruct (Hb E c) as (q1 & Hp & Ho).
  destruct (out (body E c)) as [a|e|] eqn:Hout.
  - subst q1. destruct (Hf false E (cur (body E c))) as (q2 & Hp2 & Ho2).
    exists q2. simpl. rewrite path_app, Hp. split; [assumption|].
    destruct (out (fin E (cur (body E c)))); auto.
  - subst q1. destruct (Hf true E (cur (body E c))) as (q2 & Hp2 & Ho2).
    exists q2. simpl. rewrite path_app, Hp. split; [assumption|].
    destruct (out (fin E (cur (body E c)))); auto.
  - exists q1. rewrite Hout. auto.
Qed.

Lemma poll_follows fuel :
  follows (poll_for_trigger_ready fuel) PPoll (fun _ => PWaitCall) to_finally.
Proof.
  induction fuel as [|fuel IH]; simpl.
  - apply follows_out_of_fuel; reflexivity.
  - apply follows_bind with
      (qr := fun v => if Z.land (match v with VInt z => z | _ => 0 end) FIRE_VALUE =? 0
                      then PWaitCall else PSleep).
    + apply follows_sdk; [|reflexivity].
      intros r. simpl. destruct (Z.land (reg_val r) FIRE_VALUE =? 0); reflexivity.
    + intros v.
      destruct (Z.land _ FIRE_VALUE =? 0).
      * apply follows_ret; reflexivity.
      * apply follows_bind with (qr := fun _ => PPoll).
        -- apply follows_sleep; reflexivity.
        -- intros _. exact IH.
Qed.

Lemma cycle_follows self fuel :
  follows (cycle self fuel) PPoll (fun _ => PLoopTop) to_finally.
Proof.
  unfold cycle.
  apply follows_bind with (qr := fun _ => PWaitCall); [apply poll_follows|].
  intros _. unfold fire_on_rendezvous.
  apply follows_bind with (qr := fun b : bool => if b then PFire else PLoopTop).
  - apply follows_try_except with
      (qb := fun e => match e with TimeoutError => PLoopTop | _ => PFinally true end).
    + apply follows_bind with (qr := fun _ => PFire).
      * apply follows_barrier_wait.
      * intros _. apply follows_ret; reflexivity.
    + intros []; try reflexivity. apply follows_ret; reflexivity.
  - intros [|].
    + apply follows_bind with (qr := fun _ => PRetrieve).
      * apply follows_sdk; reflexivity.
      * intros _.
        apply follows_try_except with
          (qb := fun e => match e with Fc2error => PPrintError | _ => PFinally true end).
        -- apply follows_bind with (qr := fun _ => PPrintCaptured).
           ++ apply follows_sdk; reflexivity.
           ++ intros v. apply follows_print; reflexivity.
        -- intros []; try reflexivity. apply follows_print; reflexivity.
    + apply follows_ret; reflexivity.
Qed.

Lemma capture_loop_follows self fuel :
  follows (capture_loop self fuel) PLoopTop (fun _ => PFinally false) to_finally.
Proof.
  induction fuel as [|fuel IH]; simpl.
  - apply follows_out_of_fuel; reflexivity.
  - apply follows_bind with (qr := fun b : bool => if b then PFinally false else PPoll).
    + apply follows_is_set. intros []; reflexivity.
    + intros [|].
      * apply follows_ret; reflexivity.
      * apply follows_bind with (qr := fun _ => PLoopTop).
        -- apply cycle_follows.
        -- intros _. exact IH.
Qed.

Lemma capture_session_follows self fuel :
  follows (capture_session self fuel) PGetCam (fun _ => PFinally false) to_finally.
Proof.
  unfold capture_session.
  apply follows_bind with (qr := fun _ => PConnect); [apply follows_sdk; reflexivity|].
  intros g.
  apply follows_bind with (qr := fun _ => PGetTM); [apply follows_sdk; reflexivity|].
  intros _.
  apply follows_bind with (qr := fun _ => PSetTM); [apply follows_sdk; reflexivity|].
  intros t.
  apply follows_bind with (qr := fun _ => PStartCapture); [apply follows_sdk; reflexivity|].
  intros _.
  apply follows_bind with (qr := fun _ => PStandBy); [apply follows_sdk; reflexivity|].
  intros _.
  apply follows_bind with (qr := fun _ => PLoopTop); [apply follows_print; reflexivity|].
  intros _. apply capture_loop_follows.
Qed.

Lemma release_camera_follows b :
  follows release_camera (PFinally b) (fun _ => PEnd b) to_end.
Proof.
  unfold release_camera.
  apply follows_bind with (qr := fun _ => PDisconnect b); [apply follows_sdk; reflexivity|].
  intros _.
  apply follows_bind with (qr := fun _ => PEnd b); [apply follows_sdk; reflexivity|].
  intros _. apply follows_ret; reflexivity.
Qed.

Lemma enable_embedded_timestamp_follows :
  follows (enable_embedded_timestamp true) PGetInfo (fun _ => PGetCam) to_end.
Proof.
  unfold enable_embedded_timestamp.
  apply follows_bind with
    (qr := fun v => match v with VInfo true => PSetInfo | _ => PGetCam end).
  - apply follows_sdk; [|reflexivity]. intros r. simpl.
    destruct (info_timestamp r); reflexivity.
  - intros v. destruct v as [| | [|] | | |]; try (apply follows_ret; reflexivity).
    apply follows_bind with (qr := fun _ => PPrintTs); [apply follows_sdk; reflexivity|].
    intros _. apply follows_print; reflexivity.
Qed.

Lemma prepare_camera_follows :
  follows prepare_camera PStart (fun _ => PGetCam) to_end.
Proof.
  unfold prepare_camera.
  apply follows_bind with (qr := fun _ => PCamera); [apply follows_sdk; reflexivity|].
  intros _.
  apply follows_bind with (qr := fun _ => PGetInfo); [apply follows_sdk; reflexivity|].
  intros _. apply enable_embedded_timestamp_follows.
Qed.

Lemma run_follows_graph self fuel :
  follows (CameraWorker_run self fuel) PStart (fun _ => PEnd false) to_end.
Proof.
  unfold CameraWorker_run.
  apply follows_bind with (qr := fun _ => PGetCam); [apply prepare_camera_follows|].
  intros _.
  apply follows_try_finally.
  - apply capture_session_follows.
  - apply release_camera_follows.
Qed.

(** * Reading the graph backwards *)

Ltac graph_inv H :=
  unfold wnext in H; cbv beta iota in H;
  repeat match type of H with
         | match ?x with _ => _ end = Some _ =>
             (is_var x; destruct x) || destruct x eqn:?;
             cbv beta iota in H; try discriminate H
         end;
  try discriminate H.

Lemma release_camera_log E c :
  log (release_camera E c)
  = if fails (E c) then [EvCall stopCapture (inl Fc2error)]
    else [EvCall stopCapture (inr VNone);
          EvCall disconnect (if fails (E (S c)) then inl Fc2error else inr VNone)].
Proof.
  unfold release_camera, bind, sdk, ret.
  destruct (fails (E c)); cbn [out cur log]; [reflexivity|].
  destruct (fails (E (S c))); reflexivity.
Qed.

Lemma finally_log_cases l :
  finally_log l <->
  l = [EvCall stopCapture (inl Fc2error)]
  \/ exists r, (r = inl Fc2error \/ r = inr VNone)
               /\ l = [EvCall stopCapture (inr VNone); EvCall disconnect r].
Proof.
  split.
  - intros (E & c & ->). rewrite release_camera_log.
    destruct (fails (E c)); [left; reflexivity|]. right.
    destruct (fails (E (S c))); eauto.
  - intros [->|(r & [->| ->] & ->)].
    + exists (env_of [failing]), 0%nat. reflexivity.
    + exists (env_of [quiet; failing]), 0%nat. reflexivity.
    + exists (env_of [quiet; quiet]), 0%nat. reflexivity.
Qed.

(** From the head of the finally block a path only reaches the end of
    [run], through [stopCapture] and [disconnect]. *)
Lemma finally_paths b l q :
  path (PFinally b) l = Some q ->
  starved q = false /\
  ((exists b', q = PEnd b') -> finally_log l /\ (b = true -> q = PEnd true)).
Proof.
  destruct l as [|x l]; cbn [path].
  { intros [= <-]. split; [reflexivity|]. intros [b' [=]]. }
  destruct (wnext (PFinally b) x) as [q1|] eqn:H1; [|discriminate].
  graph_inv H1; injection H1 as <-.
  - (* stopCapture raised *)
    destruct l as [|y l]; cbn [path].
    + intros [= <-]. split; [reflexivity|]. intros _. split; [|reflexivity].
      apply finally_log_cases. left. reflexivity.
    + discriminate.
  - (* stopCapture returned *)
    destruct l as [|y l]; cbn [path].
    + intros [= <-]. split; [reflexivity|]. intros [b' [=]].
    + destruct (wnext (PDisconnect b) y) as [q2|] eqn:H2; [|discriminate].
      graph_inv H2; injection H2 as <-;
        (destruct l as [|z l]; cbn [path]; [|discriminate]);
        intros [= <-]; (split; [reflexivity|]); intros _;
        (split; [apply finally_log_cases; right; eauto | congruence]).
Qed.

(** A log of [run] cut at one of its events. *)
Lemma run_log_cut self fuel E c l1 x l2 :
  log (CameraWorker_run self fuel E c) = l1 ++ x :: l2 ->
  exists q1 q2 q',
    path PStart l1 = Some q1 /\ wnext q1 x = Some q2 /\ path q2 l2 = Some q' /\
    match out (CameraWorker_run self fuel E c) with
    | Ret _ => q' = PEnd false
    | Raise _ => q' = PEnd true
    | OutOfFuel => starved q' = true
    end.
Proof.
  intros Hl.
  destruct (run_follows_graph self fuel E c) as (q' & Hp & Ho).
  rewrite Hl in Hp. apply path_split in Hp. destruct Hp as (q1 & Hp1 & Hp2).
  cbn [path] in Hp2. destruct (wnext q1 x) as [q2|] eqn:Hx; [|discriminate].
  exists q1, q2, q'. auto.
Qed.

(** An event that leads to the finally block is followed by the log of
    the finally block and nothing else. *)
Lemma run_tail_finally self fuel E c l1 x l2 q1 b :
  log (CameraWorker_run self fuel E c) = l1 ++ x :: l2 ->
  (forall q q', path PStart l1 = Some q -> wnext q x = Some q' ->
                q = q1 /\ q' = PFinally b) ->
  finally_log l2
  /\ out (CameraWorker_run self fuel E c) <> OutOfFuel
  /\ (b = true -> exists e, out (CameraWorker_run self fuel E c) = Raise e).
Proof.
  intros Hl Hq.
  destruct (run_log_cut _ _ _ _ _ _ _ Hl) as (q & q2 & q' & Hp1 & Hx & Hp2 & Ho).
  destruct (Hq _ _ Hp1 Hx) as [-> ->].
  destruct (finally_paths _ _ _ Hp2) as [Hs Hf].
  destruct (out (CameraWorker_run self fuel E c)) as [a|e|] eqn:Hout.
  - destruct Hf as [Hfl Hb]; [eauto|]. split; [assumption|]. split; [discriminate|].
    intros ->. specialize (Hb eq_refl). congruence.
  - destruct Hf as [Hfl Hb]; [eauto|]. split; [assumption|]. split; [discriminate|].
    eauto.
  - congruence.
Qed.

(** * Equations of the monad *)

Lemma bind_ret_eq {A B} (m : M A) (k : A -> M B) E c a c' l :
  m E c = mkRes (Ret a) c' l -> bind m k E c = after l (k a E c').
Proof. intros H. unfold bind, after. rewrite H. reflexivity. Qed.

Lemma bind_raise_eq {A B} (m : M A) (k : A -> M B) E c e c' l :
  m E c = mkRes (Raise e) c' l -> bind m k E c = mkRes (Raise e) c' l.
Proof. intros H. unfold bind. rewrite H. reflexivity. Qed.

Lemma bind_fuel_eq {A B} (m : M A) (k : A -> M B) E c c' l :
  m E c = mkRes OutOfFuel c' l -> bind m k E c = mkRes OutOfFuel c' l.
Proof. intros H. unfold bind. rewrite H. reflexivity. Qed.

Lemma res_eta {A} (r : res A) : r = mkRes (out r) (cur r) (log r).
Proof. destruct r; reflexivity. Qed.

Lemma sdk_ok cl v E c :
  fails (E c) = false ->
  sdk cl v E c = mkRes (Ret (v (E c))) (S c) [EvCall cl (inr (v (E c)))].
Proof. intros H. unfold sdk. rewrite H. reflexivity. Qed.

Lemma sdk_fail cl v E c :
  fails (E c) = true ->
  sdk cl v E c = mkRes (Raise Fc2error) (S c) [EvCall cl (inl Fc2error)].
Proof. intros H. unfold sdk. rewrite H. reflexivity. Qed.

Lemma after_after {A} l1 l2 (r : res A) :
  after l1 (after l2 r) = after (l1 ++ l2) r.
Proof. unfold after. cbn [out cur log]. rewrite app_assoc. reflexivity. Qed.

Lemma after_mk {A} l (o : outcome A) c l' :
  after l (mkRes o c l') = mkRes o c (l ++ l').
Proof. reflexivity. Qed.

(** * The readiness poller *)

(** [reg_val & FIRE_VALUE] is zero exactly when bit 31 is clear. *)
Lemma fire_bit v : (Z.land v FIRE_VALUE =? 0) = negb (Z.testbit v 31).
Proof.
  assert (HF : FIRE_VALUE = 2 ^ 31) by reflexivity. rewrite HF. clear HF.
  destruct (Z.testbit v 31) eqn:Hb; cbn [negb].
  - apply Z.eqb_neq. intros H0.
    assert (H : Z.testbit (Z.land v (2 ^ 31)) 31 = true).
    { rewrite Z.land_spec, Hb, Z.pow2_bits_true by lia. reflexivity. }
    rewrite H0 in H. rewrite Z.bits_0 in H. discriminate.
  - apply Z.eqb_eq. apply Z.bits_inj'. intros n Hn.
    rewrite Z.land_spec, Z.bits_0, Z.pow2_bits_eqb by lia.
    destruct (Z.eqb_spec 31 n) as [<-|_].
    + rewrite Hb. reflexivity.
    + apply andb_false_r.
Qed.

(** One iteration of the poller on a busy register: a read, a sleep, and
    the poll goes on. *)
Lemma poll_busy fuel E c :
  fails (E c) = false -> Z.testbit (reg_val (E c)) 31 = true ->
  poll_for_trigger_ready (S fuel) E c =
  after [EvCall (readRegister SOFTWARE_TRIGGER) (inr (VInt (reg_val (E c))));
         EvSleep (1 # 1000)]
        (poll_for_trigger_ready fuel E (S c)).
Proof.
  intros Hf Hb. cbn [poll_for_trigger_ready].
  rewrite (bind_ret_eq _ _ _ _ _ _ _ (sdk_ok _ _ _ _ Hf)).
  rewrite fire_bit, Hb. cbn [negb].
  rewrite (bind_ret_eq _ _ E (S c) tt (S c) [EvSleep POLL_SLEEP]) by reflexivity.
  rewrite after_after. reflexivity.
Qed.

Lemma poll_ready fuel E c :
  fails (E c) = false -> Z.testbit (reg_val (E c)) 31 = false ->
  poll_for_trigger_ready (S fuel) E c =
  mkRes (Ret tt) (S c)
        [EvCall (readRegister SOFTWARE_TRIGGER) (inr (VInt (reg_val (E c))))].
Proof.
  intros Hf Hb. cbn [poll_for_trigger_ready].
  rewrite (bind_ret_eq _ _ _ _ _ _ _ (sdk_ok _ _ _ _ Hf)).
  rewrite fire_bit, Hb. reflexivity.
Qed.

Lemma poll_read_fails fuel E c :
  fails (E c) = true ->
  poll_for_trigger_ready (S fuel) E c =
  mkRes (Raise Fc2error) (S c)
        [EvCall (readRegister SOFTWARE_TRIGGER) (inl Fc2error)].
Proof.
  intros Hf. cbn [poll_for_trigger_ready].
  rewrite (bind_raise_eq _ _ _ _ _ _ _ (sdk_fail _ _ _ _ Hf)). reflexivity.
Qed.

(** C9.  The poller reads the trigger register anew in every iteration;
    after each read that shows bit 31 set it sleeps 0.001 s and reads
    again; at the first read that shows bit 31 clear it returns, with no
    further sleep.  For register values busy at the first [k] reads and
    ready at the next, the poll is exactly [k] read-and-sleep rounds and
    one last read, and it returns as soon as it is given fuel for
    [k + 1] iterations. *)
Theorem poll_returns_at_first_ready (E : env) (c k fuel : nat) :
  (forall j, (j < k)%nat ->
     fails (E (c + j)%nat) = false /\ Z.testbit (reg_val (E (c + j)%nat)) 31 = true) ->
  fails (E (c + k)%nat) = false ->
  Z.testbit (reg_val (E (c + k)%nat)) 31 = false ->
  (k < fuel)%nat ->
  poll_for_trigger_ready fuel E c =
  mkRes (Ret tt) (c + k + 1)%nat
    (busy_rounds E c k
     ++ [EvCall (readRegister SOFTWARE_TRIGGER) (inr (VInt (reg_val (E (c + k)%nat))))]).
Proof.
  revert c fuel. induction k as [|k IH]; intros c fuel Hbusy Hf Hb Hfuel.
  - destruct fuel as [|fuel]; [lia|].
    rewrite Nat.add_0_r in *. rewrite poll_ready by assumption.
    f_equal. lia.
  - destruct fuel as [|fuel]; [lia|].
    destruct (Hbusy 0%nat ltac:(lia)) as [Hf0 Hb0]. rewrite Nat.add_0_r in Hf0, Hb0.
    rewrite poll_busy by assumption.
    rewrite (IH (S c) fuel).
    + unfold after, busy_rounds. cbn [out cur log].
      f_equal; [lia|].
      cbn [seq flat_map]. rewrite <- seq_shift.
      rewrite (flat_map_concat_map _ (map S _)), map_map, <- flat_map_concat_map.
      rewrite Nat.add_0_r. rewrite <- app_assoc.
      replace (c + S k)%nat with (S c + k)%nat by lia.
      do 2 f_equal. apply flat_map_ext. intros j.
      replace (c + S j)%nat with (S c + j)%nat by lia. reflexivity.
    + intros j Hj. replace (S c + j)%nat with (c + S j)%nat by lia.
      apply Hbusy. lia.
    + replace (S c + k)%nat with (c + S k)%nat by lia. assumption.
    + replace (S c + k)%nat with (c + S k)%nat by lia. assumption.
    + lia.
Qed.

(** * Before the try statement *)

Ltac in_discr H :=
  solve [repeat (destruct H as [H|H]; [discriminate H|]); destruct H].


Lemma enable_log_events b E c ev :
  In ev (log (enable_embedded_timestamp b E c)) -> is_cleanup ev = false.
Proof.
  unfold enable_embedded_timestamp, bind, sdk, print, ret.
  destruct (fails (E c)); cbn [out cur log].
  - intros [<-|[]]. reflexivity.
  - destruct (info_timestamp (E c)); cbn [out cur log].
    + destruct (fails (E (S c))); cbn [out cur log].
      * cbn [app]. intros [<-|[<-|[]]]; reflexivity.
      * destruct b; cbn [out cur log app]; intros [<-|[<-|[<-|[]]]]; reflexivity.
    + cbn [app]. intros [<-|[]]. reflexivity.
Qed.

Lemma early_paths l q q' :
  path q l = Some q' -> early q = true ->
  early q' = true \/ exists r, In (EvCall getEmbeddedImageInfo r) l.
Proof.
  revert q. induction l as [|x l IH]; intros q; cbn [path].
  - intros [= <-] H. auto.
  - destruct (wnext q x) as [q1|] eqn:Hx; [|discriminate].
    intros Hp Hq.
    destruct q; try discriminate Hq; graph_inv Hx; try discriminate Hx;
      injection Hx as <-;
      try (destruct (IH _ Hp eq_refl) as [H|[r H]];
           [left; exact H | right; exists r; right; exact H]);
      try (right; eexists; left; reflexivity).
Qed.

(** C10.  [run] calls [enable_embedded_timestamp] before its try
    statement.  If that call raises, after the two constructors have
    returned, [run] raises the same exception and its log holds no
    [connect], no [stopCapture] and no [disconnect]: the finally block is
    never entered.  In every log of [run], a [connect] comes after the
    [getEmbeddedImageInfo] call of [enable_embedded_timestamp]. *)
Theorem timestamp_failure_skips_cleanup self fuel E c e :
  fails (E c) = false -> fails (E (S c)) = false ->
  out (enable_embedded_timestamp true E (S (S c))) = Raise e ->
  out (CameraWorker_run self fuel E c) = Raise e
  /\ log (CameraWorker_run self fuel E c) =
       [EvCall BusManager_new (inr VNone); EvCall Camera_new (inr VNone)]
       ++ log (enable_embedded_timestamp true E (S (S c)))
  /\ (forall ev, In ev (log (CameraWorker_run self fuel E c)) ->
        is_cleanup ev = false /\ forall g r, ev <> EvCall (connect g) r)
  /\ (forall self' fuel' E' c' l1 g r l2,
        log (CameraWorker_run self' fuel' E' c') = l1 ++ EvCall (connect g) r :: l2 ->
        exists r', In (EvCall getEmbeddedImageInfo r') l1).
Proof.
  intros H0 H1 He.
  assert (Hrun : CameraWorker_run self fuel E c =
                 after [EvCall BusManager_new (inr VNone); EvCall Camera_new (inr VNone)]
                       (mkRes (Raise e)
                          (cur (enable_embedded_timestamp true E (S (S c))))
                          (log (enable_embedded_timestamp true E (S (S c)))))).
  { unfold CameraWorker_run, prepare_camera.
    apply bind_raise_eq.
    rewrite (bind_ret_eq _ _ _ _ _ _ _ (sdk_ok _ _ _ _ H0)).
    rewrite (bind_ret_eq _ _ _ _ _ _ _ (sdk_ok _ _ _ _ H1)).
    rewrite after_after. f_equal.
    rewrite (res_eta (enable_embedded_timestamp true E (S (S c)))) at 1.
    rewrite He. reflexivity. }
  split; [rewrite Hrun; reflexivity|].
  split; [rewrite Hrun; reflexivity|].
  split.
  - rewrite Hrun. cbn [after log app]. intros ev [<-|[<-|Hin]].
    + split; [reflexivity|discriminate].
    + split; [reflexivity|discriminate].
    + split; [eapply enable_log_events; eassumption|].
      intros g r ->. revert Hin.
      unfold enable_embedded_timestamp, bind, sdk, print, ret.
      destruct (fails (E (S (S c)))); cbn [out cur log].
      * intros Hin. in_discr Hin.
      * destruct (info_timestamp (E (S (S c)))); cbn [out cur log].
        -- destruct (fails (E (S (S (S c))))); cbn [out cur log app];
             intros Hin; in_discr Hin.
        -- cbn [app]. intros Hin. in_discr Hin.
  - intros self' fuel' E' c' l1 g r l2 Hl.
    destruct (run_log_cut _ _ _ _ _ _ _ Hl) as (q1 & q2 & q' & Hp1 & Hx & _).
    destruct (early_paths _ _ _ Hp1 eq_refl) as [Hq|Hin]; [|exact Hin].
    destruct q1; try discriminate Hq; graph_inv Hx.
Qed.

(** * Leaving the loop *)

Lemma fire_fail_source q a v e q' :
  wnext q (EvCall (writeRegister a v) (inl e)) = Some q' ->
  q = PFire /\ q' = PFinally true.
Proof. intros H. destruct q; graph_inv H. injection H as <-. auto. Qed.

Lemma wait_raise_source q bl e q' :
  wnext q (EvWaitRet bl (inl e)) = Some q' ->
  q = PWaitRet /\ q' = match e with
                       | TimeoutError => PLoopTop
                       | _ => PFinally true
                       end.
Proof. intros H. destruct q; graph_inv H; injection H as <-; auto. Qed.

Lemma stop_seen_source q ev q' :
  wnext q (EvIsSet ev true) = Some q' -> q = PLoopTop /\ q' = PFinally false.
Proof. intros H. destruct q; graph_inv H. injection H as <-. auto. Qed.

Lemma finally_log_cleanup l :
  finally_log l -> forall ev, In ev l -> is_cleanup ev = true.
Proof.
  intros H. apply finally_log_cases in H.
  destruct H as [->|(r & _ & ->)]; intros ev Hin; cbn [In] in Hin.
  - destruct Hin as [<-|[]]. reflexivity.
  - destruct Hin as [<-|[<-|[]]]; reflexivity.
Qed.

(** C6 (as amended).  A failure of the fire command is not caught: if
    [writeRegister] raises, the rest of the worker's log is the finally
    block ([stopCapture], then [disconnect] when [stopCapture] returned)
    and [run] ends with an exception.  No [retrieveBuffer], no [print]
    and no further cycle follows. *)
Theorem fire_failure_is_fatal self fuel E c l1 a v e l2 :
  log (CameraWorker_run self fuel E c)
    = l1 ++ EvCall (writeRegister a v) (inl e) :: l2 ->
  finally_log l2
  /\ (exists e', out (CameraWorker_run self fuel E c) = Raise e')
  /\ (forall ev, In ev l2 -> is_cleanup ev = true).
Proof.
  intros Hl.
  destruct (run_tail_finally _ _ _ _ _ _ _ PFire true Hl) as (Hf & _ & Hr).
  { intros q q' _ Hx. eapply fire_fail_source; eassumption. }
  split; [assumption|]. split; [auto|]. apply finally_log_cleanup; assumption.
Qed.

(** C6, on the code.  With [writeRegister] failing in the first cycle the
    worker neither retrieves nor reports: it stops the capture,
    disconnects and ends with [Fc2error]. *)
Lemma fire_failure_ends_worker :
  CameraWorker_run worker0 2 fire_fails_env 0%nat =
  mkRes (Raise Fc2error) 14
    [EvCall BusManager_new (inr VNone); EvCall Camera_new (inr VNone);
     EvCall getEmbeddedImageInfo (inr (VInfo false));
     EvCall (getCameraFromIndex 0) (inr (VGuid 0));
     EvCall (connect 0) (inr VNone);
     EvCall getTriggerMode (inr (VTriggerMode (mkTriggerMode false 0 0 0 0)));
     EvCall (setTriggerMode (mkTriggerMode true 0 7 0 0)) (inr VNone);
     EvCall startCapture (inr VNone); EvPrint (StandingBy 0);
     EvIsSet 1 false;
     EvCall (readRegister SOFTWARE_TRIGGER) (inr (VInt 0));
     EvWaitCall 0 5; EvWaitRet 0 (inr 0%nat);
     EvCall (writeRegister SOFTWARE_TRIGGER FIRE_VALUE) (inl Fc2error);
     EvCall stopCapture (inr VNone); EvCall disconnect (inr VNone)].
Proof. reflexivity. Qed.

(** * One cycle of the loop *)

(** The poller only reads the trigger register and sleeps. *)
Lemma poll_log_events fuel E c ev :
  In ev (log (poll_for_trigger_ready fuel E c)) ->
  (exists r, ev = EvCall (readRegister SOFTWARE_TRIGGER) r) \/ ev = EvSleep POLL_SLEEP.
Proof.
  revert c. induction fuel as [|fuel IH]; intros c.
  - intros [].
  - destruct (fails (E c)) eqn:Hf.
    + rewrite poll_read_fails by assumption. intros [<-|[]]. eauto.
    + destruct (Z.testbit (reg_val (E c)) 31) eqn:Hb.
      * rewrite poll_busy by assumption. cbn [after log app].
        intros [<-|[<-|Hin]]; eauto.
      * rewrite poll_ready by assumption. intros [<-|[]]. eauto.
Qed.

Lemma loop_stops self fuel E c :
  flag (E c) = true ->
  capture_loop self (S fuel) E c
  = mkRes (Ret tt) (S c) [EvIsSet (stop_event self) true].
Proof.
  intros Hs. cbn [capture_loop].
  rewrite (bind_ret_eq _ _ E c (flag (E c)) (S c)
             [EvIsSet (stop_event self) (flag (E c))]) by reflexivity.
  rewrite Hs. reflexivity.
Qed.

(** After a cycle that returns, the loop goes on with its next test. *)
Lemma loop_continues self fuel E c :
  flag (E c) = false ->
  out (cycle self fuel E (S c)) = Ret tt ->
  capture_loop self (S fuel) E c
  = after (EvIsSet (stop_event self) false :: log (cycle self fuel E (S c)))
          (capture_loop self fuel E (cur (cycle self fuel E (S c)))).
Proof.
  intros Hs Hc. cbn [capture_loop].
  rewrite (bind_ret_eq _ _ E c (flag (E c)) (S c)
             [EvIsSet (stop_event self) (flag (E c))]) by reflexivity.
  rewrite Hs.
  rewrite (bind_ret_eq _ _ E (S c) tt (cur (cycle self fuel E (S c)))
             (log (cycle self fuel E (S c)))).
  - rewrite after_after. reflexivity.
  - rewrite (res_eta (cycle self fuel E (S c))) at 1. rewrite Hc. reflexivity.
Qed.

(** A cycle that does not return ends the loop with the same outcome. *)
Lemma loop_breaks self fuel E c :
  flag (E c) = false ->
  out (cycle self fuel E (S c)) <> Ret tt ->
  capture_loop self (S fuel) E c
  = after [EvIsSet (stop_event self) false] (cycle self fuel E (S c)).
Proof.
  intros Hs Hc. cbn [capture_loop].
  rewrite (bind_ret_eq _ _ E c (flag (E c)) (S c)
             [EvIsSet (stop_event self) (flag (E c))]) by reflexivity.
  rewrite Hs. f_equal. unfold bind.
  destruct (cycle self fuel E (S c)) as [[[]|e|] k l]; cbn [out cur log] in *;
    [congruence|reflexivity|reflexivity].
Qed.

(** What steps 2 to 4 do, by the answers of the environment. *)
Lemma fire_on_rendezvous_eq self E k :
  fire_on_rendezvous self E k =
  after [EvWaitCall (barrier self) WAIT_TIMEOUT;
         EvWaitRet (barrier self) (wait_result (E k))]
    match wait_result (E k) with
    | inl TimeoutError => mkRes (Ret tt) (S k) []
    | inl e => mkRes (Raise e) (S k) []
    | inr _ =>
        if fails (E (S k))
        then mkRes (Raise Fc2error) (S (S k))
               [EvCall (writeRegister SOFTWARE_TRIGGER FIRE_VALUE) (inl Fc2error)]
        else if fails (E (S (S k)))
        then mkRes (Ret tt) (S (S (S k)))
               [EvCall (writeRegister SOFTWARE_TRIGGER FIRE_VALUE) (inr VNone);
                EvCall retrieveBuffer (inl Fc2error);
                EvPrint (CaptureError (cam_index self) Fc2error)]
        else mkRes (Ret tt) (S (S (S k)))
               [EvCall (writeRegister SOFTWARE_TRIGGER FIRE_VALUE) (inr VNone);
                EvCall retrieveBuffer (inr (VImage (image_ts (E (S (S k))))));
                EvPrint (Captured (cam_index self) (image_ts (E (S (S k)))))]
    end.
Proof.
  unfold fire_on_rendezvous, bind, try_except, barrier_wait, sdk, print, ret, after.
  destruct (wait_result (E k)) as [[]|i]; cbn [out cur log app]; try reflexivity.
  destruct (fails (E (S k))); cbn [out cur log app]; try reflexivity.
  destruct (fails (E (S (S k)))); cbn [out cur log app]; reflexivity.
Qed.

Lemma cycle_eq self fuel E c :
  cycle self fuel E c =
  match out (poll_for_trigger_ready fuel E c) with
  | Ret _ => after (log (poll_for_trigger_ready fuel E c))
               (fire_on_rendezvous self E (cur (poll_for_trigger_ready fuel E c)))
  | Raise e => mkRes (Raise e) (cur (poll_for_trigger_ready fuel E c))
                 (log (poll_for_trigger_ready fuel E c))
  | OutOfFuel => mkRes OutOfFuel (cur (poll_for_trigger_ready fuel E c))
                   (log (poll_for_trigger_ready fuel E c))
  end.
Proof.
  unfold cycle, bind, after.
  destruct (out (poll_for_trigger_ready fuel E c)); reflexivity.
Qed.

(** C7.  A cycle in which [retrieveBuffer] raises ends normally: the
    error is caught and printed as the last event of the cycle, and the
    loop goes on with the test at its top and the cycles after it. *)
Theorem retrieve_error_is_recoverable self fuel E c e :
  flag (E c) = false ->
  In (EvCall retrieveBuffer (inl e)) (log (cycle self fuel E (S c))) ->
  (exists l1, log (cycle self fuel E (S c))
              = l1 ++ [EvCall retrieveBuffer (inl e);
                       EvPrint (CaptureError (cam_index self) e)])
  /\ out (cycle self fuel E (S c)) = Ret tt
  /\ capture_loop self (S fuel) E c
     = after (EvIsSet (stop_event self) false :: log (cycle self fuel E (S c)))
             (capture_loop self fuel E (cur (cycle self fuel E (S c)))).
Proof.
  intros Hs Hin.
  assert (H : (exists l1, log (cycle self fuel E (S c))
                          = l1 ++ [EvCall retrieveBuffer (inl e);
                                   EvPrint (CaptureError (cam_index self) e)])
              /\ out (cycle self fuel E (S c)) = Ret tt).
  { revert Hin. rewrite cycle_eq.
    pose proof (poll_log_events fuel E (S c)) as Hpoll.
    set (k := cur (poll_for_trigger_ready fuel E (S c))).
    set (lp := log (poll_for_trigger_ready fuel E (S c))) in *.
    destruct (out (poll_for_trigger_ready fuel E (S c))) as [[]|x|];
      cbn [out cur log];
      try (intros Hin; destruct (Hpoll _ Hin) as [[r Hr]|Hr]; discriminate Hr).
    rewrite fire_on_rendezvous_eq, after_after.
    destruct (wait_result (E k)) as [[]|i];
      [| | |destruct (fails (E (S k))); [|destruct (fails (E (S (S k))))]];
      cbn [after out cur log]; intros Hin;
      (apply in_app_or in Hin; destruct Hin as [Hin|Hin];
       [apply in_app_or in Hin; destruct Hin as [Hin|Hin];
        [destruct (Hpoll _ Hin) as [[r Hr]|Hr]; discriminate Hr|]|]);
      try in_discr Hin.
    destruct Hin as [Hin|[Hin|[Hin|[]]]]; try discriminate Hin.
    injection Hin as <-. split; [|reflexivity].
    eexists ((lp ++ [_; _]) ++ [_]). rewrite <- !app_assoc. reflexivity. }
  destruct H as [Hl Ho]. split; [assumption|]. split; [assumption|].
  apply loop_continues; assumption.
Qed.

(** * The finally block runs once *)

Lemma late_closed l q q' :
  path q l = Some q' -> late q = true -> late q' = true.
Proof.
  revert q. induction l as [|x l IH]; intros q; cbn [path].
  - intros [= <-]. auto.
  - destruct (wnext q x) as [q1|] eqn:Hx; [|discriminate].
    intros Hp Hq. apply (IH _ Hp).
    destruct q; try discriminate Hq; graph_inv Hx; injection Hx as <-; reflexivity.
Qed.

Lemma cleanup_is_late q x q' :
  wnext q x = Some q' -> is_cleanup x = true -> late q' = true.
Proof.
  intros Hx Hc. destruct x as [[] r| | | | |]; try discriminate Hc;
    destruct q; graph_inv Hx; injection Hx as <-; reflexivity.
Qed.

(** No camera is released on the way to a control point before the end
    of the finally block. *)
Lemma no_cleanup_before l q q' :
  path q l = Some q' -> late q' = false ->
  forall ev, In ev l -> is_cleanup ev = false.
Proof.
  revert q. induction l as [|x l IH]; intros q; cbn [path].
  - intros _ _ ev [].
  - destruct (wnext q x) as [q1|] eqn:Hx; [|discriminate].
    intros Hp Hq ev [<-|Hin].
    + destruct (is_cleanup x) eqn:Hc; [|reflexivity].
      pose proof (late_closed _ _ _ Hp (cleanup_is_late _ _ _ Hx Hc)). congruence.
    + eapply IH; eassumption.
Qed.

(** A path from inside the try block to the end of [run] is a path to
    the finally block, without a release of the camera, followed by the
    log of the finally block. *)
Lemma try_paths l q b :
  path q l = Some (PEnd b) -> in_try q = true ->
  exists la lb,
    l = la ++ lb /\ (forall ev, In ev la -> is_cleanup ev = false) /\ finally_log lb.
Proof.
  revert q. induction l as [|x l IH]; intros q; cbn [path].
  - intros [= ->]. discriminate.
  - destruct (wnext q x) as [q1|] eqn:Hx; [|discriminate].
    intros Hp Hq.
    assert (Hx' : is_cleanup x = false).
    { destruct (is_cleanup x) eqn:Hc; [|reflexivity].
      destruct x as [[] r| | | | |]; try discriminate Hc;
        destruct q; try discriminate Hq; graph_inv Hx. }
    assert (Hq1 : in_try q1 = true \/ exists b', q1 = PFinally b').
    { destruct q; try discriminate Hq; graph_inv Hx; injection Hx as <-;
        solve [left; reflexivity | right; eauto]. }
    destruct Hq1 as [Hq1|[b' ->]].
    + destruct (IH _ Hp Hq1) as (la & lb & -> & Hla & Hlb).
      exists (x :: la), lb. split; [reflexivity|]. split; [|assumption].
      intros ev [<-|Hin]; auto.
    + exists [x], l. split; [reflexivity|]. split.
      * intros ev [<-|[]]; assumption.
      * apply (finally_paths _ _ _ Hp). eauto.
Qed.

Lemma calls_of_app c l1 l2 :
  calls_of c (l1 ++ l2) = (calls_of c l1 + calls_of c l2)%nat.
Proof.
  induction l1 as [|x l1 IH]; [reflexivity|].
  cbn [app calls_of]. destruct x as [d r| | | | |]; try assumption.
  destruct (same_call c d); [rewrite IH; reflexivity|assumption].
Qed.

Lemma calls_of_none c l :
  (forall ev, In ev l -> is_cleanup ev = false) -> calls_of c l = 0%nat.
Proof.
  induction l as [|x l IH]; intros H; [reflexivity|].
  cbn [calls_of]. pose proof (H x (or_introl eq_refl)) as Hx.
  rewrite IH by (intros ev Hin; apply H; right; assumption).
  destruct x as [d r| | | | |]; try reflexivity.
  destruct c, d; try reflexivity; discriminate Hx.
Qed.

Lemma in_cleanup_false l ev :
  (forall x, In x l -> is_cleanup x = false) -> is_cleanup ev = true -> ~ In ev l.
Proof. intros H Hc Hin. rewrite (H _ Hin) in Hc. discriminate. Qed.

(** A worker that has entered its capture loop and has terminated has
    called [stopCapture] once, and [disconnect] once if [stopCapture]
    returned and not at all if it raised. *)
Lemma run_releases_camera self fuel E c i :
  out (CameraWorker_run self fuel E c) <> OutOfFuel ->
  In (EvPrint (StandingBy i)) (log (CameraWorker_run self fuel E c)) ->
  calls_of stopCapture (log (CameraWorker_run self fuel E c)) = 1%nat
  /\ (calls_of disconnect (log (CameraWorker_run self fuel E c)) <= 1)%nat
  /\ ((exists v, In (EvCall stopCapture (inr v)) (log (CameraWorker_run self fuel E c)))
      <-> calls_of disconnect (log (CameraWorker_run self fuel E c)) = 1%nat).
Proof.
  intros Ho Hin. apply in_split in Hin. destruct Hin as (l1 & l2 & Hl).
  destruct (run_log_cut _ _ _ _ _ _ _ Hl) as (q1 & q2 & q' & Hp1 & Hx & Hp2 & Hout).
  assert (Hq : q1 = PStandBy /\ q2 = PLoopTop).
  { destruct q1; graph_inv Hx. injection Hx as <-. auto. }
  destruct Hq as [-> ->].
  assert (Hend : exists b, q' = PEnd b).
  { destruct (out (CameraWorker_run self fuel E c)); [eauto|eauto|congruence]. }
  destruct Hend as [b ->].
  destruct (try_paths _ _ _ Hp2 eq_refl) as (la & lb & -> & Hla & Hlb).
  pose proof (no_cleanup_before _ _ _ Hp1 eq_refl) as Hl1.
  rewrite Hl.
  assert (Hcount : forall cl,
             calls_of cl (l1 ++ EvPrint (StandingBy i) :: la ++ lb) = calls_of cl lb).
  { intros cl. rewrite calls_of_app. cbn [calls_of]. rewrite calls_of_app.
    rewrite (calls_of_none cl l1), (calls_of_none cl la) by assumption. reflexivity. }
  rewrite !Hcount.
  assert (Hmem : forall ev, is_cleanup ev = true ->
             In ev (l1 ++ EvPrint (StandingBy i) :: la ++ lb) -> In ev lb).
  { intros ev Hc H. apply in_app_or in H. destruct H as [H|[H|H]].
    - exfalso. exact (in_cleanup_false _ _ Hl1 Hc H).
    - subst ev. discriminate Hc.
    - apply in_app_or in H. destruct H as [H|H]; [|assumption].
      exfalso. exact (in_cleanup_false _ _ Hla Hc H). }
  apply finally_log_cases in Hlb.
  destruct Hlb as [->|(r & _ & ->)]; cbn [calls_of same_call].
  - split; [reflexivity|]. split; [lia|]. split; [|discriminate].
    intros [v Hv]. apply Hmem in Hv; [|reflexivity].
    destruct Hv as [Hv|[]]. discriminate Hv.
  - split; [reflexivity|]. split; [lia|]. split; [reflexivity|].
    intros _. exists VNone. apply in_or_app. right. right.
    apply in_or_app. right. left. reflexivity.
Qed.

(** * The manager *)

Lemma spawn_all (ks : list nat) (st : CameraManager * list maction) :
  exists news,
    fold_left spawn ks st
    = (mkCameraManager (num_cams (fst st)) (mgr_barrier (fst st))
         (mgr_stop_event (fst st)) (processes (fst st) ++ news),
       snd st ++ map MStart news)
    /\ map (fun p => cam_index (target p)) news = ks
    /\ map pid news = seq (length (processes (fst st))) (length ks)
    /\ (forall p, In p news ->
          barrier (target p) = mgr_barrier (fst st)
          /\ stop_event (target p) = mgr_stop_event (fst st)).
Proof.
  revert st. induction ks as [|i ks IH]; intros [m acts]; cbn [fold_left fst snd].
  - exists []. rewrite !app_nil_r. destruct m.
    split; [reflexivity|]. split; [reflexivity|]. split; [reflexivity|].
    intros q [].
  - destruct (IH (spawn (m, acts) i)) as (news & Hf & Hi & Hp & Hb).
    cbn [spawn fst snd num_cams mgr_barrier mgr_stop_event processes] in *.
    exists (mkProcess (length (processes m))
              (mkCameraWorker i (mgr_barrier m) (mgr_stop_event m)) :: news).
    rewrite Hf. rewrite <- !app_assoc. cbn [app map].
    split; [reflexivity|]. split; [cbn; f_equal; exact Hi|]. split.
    + cbn [pid length seq]. f_equal. rewrite Hp, length_app. cbn [length].
      f_equal. lia.
    + intros p [<-|Hin]; [split; reflexivity|]. apply Hb; assumption.
Qed.

(** C8.  With [n] cameras on the bus, [start] spawns exactly [n]
    processes, one per camera index 0 .. n-1, each a distinct process;
    every worker holds the manager's barrier and the manager's stop
    event, and that barrier was constructed with [n] parties. *)
Theorem start_spawns_one_worker_per_camera (n : nat) :
  let m0 := fst (CameraManager_init n) in
  let m1 := fst (CameraManager_start m0) in
  length (processes m1) = n
  /\ map (fun p => cam_index (target p)) (processes m1) = seq 0 n
  /\ map pid (processes m1) = seq 0 n
  /\ (forall p, In p (processes m1) ->
        barrier (target p) = mgr_barrier m0
        /\ stop_event (target p) = mgr_stop_event m0)
  /\ b_parties (the_barrier (snd (CameraManager_init n))) = Z.of_nat n
  /\ snd (CameraManager_start m0) = map MStart (processes m1)
  /\ mgr_barrier m1 = mgr_barrier m0 /\ mgr_stop_event m1 = mgr_stop_event m0.
Proof.
  intros m0 m1. subst m1. unfold CameraManager_start.
  destruct (spawn_all (seq 0 (num_cams m0)) (m0, [])) as (news & Hf & Hi & Hp & Hb).
  rewrite Hf. cbn [fst snd processes num_cams mgr_barrier mgr_stop_event app] in *.
  rewrite length_seq in Hp. change (num_cams m0) with n in *.
  change (processes m0) with (@nil Process) in *. cbn [app length] in *.
  split; [rewrite <- (length_map (fun p => cam_index (target p)) news), Hi;
          apply length_seq|].
  repeat split; try assumption; apply Hb; assumption.
Qed.

(** * Sessions *)

Lemma start_closed_form n b e k :
  fold_left spawn (seq 0 k) (mkCameraManager n b e [], [])
  = (mkCameraManager n b e
       (map (fun j => mkProcess j (mkCameraWorker j b e)) (seq 0 k)),
     map MStart (map (fun j => mkProcess j (mkCameraWorker j b e)) (seq 0 k))).
Proof.
  induction k as [|k IH]; [reflexivity|].
  rewrite seq_S, fold_left_app, IH. cbn [fold_left plus]. unfold spawn.
  cbn [fst snd num_cams mgr_barrier mgr_stop_event processes].
  rewrite length_map, length_seq, !map_app. reflexivity.
Qed.

Lemma session_manager_eq n :
  session_manager n = mkCameraManager n 0 1 (map process_of (seq 0 n)).
Proof.
  unfold session_manager, CameraManager_start, CameraManager_init.
  cbn [fst num_cams]. rewrite start_closed_form. reflexivity.
Qed.

Lemma main_actions_eq n :
  main_actions n
  = map MStart (map process_of (seq 0 n))
    ++ [MSet 1; MAbort 0] ++ map MJoin (map process_of (seq 0 n)).
Proof.
  unfold main_actions, CameraManager_start, CameraManager_init, CameraManager_stop.
  cbn [fst num_cams]. rewrite start_closed_form. reflexivity.
Qed.

Lemma session_process n p :
  In p (processes (session_manager n)) <-> exists j, (j < n)%nat /\ p = process_of j.
Proof.
  rewrite session_manager_eq. cbn [processes]. rewrite in_map_iff.
  split.
  - intros (j & <- & Hj). apply in_seq in Hj. exists j. split; [lia|reflexivity].
  - intros (j & Hj & ->). exists j. split; [reflexivity|]. apply in_seq. lia.
Qed.

Lemma replay_app m s t1 t2 :
  replay m s (t1 ++ t2)
  = match replay m s t1 with Some s1 => replay m s1 t2 | None => None end.
Proof.
  revert s. induction t1 as [|l t1 IH]; intros s; cbn [app replay]; [reflexivity|].
  destruct (sys_step m s l); [apply IH|reflexivity].
Qed.

Lemma reach_app n t1 t2 s :
  reach n (t1 ++ t2) s ->
  exists s1, reach n t1 s1 /\ replay (session_manager n) s1 t2 = Some s.
Proof.
  unfold reach. rewrite replay_app.
  destruct (replay (session_manager n) (session_start n) t1) as [s1|]; [|discriminate].
  eauto.
Qed.

Lemma reach_snoc n t l s :
  reach n (t ++ [l]) s ->
  exists s1, reach n t s1 /\ sys_step (session_manager n) s1 l = Some s.
Proof.
  intros H. apply reach_app in H. destruct H as (s1 & H1 & H2).
  exists s1. split; [assumption|]. cbn [replay] in H2.
  destruct (sys_step (session_manager n) s1 l); [assumption|discriminate].
Qed.

Lemma worker_events_app p t1 t2 :
  worker_events p (t1 ++ t2) = worker_events p t1 ++ worker_events p t2.
Proof.
  induction t1 as [|l t1 IH]; [reflexivity|]. cbn [app worker_events].
  destruct l as [q [e| |]|a]; try assumption.
  destruct (Nat.eqb q p); [cbn [app]; f_equal|]; assumption.
Qed.

Lemma manager_actions_app t1 t2 :
  manager_actions (t1 ++ t2) = manager_actions t1 ++ manager_actions t2.
Proof.
  induction t1 as [|l t1 IH]; [reflexivity|]. cbn [app manager_actions].
  destruct l as [q w|a]; [assumption|]. cbn [app]. f_equal. assumption.
Qed.

Lemma generation_app n t1 t2 :
  generation n (t1 ++ t2) = (generation n t1 + generation n t2)%nat.
Proof. unfold generation. rewrite filter_app, length_app. reflexivity. Qed.

Lemma prefix_app_l {A} (l1 l2 l : list A) : prefix (l1 ++ l2) l -> prefix l1 l.
Proof. intros [l3 ->]. exists (l2 ++ l3). rewrite app_assoc. reflexivity. Qed.

Lemma path_of_prefix l1 l q :
  prefix l1 l -> path PStart l = Some q -> exists q1, path PStart l1 = Some q1.
Proof.
  intros [l3 ->] H. apply path_split in H. destruct H as (q1 & H & _). eauto.
Qed.

Lemma well_formed_prefix n t1 t2 : well_formed n (t1 ++ t2) -> well_formed n t1.
Proof.
  intros ([s Hs] & Hm & Hw). split; [|split].
  - apply reach_app in Hs. destruct Hs as (s1 & H1 & _). eauto.
  - rewrite manager_actions_app in Hm. eapply prefix_app_l; eassumption.
  - intros j Hj. destruct (Hw j Hj) as [q Hq].
    rewrite worker_events_app in Hq. apply path_split in Hq.
    destruct Hq as (q1 & H & _). eauto.
Qed.

Lemma execution_well_formed n t : execution n t -> well_formed n t.
Proof.
  intros (Hs & Hm & Hw). split; [assumption|]. split; [assumption|].
  intros j Hj.
  destruct (Hw (process_of j)) as [(E & fuel & Hp) _].
  { apply session_process. eauto. }
  cbn [process_of pid target] in Hp.
  destruct (run_follows_graph (mkCameraWorker j 0 1) fuel E 0%nat) as (q & Hq & _).
  eapply path_of_prefix; eassumption.
Qed.

(** * The process table *)

Lemma nth_error_set_nth_eq {A} (l : list A) p a x :
  nth_error l p = Some a -> nth_error (set_nth p x l) p = Some x.
Proof.
  revert p. induction l as [|y l IH]; intros [|p]; cbn; try discriminate; auto.
Qed.

Lemma nth_error_set_nth_neq {A} (l : list A) p j x :
  j <> p -> nth_error (set_nth p x l) j = nth_error l j.
Proof.
  revert p j. induction l as [|y l IH]; intros [|p] [|j] H; cbn; auto;
    try contradiction.
Qed.

Lemma length_set_nth {A} (l : list A) p x : length (set_nth p x l) = length l.
Proof.
  revert p. induction l as [|y l IH]; intros [|p]; cbn; auto.
Qed.

Lemma parked_set_nth l p a x :
  nth_error l p = Some a ->
  (parked (set_nth p x l) + (if is_parked a then 1 else 0)
   = parked l + (if is_parked x then 1 else 0))%nat.
Proof.
  revert p. induction l as [|y l IH]; intros [|p]; cbn [nth_error set_nth];
    try discriminate.
  - intros [= ->]. destruct a, x; cbn; lia.
  - intros H. specialize (IH _ H). destruct y; cbn [parked]; lia.
Qed.

Lemma parked_le_length l : (parked l <= length l)%nat.
Proof. induction l as [|[] l IH]; cbn; lia. Qed.

Lemma parked_app l st :
  parked (l ++ [st]) = (parked l + (if is_parked st then 1 else 0))%nat.
Proof.
  induction l as [|y l IH]; cbn [app parked].
  - destruct st; reflexivity.
  - destruct y; rewrite IH; reflexivity.
Qed.

Lemma all_parked l :
  parked l = length l ->
  forall j, (j < length l)%nat -> exists i, nth_error l j = Some (Parked i).
Proof.
  induction l as [|y l IH]; cbn [length]; intros H j Hj; [lia|].
  pose proof (parked_le_length l).
  destruct y; cbn [parked] in H; try lia.
  destruct j as [|j]; cbn [nth_error]; [eauto|].
  apply IH; lia.
Qed.

(** If all but one are parked and worker [p] is not, every other worker
    is. *)
Lemma all_parked_but l p a :
  nth_error l p = Some a -> is_parked a = false ->
  (length l <= parked l + 1)%nat ->
  forall j, (j < length l)%nat -> j <> p ->
            exists i, nth_error l j = Some (Parked i).
Proof.
  revert p. induction l as [|y l IH]; intros [|p]; cbn [nth_error length];
    try discriminate.
  - intros [= ->] Ha Hl j Hj Hjp.
    destruct j as [|j]; [contradiction|]. cbn [nth_error].
    assert (parked (a :: l) = parked l) as Hp by (destruct a; try discriminate Ha; reflexivity).
    pose proof (parked_le_length l).
    apply all_parked; lia.
  - intros Hp Ha Hl j Hj Hjp.
    pose proof (parked_le_length l).
    destruct (is_parked y) eqn:Hy.
    + destruct y; try discriminate Hy. cbn [parked] in Hl.
      destruct j as [|j]; cbn [nth_error]; [eauto|].
      apply (IH _ Hp Ha); lia.
    + assert (parked (y :: l) = parked l) as Hpy by (destruct y; try discriminate Hy; reflexivity).
      rewrite Hpy in Hl.
      assert (Hall : parked l = length l) by lia.
      destruct (all_parked l Hall p) as [i Hi].
      { apply nth_error_Some. congruence. }
      rewrite Hp in Hi. injection Hi as ->. discriminate Ha.
Qed.

(** * The barrier *)

Lemma enter_filling b :
  b_state b = 0 ->
  Barrier_wait_enter b
  = if b_count b + 1 =? b_parties b
    then Some (EnterReleased (Z.to_nat (b_count b)),
               mkBarrier (b_parties b) (if b_count b =? 0 then 0 else 1) (b_count b))
    else Some (EnterParked (Z.to_nat (b_count b)),
               mkBarrier (b_parties b) 0 (b_count b + 1)).
Proof.
  destruct b as [p s c]. cbn [b_state b_count b_parties]. intros ->.
  unfold Barrier_wait_enter, Barrier_leave, Barrier_release, Barrier_exit,
    set_count, set_state.
  cbn [b_state b_count b_parties orb Z.eqb Z.ltb Z.compare].
  destruct (c + 1 =? p); [|reflexivity].
  replace (c + 1 - 1) with c by lia.
  destruct (c =? 0); reflexivity.
Qed.

Lemma enter_draining b : b_state b = 1 -> Barrier_wait_enter b = None.
Proof.
  destruct b as [p s c]. cbn [b_state]. intros ->. reflexivity.
Qed.

Lemma enter_broken b : b_state b = -2 -> Barrier_wait_enter b = Some (EnterBroken, b).
Proof.
  destruct b as [p s c]. cbn [b_state]. intros ->. reflexivity.
Qed.

Lemma resume_filling b i :
  b_state b = 0 ->
  Barrier_wait_resume b i
  = (inl BrokenBarrierError, mkBarrier (b_parties b) (-2) (b_count b - 1)).
Proof.
  destruct b as [p s c]. cbn [b_state b_count b_parties]. intros ->.
  unfold Barrier_wait_resume, Barrier_leave, Barrier_break, Barrier_exit,
    set_count, set_state.
  cbn [b_state b_count b_parties orb Z.eqb Z.ltb Z.compare].
  destruct (c - 1 =? 0); reflexivity.
Qed.

Lemma resume_draining b i :
  b_state b = 1 ->
  Barrier_wait_resume b i
  = (inr i, mkBarrier (b_parties b) (if b_count b - 1 =? 0 then 0 else 1)
              (b_count b - 1)).
Proof.
  destruct b as [p s c]. cbn [b_state b_count b_parties]. intros ->.
  unfold Barrier_wait_resume, Barrier_leave, Barrier_break, Barrier_exit,
    set_count, set_state.
  cbn [b_state b_count b_parties orb Z.eqb Z.ltb Z.compare].
  destruct (c - 1 =? 0); reflexivity.
Qed.

Lemma resume_broken b i :
  b_state b = -2 ->
  Barrier_wait_resume b i
  = (inl BrokenBarrierError, mkBarrier (b_parties b) (-2) (b_count b - 1)).
Proof.
  destruct b as [p s c]. cbn [b_state b_count b_parties]. intros ->.
  unfold Barrier_wait_resume, Barrier_leave, Barrier_break, Barrier_exit,
    set_count, set_state.
  cbn [b_state b_count b_parties orb Z.eqb Z.ltb Z.compare].
  destruct (c - 1 =? 0); reflexivity.
Qed.

(** * What a trace tells stays true as the trace grows *)

Lemma arrives_in_mono n j g t t' : arrives_in n j g t -> arrives_in n j g (t ++ t').
Proof.
  intros (t1 & i & t2 & -> & Hg & Ho). exists t1, i, (t2 ++ t').
  rewrite <- app_assoc. auto.
Qed.

Lemma all_arrived_mono n g t t' : all_arrived n g t -> all_arrived n g (t ++ t').
Proof. intros H j Hj. apply arrives_in_mono. auto. Qed.

Lemma arrived_pending_mono n j g i t t' :
  arrived_pending n j g i t -> worker_events j t' = [] ->
  arrived_pending n j g i (t ++ t').
Proof.
  intros (t1 & t2 & -> & Hg & Ho & He) H'. exists t1, (t2 ++ t').
  rewrite <- app_assoc. rewrite worker_events_app, He, H'. auto.
Qed.

Lemma released_in_mono n j g t t' :
  released_in n j g t -> worker_events j t' = [] -> released_in n j g (t ++ t').
Proof.
  intros (t1 & i & t2 & bl & -> & Hg & He) H'. exists t1, i, (t2 ++ t'), bl.
  rewrite <- app_assoc. rewrite worker_events_app, He, H', app_nil_r. auto.
Qed.

Lemma arrived_pending_arrives n j g i t :
  arrived_pending n j g i t -> arrives_in n j g t.
Proof. intros (t1 & t2 & -> & Hg & Ho & _). exists t1, i, t2. auto. Qed.

Lemma arrived_pending_returns n j g i t bl :
  arrived_pending n j g i t ->
  released_in n j g (t ++ [ByWorker j (WEv (EvWaitRet bl (inr i)))]).
Proof.
  intros (t1 & t2 & -> & Hg & Ho & He).
  exists t1, i, (t2 ++ [ByWorker j (WEv (EvWaitRet bl (inr i)))]), bl.
  rewrite <- app_assoc. rewrite worker_events_app, He.
  cbn [worker_events app]. rewrite Nat.eqb_refl. auto.
Qed.

Lemma arrived_pending_now n j i t :
  observed_ready (worker_events j t) ->
  arrived_pending n j (generation n t) i (t ++ [ByWorker j (WArrive i)]).
Proof. intros H. exists t, []. auto. Qed.

Lemma return_inv_mono n t j l :
  return_inv n t j -> worker_events j [l] = [] -> return_inv n (t ++ [l]) j.
Proof.
  intros H Hl we bl i Hwe. rewrite worker_events_app, Hl, app_nil_r in Hwe.
  destruct (H _ _ _ Hwe) as (g & Hr & Ha). exists g. split.
  - apply released_in_mono; assumption.
  - apply all_arrived_mono; assumption.
Qed.

(** * Two facts of the graph used for sessions *)

Lemma snoc_path q l x q' :
  path q (l ++ [x]) = Some q' ->
  exists q1, path q l = Some q1 /\ wnext q1 x = Some q'.
Proof.
  intros H. apply path_split in H. destruct H as (q1 & H1 & H2).
  exists q1. split; [assumption|]. cbn [path] in H2.
  destruct (wnext q1 x); [assumption|discriminate].
Qed.

(** [barrier.wait] is called right after a read that shows bit 31 clear. *)
Lemma wait_call_after_ready we bl tmo q :
  path PStart (we ++ [EvWaitCall bl tmo]) = Some q ->
  observed_ready (we ++ [EvWaitCall bl tmo]).
Proof.
  intros H. apply snoc_path in H. destruct H as (q1 & H1 & Hx).
  assert (q1 = PWaitCall) as -> by (destruct q1; graph_inv Hx; reflexivity).
  destruct we as [|y we'] using rev_ind; [discriminate H1|]. clear IHwe'.
  apply snoc_path in H1. destruct H1 as (q0 & H0 & Hy).
  assert (Hr : exists v, y = EvCall (readRegister SOFTWARE_TRIGGER) (inr (VInt v))
                         /\ Z.testbit v 31 = false).
  { destruct q0; graph_inv Hy.
    match goal with
    | Ha : (?a =? SOFTWARE_TRIGGER) = true, Hz : (Z.land ?z FIRE_VALUE =? 0) = true |- _ =>
        apply Z.eqb_eq in Ha; subst a; exists z; split; [reflexivity|];
        rewrite fire_bit in Hz; destruct (Z.testbit z 31); [discriminate|reflexivity]
    end. }
  destruct Hr as (v & -> & Hv).
  exists we', v, bl, tmo. rewrite <- app_assoc. auto.
Qed.

(** The trigger is fired right after [barrier.wait] has returned an
    index. *)
Lemma fire_after_release we a v r q :
  path PStart (we ++ [EvCall (writeRegister a v) r]) = Some q ->
  exists we' bl i, we = we' ++ [EvWaitRet bl (inr i)].
Proof.
  intros H. apply snoc_path in H. destruct H as (q1 & H1 & Hx).
  assert (q1 = PFire) as -> by (destruct q1; graph_inv Hx; reflexivity).
  destruct we as [|y we'] using rev_ind; [discriminate H1|]. clear IHwe'.
  apply snoc_path in H1. destruct H1 as (q0 & H0 & Hy).
  destruct q0; graph_inv Hy. eauto.
Qed.

(** * Steps of a session *)

Ltac match_inv H :=
  cbv beta iota in H;
  repeat match type of H with
         | match ?x with _ => _ end = Some _ =>
             (is_var x; destruct x) || destruct x eqn:?;
             cbv beta iota in H; try discriminate H
         end;
  try discriminate H.

Ltac step_inv H := unfold worker_step in H; match_inv H.

Lemma worker_step_length m s p st w s' :
  worker_step m s p st w = Some s' ->
  length (sys_status s') = length (sys_status s).
Proof.
  intros H. step_inv H; injection H as <-;
    cbn [with_status with_barrier sys_status]; rewrite ?length_set_nth; reflexivity.
Qed.

Lemma sys_step_length m s l s' :
  sys_step m s l = Some s' ->
  length (sys_status s')
  = (length (sys_status s)
     + match l with ByManager a => if is_start a then 1 else 0 | _ => 0 end)%nat.
Proof.
  destruct l as [p w|a]; cbn [sys_step].
  - intros H. match_inv H. rewrite (worker_step_length _ _ _ _ _ _ H). lia.
  - intros H. unfold manager_step in H. match_inv H; injection H as <-;
      cbn [with_barrier sys_status is_start]; rewrite ?length_app; cbn [length]; lia.
Qed.

Lemma replay_length m s t s' :
  replay m s t = Some s' ->
  length (sys_status s')
  = (length (sys_status s) + length (filter is_start (manager_actions t)))%nat.
Proof.
  revert s. induction t as [|l t IH]; intros s; cbn [replay].
  - intros [= <-]. cbn. lia.
  - destruct (sys_step m s l) as [s1|] eqn:Hs; [|discriminate].
    intros H. rewrite (IH _ H), (sys_step_length _ _ _ _ Hs).
    destruct l as [p w|a]; cbn [manager_actions filter]; [lia|].
    destruct (is_start a); cbn [length]; lia.
Qed.

Lemma starts_in_main n : length (filter is_start (main_actions n)) = n.
Proof.
  rewrite main_actions_eq, !filter_app, !length_app.
  assert (H1 : forall l, filter is_start (map MStart l) = map MStart l).
  { induction l as [|x l IH]; cbn; [reflexivity|]. f_equal. assumption. }
  assert (H2 : forall l, filter is_start (map MJoin l) = []).
  { induction l as [|x l IH]; cbn; [reflexivity|]. assumption. }
  rewrite H1, H2. cbn [filter is_start length].
  rewrite !length_map, length_seq. lia.
Qed.

(** There are never more than [n] worker processes. *)
Lemma workers_bounded n t s :
  well_formed n t -> reach n t s -> (length (sys_status s) <= n)%nat.
Proof.
  intros (_ & [rest Hm] & _) Hs. apply replay_length in Hs.
  rewrite Hs. cbn [session_start sys_status length].
  pose proof (starts_in_main n) as Hn. rewrite Hm, filter_app, length_app in Hn. lia.
Qed.

(** * The invariant is kept by every step *)

Lemma generation_snoc n t l :
  generation n (t ++ [l]) = (generation n t + if is_release n l then 1 else 0)%nat.
Proof.
  rewrite generation_app. unfold generation at 2. cbn [filter].
  destruct (is_release n l); reflexivity.
Qed.

Lemma worker_inv_other n t s s' j st l :
  worker_inv n t s j st ->
  worker_events j [l] = [] ->
  (is_parked st = true ->
   (b_state (the_barrier (sys_shared s')) = 0 ->
    b_state (the_barrier (sys_shared s)) = 0 /\ is_release n l = false)
   /\ (b_state (the_barrier (sys_shared s')) = 1 ->
       b_state (the_barrier (sys_shared s)) = 1
       \/ (b_state (the_barrier (sys_shared s)) = 0
           /\ all_arrived n (generation n t) (t ++ [l])))) ->
  worker_inv n (t ++ [l]) s' j st.
Proof.
  intros Hw Hl Hb. destruct st as [| |i|i|]; cbn [worker_inv] in *; auto.
  - rewrite worker_events_app, Hl, app_nil_r. assumption.
  - destruct Hw as (g & Hp & H0 & H1). destruct (Hb eq_refl) as [Hb0 Hb1].
    exists g. split; [apply arrived_pending_mono; assumption|]. split.
    + intros H. destruct (Hb0 H) as [Hs Hr].
      rewrite generation_snoc, Hr. rewrite (H0 Hs). lia.
    + intros H. destruct (Hb1 H) as [Hs|[Hs Ha]].
      * apply all_arrived_mono. auto.
      * rewrite (H0 Hs). assumption.
  - destruct Hw as (g & Hp & Ha). exists g. split.
    + apply arrived_pending_mono; assumption.
    + apply all_arrived_mono; assumption.
Qed.

(** A step that leaves the barrier alone, is no arrival, and changes the
    status of [p] at most. *)
Lemma inv_frame n t s s' l p :
  session_inv n t s ->
  the_barrier (sys_shared s') = the_barrier (sys_shared s) ->
  is_release n l = false ->
  (forall j, j <> p -> worker_events j [l] = []) ->
  (forall j, j <> p -> nth_error (sys_status s') j = nth_error (sys_status s) j) ->
  parked (sys_status s') = parked (sys_status s) ->
  (forall st, nth_error (sys_status s') p = Some st ->
              worker_inv n (t ++ [l]) s' p st) ->
  return_inv n (t ++ [l]) p ->
  session_inv n (t ++ [l]) s'.
Proof.
  intros (Hb & Hw & Hr) Hbar Hrel Hev Hst Hpk Hp Hrp.
  split; [|split].
  - unfold barrier_ok in *. rewrite Hbar, Hpk. assumption.
  - intros j st Hj. destruct (Nat.eq_dec j p) as [->|Hne]; [auto|].
    rewrite (Hst _ Hne) in Hj.
    apply worker_inv_other with (s := s); auto.
    intros _. rewrite Hbar. split; [auto|]. intros H. left. assumption.
  - intros j. destruct (Nat.eq_dec j p) as [->|Hne]; [assumption|].
    apply return_inv_mono; auto.
Qed.

Lemma other_worker_silent p j w : j <> p -> worker_events j [ByWorker p w] = [].
Proof.
  intros H. cbn [worker_events]. destruct w; try reflexivity.
  destruct (Nat.eqb_spec p j); [congruence|reflexivity].
Qed.

Lemma own_event p e : worker_events p [ByWorker p (WEv e)] = [e].
Proof. cbn [worker_events]. rewrite Nat.eqb_refl. reflexivity. Qed.

Lemma return_inv_not_return n t p e :
  (forall bl i, e <> EvWaitRet bl (inr i)) ->
  return_inv n (t ++ [ByWorker p (WEv e)]) p.
Proof.
  intros He we bl i H. rewrite worker_events_app, own_event in H.
  apply app_inj_tail in H. destruct H as [_ ->]. exfalso. eapply He; reflexivity.
Qed.

Lemma return_inv_return n t p bl i g :
  arrived_pending n p g i t -> all_arrived n g t ->
  return_inv n (t ++ [ByWorker p (WEv (EvWaitRet bl (inr i)))]) p.
Proof.
  intros Hp Ha we bl' i' _. exists g. split.
  - apply arrived_pending_returns; assumption.
  - apply all_arrived_mono; assumption.
Qed.

Lemma session_inv_start n : session_inv n [] (session_start n).
Proof.
  split; [|split].
  - unfold barrier_ok. cbn. auto.
  - intros [|j] st; discriminate.
  - intros j we bl i H. destruct we; discriminate H.
Qed.

Lemma nth_error_snoc_other {A} (l : list A) x j :
  j <> length l -> nth_error (l ++ [x]) j = nth_error l j.
Proof.
  intros H. destruct (Nat.lt_ge_cases j (length l)) as [Hlt|Hge].
  - apply nth_error_app1. assumption.
  - rewrite (proj2 (nth_error_None l j)) by lia.
    apply nth_error_None. rewrite length_app. cbn [length]. lia.
Qed.

Lemma manager_silent j a : worker_events j [ByManager a] = [].
Proof. reflexivity. Qed.

Lemma inv_manager_quiet n t s s' a :
  session_inv n t s ->
  the_barrier (sys_shared s') = the_barrier (sys_shared s) ->
  (sys_status s' = sys_status s \/ sys_status s' = sys_status s ++ [Running]) ->
  session_inv n (t ++ [ByManager a]) s'.
Proof.
  intros Hinv Hb Hst.
  apply inv_frame with (s := s) (p := length (sys_status s)); auto.
  - intros j Hj. destruct Hst as [->| ->]; [reflexivity|].
    apply nth_error_snoc_other. assumption.
  - destruct Hst as [->| ->]; [reflexivity|]. rewrite parked_app. cbn. lia.
  - intros st Hs. destruct Hst as [Hst|Hst]; rewrite Hst in Hs.
    + rewrite (proj2 (nth_error_None (sys_status s) (length (sys_status s)))) in Hs
        by lia. discriminate.
    + rewrite nth_error_app2 in Hs by lia. rewrite Nat.sub_diag in Hs.
      injection Hs as <-. exact I.
  - apply return_inv_mono; [apply Hinv | reflexivity].
Qed.

Lemma inv_abort n t s bl :
  session_inv n t s ->
  session_inv n (t ++ [ByManager (MAbort bl)])
    (with_barrier s (Barrier_abort (the_barrier (sys_shared s)))).
Proof.
  intros (Hb & Hw & Hr). split; [|split].
  - destruct Hb as (Hp & _ & _). unfold barrier_ok.
    cbn [with_barrier sys_shared the_barrier sys_status Barrier_abort
           Barrier_break set_state b_parties b_state b_count].
    split; [assumption|]. split; [auto|]. intros [H|H]; discriminate H.
  - intros j st Hj. cbn [with_barrier sys_status] in Hj.
    apply worker_inv_other with (s := s); auto.
    intros _. cbn [with_barrier sys_shared the_barrier Barrier_abort
                     Barrier_break set_state b_state].
    split; intros H; discriminate H.
  - intros j. apply return_inv_mono; auto.
Qed.

Lemma set_nth_same {A} (l : list A) p a :
  nth_error l p = Some a -> set_nth p a l = l.
Proof.
  revert p. induction l as [|y l IH]; intros [|p]; cbn; try discriminate.
  - intros [= ->]. reflexivity.
  - intros H. f_equal. auto.
Qed.

Lemma parked_at_least l j i :
  nth_error l j = Some (Parked i) -> (1 <= parked l)%nat.
Proof.
  revert j. induction l as [|y l IH]; intros [|j]; cbn [nth_error]; try discriminate.
  - intros [= ->]. cbn. lia.
  - intros H. specialize (IH _ H). destruct y; cbn [parked]; lia.
Qed.

(** A step of worker [p] that leaves the barrier alone and is no arrival. *)
Lemma inv_worker_frame n t s p st st' w :
  session_inv n t s ->
  nth_error (sys_status s) p = Some st ->
  is_parked st = false -> is_parked st' = false ->
  (forall i, w <> WArrive i) ->
  worker_inv n (t ++ [ByWorker p w]) (with_status s p st') p st' ->
  return_inv n (t ++ [ByWorker p w]) p ->
  session_inv n (t ++ [ByWorker p w]) (with_status s p st').
Proof.
  intros Hinv Hst Hp Hp' Hw Hwi Hri.
  apply inv_frame with (s := s) (p := p); auto.
  - destruct w; try reflexivity. exfalso. eapply Hw; reflexivity.
  - intros j Hj. apply other_worker_silent; assumption.
  - intros j Hj. cbn [with_status sys_status]. apply nth_error_set_nth_neq; assumption.
  - cbn [with_status sys_status].
    pose proof (parked_set_nth _ _ _ st' Hst) as H. rewrite Hp, Hp' in H. lia.
  - intros st0 H0. cbn [with_status sys_status] in H0.
    rewrite (nth_error_set_nth_eq _ _ _ _ Hst) in H0. injection H0 as <-. assumption.
Qed.

Lemma with_status_same s p st :
  nth_error (sys_status s) p = Some st -> with_status s p st = s.
Proof.
  intros H. unfold with_status. rewrite (set_nth_same _ _ _ H). destruct s; reflexivity.
Qed.

Lemma with_barrier_same s : with_barrier s (the_barrier (sys_shared s)) = s.
Proof. destruct s as [[b f] l]; reflexivity. Qed.

Lemma exn_sum_eqb_eq a b : exn_sum_eqb a b = true -> a = b.
Proof.
  destruct a as [[]|x], b as [[]|y]; cbn; try discriminate; try reflexivity.
  intros H. apply Nat.eqb_eq in H. congruence.
Qed.

Lemma enter_broken_same b b' :
  Barrier_wait_enter b = Some (EnterBroken, b') -> b' = b.
Proof.
  unfold Barrier_wait_enter.
  destruct (_ || _); [discriminate|].
  destruct (b_state b <? 0); [congruence|].
  destruct (_ =? _); discriminate.
Qed.

(** The arrival of the last party completes its generation. *)
Lemma release_completes n t s p i :
  session_inv n t s ->
  (length (sys_status s) <= n)%nat ->
  b_state (the_barrier (sys_shared s)) = 0 ->
  b_count (the_barrier (sys_shared s)) + 1 = b_parties (the_barrier (sys_shared s)) ->
  nth_error (sys_status s) p = Some Called ->
  all_arrived n (generation n t) (t ++ [ByWorker p (WArrive i)]).
Proof.
  intros ((Hpar & Hstate & Hcount) & Hw & _) Hlen Hs Hc Hp j Hj.
  rewrite Hcount, Hpar in Hc by auto.
  destruct (Nat.eq_dec j p) as [->|Hne].
  - exists t, i, []. split; [reflexivity|]. split; [reflexivity|].
    exact (Hw _ _ Hp).
  - assert (Hlen' : length (sys_status s) = n).
    { pose proof (parked_set_nth _ _ _ (Parked 0) Hp) as H.
      cbn [is_parked] in H.
      pose proof (parked_le_length (set_nth p (Parked 0%nat) (sys_status s))) as H'.
      rewrite length_set_nth in H'. lia. }
    destruct (all_parked_but _ _ _ Hp eq_refl ltac:(lia) j ltac:(lia) Hne) as [k Hk].
    destruct (Hw _ _ Hk) as (g & Hpend & H0 & _).
    rewrite <- (H0 Hs). apply arrives_in_mono.
    eapply arrived_pending_arrives; eassumption.
Qed.

Lemma inv_arrive n t s p i :
  session_inv n t s ->
  (length (sys_status s) <= n)%nat ->
  nth_error (sys_status s) p = Some Called ->
  forall s',
    worker_step (session_manager n) s p Called (WArrive i) = Some s' ->
    session_inv n (t ++ [ByWorker p (WArrive i)]) s'.
Proof.
  intros Hinv Hlen Hp s' Hstep.
  pose proof Hinv as ((Hpar & Hstate & Hcount) & Hw & Hr).
  set (b := the_barrier (sys_shared s)) in *.
  assert (Hs : b_state b = 0).
  { destruct Hstate as [H|[H|H]]; [assumption| |]; exfalso;
      unfold worker_step in Hstep; fold b in Hstep.
    - rewrite (enter_draining _ H) in Hstep. discriminate.
    - rewrite (enter_broken _ H) in Hstep. discriminate. }
  specialize (Hcount (or_introl Hs)).
  unfold worker_step in Hstep. fold b in Hstep.
  rewrite (enter_filling _ Hs) in Hstep.
  destruct (b_count b + 1 =? b_parties b) eqn:Hlast.
  - (* the last party: release *)
    apply Z.eqb_eq in Hlast.
    destruct (Nat.eqb_spec i (Z.to_nat (b_count b))) as [Hi|]; [|discriminate].
    injection Hstep as <-.
    assert (Hall : all_arrived n (generation n t) (t ++ [ByWorker p (WArrive i)])).
    { eapply release_completes; eassumption. }
    assert (Hpk : parked (set_nth p (Released (Z.to_nat (b_count b))) (sys_status s))
                  = parked (sys_status s)).
    { pose proof (parked_set_nth _ _ _ (Released (Z.to_nat (b_count b))) Hp) as H.
      cbn [is_parked] in H. lia. }
    split; [|split].
    + unfold barrier_ok.
      cbn [with_status with_barrier sys_shared the_barrier sys_status
             b_parties b_state b_count].
      rewrite Hpk. split; [assumption|]. split; [|auto].
      destruct (b_count b =? 0); auto.
    + intros j st Hj. cbn [with_status with_barrier sys_status] in Hj.
      destruct (Nat.eq_dec j p) as [->|Hne].
      * rewrite (nth_error_set_nth_eq _ _ _ _ Hp) in Hj. injection Hj as <-.
        cbn [worker_inv]. exists (generation n t). split; [|assumption].
        rewrite <- Hi. apply arrived_pending_now. exact (Hw _ _ Hp).
      * rewrite nth_error_set_nth_neq in Hj by assumption.
        apply worker_inv_other with (s := s);
          [auto | apply other_worker_silent; assumption |].
        intros Hpj. destruct st; try discriminate Hpj.
        pose proof (parked_at_least _ _ _ Hj) as H1.
        cbn [with_status with_barrier sys_shared the_barrier b_state].
        fold b. destruct (Z.eqb_spec (b_count b) 0) as [H0|H0]; [lia|].
        split; [intros H; discriminate H|]. intros _. right. auto.
    + intros j. apply return_inv_mono; [apply Hr|].
      cbn [worker_events]. reflexivity.
  - (* another party: park *)
    apply Z.eqb_neq in Hlast.
    destruct (Nat.eqb_spec i (Z.to_nat (b_count b))) as [Hi|]; [|discriminate].
    injection Hstep as <-.
    assert (Hrel : is_release n (ByWorker p (WArrive i)) = false).
    { cbn [is_release]. apply Nat.eqb_neq. lia. }
    assert (Hpk : parked (set_nth p (Parked (Z.to_nat (b_count b))) (sys_status s))
                  = S (parked (sys_status s))).
    { pose proof (parked_set_nth _ _ _ (Parked (Z.to_nat (b_count b))) Hp) as H.
      cbn [is_parked] in H. lia. }
    split; [|split].
    + unfold barrier_ok.
      cbn [with_status with_barrier sys_shared the_barrier sys_status
             b_parties b_state b_count].
      rewrite Hpk. split; [assumption|]. split; [auto|]. intros _. lia.
    + intros j st Hj. cbn [with_status with_barrier sys_status] in Hj.
      destruct (Nat.eq_dec j p) as [->|Hne].
      * rewrite (nth_error_set_nth_eq _ _ _ _ Hp) in Hj. injection Hj as <-.
        cbn [worker_inv]. exists (generation n t). split; [|split].
        -- rewrite <- Hi. apply arrived_pending_now. exact (Hw _ _ Hp).
        -- intros _. rewrite generation_snoc, Hrel. lia.
        -- cbn [with_status with_barrier sys_shared the_barrier b_state].
           intros H; discriminate H.
      * rewrite nth_error_set_nth_neq in Hj by assumption.
        apply worker_inv_other with (s := s);
          [auto | apply other_worker_silent; assumption |].
        intros _. cbn [with_status with_barrier sys_shared the_barrier b_state].
        fold b. split; [auto|]. intros H; discriminate H.
    + intros j. apply return_inv_mono; [apply Hr|].
      cbn [worker_events]. reflexivity.
Qed.

Lemma inv_parked_return n t s p i bl r :
  session_inv n t s ->
  nth_error (sys_status s) p = Some (Parked i) ->
  forall s',
    worker_step (session_manager n) s p (Parked i) (WEv (EvWaitRet bl r)) = Some s' ->
    session_inv n (t ++ [ByWorker p (WEv (EvWaitRet bl r))]) s'.
Proof.
  intros Hinv Hp s' Hstep.
  pose proof Hinv as ((Hpar & Hstate & Hcount) & Hw & Hr).
  set (b := the_barrier (sys_shared s)) in *.
  pose proof (parked_set_nth _ _ _ Running Hp) as Hpk. cbn [is_parked] in Hpk.
  pose proof (Hw _ _ Hp) as (g & Hpend & Hg0 & Hg1). fold b in Hg0, Hg1.
  unfold worker_step in Hstep. fold b in Hstep.
  assert (Hcases :
    exists r' st' c',
      Barrier_wait_resume b i = (r', mkBarrier (b_parties b) st' c')
      /\ ((b_state b = 1 /\ r' = inr i /\ c' = b_count b - 1
           /\ st' = (if b_count b - 1 =? 0 then 0 else 1))
          \/ (b_state b <> 1 /\ r' = inl BrokenBarrierError /\ st' = -2))).
  { destruct Hstate as [H|[H|H]].
    - rewrite (resume_filling _ _ H). do 3 eexists. split; [reflexivity|].
      right. split; [lia|auto].
    - rewrite (resume_draining _ _ H). do 3 eexists. split; [reflexivity|].
      left. auto.
    - rewrite (resume_broken _ _ H). do 3 eexists. split; [reflexivity|].
      right. split; [lia|auto]. }
  destruct Hcases as (r' & st' & c' & Hres & Hcase). rewrite Hres in Hstep.
  destruct (Nat.eqb bl (mgr_barrier (session_manager n)) && exn_sum_eqb r r') eqn:Hc;
    [|discriminate].
  apply andb_prop in Hc. destruct Hc as [_ Hc]. apply exn_sum_eqb_eq in Hc. subst r'.
  injection Hstep as <-.
  split; [|split].
  - unfold barrier_ok.
    cbn [with_status with_barrier sys_shared the_barrier sys_status
           b_parties b_state b_count].
    split; [assumption|].
    destruct Hcase as [(H1 & _ & -> & ->)|(_ & _ & ->)].
    + specialize (Hcount (or_intror H1)).
      split; [destruct (b_count b - 1 =? 0); auto|]. intros _. lia.
    + split; [auto|]. intros [H|H]; discriminate H.
  - intros j st Hj. cbn [with_status with_barrier sys_status] in Hj.
    destruct (Nat.eq_dec j p) as [->|Hne].
    + rewrite (nth_error_set_nth_eq _ _ _ _ Hp) in Hj. injection Hj as <-. exact I.
    + rewrite nth_error_set_nth_neq in Hj by assumption.
      apply worker_inv_other with (s := s);
        [auto | apply other_worker_silent; assumption |].
      intros Hpj. destruct st; try discriminate Hpj.
      pose proof Hj as Hj'.
      rewrite <- (nth_error_set_nth_neq (sys_status s) p j Running Hne) in Hj'.
      pose proof (parked_at_least _ _ _ Hj') as H1.
      cbn [with_status with_barrier sys_shared the_barrier b_state]. fold b.
      destruct Hcase as [(Hs1 & _ & -> & ->)|(_ & _ & ->)].
      * specialize (Hcount (or_intror Hs1)).
        destruct (Z.eqb_spec (b_count b - 1) 0) as [H0|H0]; [lia|].
        split; [intros H; discriminate H|]. intros _. left. assumption.
      * split; intros H; discriminate H.
  - intros j. destruct (Nat.eq_dec j p) as [->|Hne].
    + destruct Hcase as [(Hs1 & -> & _)|(_ & -> & _)].
      * eapply return_inv_return; eauto.
      * apply return_inv_not_return. discriminate.
    + apply return_inv_mono; [apply Hr|]. apply other_worker_silent; assumption.
Qed.

Lemma session_inv_step n t s l s' :
  well_formed n (t ++ [l]) -> reach n t s -> session_inv n t s ->
  sys_step (session_manager n) s l = Some s' ->
  session_inv n (t ++ [l]) s'.
Proof.
  intros Hwf Hreach Hinv Hstep.
  assert (Hlen : (length (sys_status s) <= n)%nat).
  { eapply workers_bounded; [|eassumption]. eapply well_formed_prefix; eassumption. }
  destruct l as [p w|a]; cbn [sys_step] in Hstep.
  - destruct (nth_error (sys_status s) p) as [st|] eqn:Hp; [|discriminate].
    assert (Hpn : (p < n)%nat).
    { assert (p < length (sys_status s))%nat by (apply nth_error_Some; congruence). lia. }
    destruct st as [| |i|i|].
    + (* Running *)
      destruct w as [e|i|].
      * destruct e as [c r|ev v|bl tmo|bl r|q|msg];
          cbn [worker_step] in Hstep; try discriminate Hstep.
        -- injection Hstep as <-. rewrite <- (with_status_same _ _ _ Hp).
           apply inv_worker_frame with (st := Running); auto; try discriminate.
           ++ exact I.
           ++ apply return_inv_not_return. discriminate.
        -- match_inv Hstep. injection Hstep as <-.
           rewrite <- (with_status_same _ _ _ Hp).
           apply inv_worker_frame with (st := Running); auto; try discriminate.
           ++ exact I.
           ++ apply return_inv_not_return. discriminate.
        -- match_inv Hstep. injection Hstep as <-.
           apply inv_worker_frame with (st := Running); auto; try discriminate.
           ++ cbn [worker_inv]. rewrite worker_events_app, own_event.
              destruct Hwf as (_ & _ & Hpaths). destruct (Hpaths p Hpn) as [q Hq].
              rewrite worker_events_app, own_event in Hq.
              eapply wait_call_after_ready; eassumption.
           ++ apply return_inv_not_return. discriminate.
        -- injection Hstep as <-. rewrite <- (with_status_same _ _ _ Hp).
           apply inv_worker_frame with (st := Running); auto; try discriminate.
           ++ exact I.
           ++ apply return_inv_not_return. discriminate.
        -- injection Hstep as <-. rewrite <- (with_status_same _ _ _ Hp).
           apply inv_worker_frame with (st := Running); auto; try discriminate.
           ++ exact I.
           ++ apply return_inv_not_return. discriminate.
      * discriminate Hstep.
      * cbn [worker_step] in Hstep. injection Hstep as <-.
        apply inv_worker_frame with (st := Running); auto; try discriminate.
        -- exact I.
        -- apply return_inv_mono; [apply Hinv|reflexivity].
    + (* Called *)
      destruct w as [e|i|].
      * destruct e as [c r|ev v|bl tmo|bl r|q|msg];
          cbn [worker_step] in Hstep; try discriminate Hstep.
        destruct (Barrier_wait_enter (the_barrier (sys_shared s)))
          as [[[| |] b']|] eqn:He; try discriminate Hstep.
        apply enter_broken_same in He. subst b'.
        destruct (_ && _) eqn:Hc; [|discriminate].
        apply andb_prop in Hc. destruct Hc as [_ Hc]. apply exn_sum_eqb_eq in Hc.
        subst r. injection Hstep as <-. rewrite with_barrier_same.
        apply inv_worker_frame with (st := Called); auto; try discriminate.
        -- exact I.
        -- apply return_inv_not_return. discriminate.
      * eapply inv_arrive; eassumption.
      * discriminate Hstep.
    + (* Parked *)
      destruct w as [e|k|]; try discriminate Hstep.
      destruct e as [c r|ev v|bl tmo|bl r|q|msg]; try discriminate Hstep.
      eapply inv_parked_return; eassumption.
    + (* Released *)
      destruct w as [e|k|]; try discriminate Hstep.
      destruct e as [c r|ev v|bl tmo|bl r|q|msg]; try discriminate Hstep.
      cbn [worker_step] in Hstep.
      destruct (_ && _) eqn:Hc; [|discriminate].
      apply andb_prop in Hc. destruct Hc as [_ Hc]. apply exn_sum_eqb_eq in Hc.
      subst r. injection Hstep as <-.
      destruct Hinv as (Hb & Hw & Hr). pose proof (Hw _ _ Hp) as (g & Hpend & Hall).
      apply inv_worker_frame with (st := Released i); auto; try discriminate.
      * split; [|split]; assumption.
      * exact I.
      * eapply return_inv_return; eassumption.
    + (* Exited *)
      destruct w as [[]|k|]; discriminate Hstep.
  - unfold manager_step in Hstep. destruct a as [p|ev|bl|p].
    + match_inv Hstep. injection Hstep as <-.
      apply inv_manager_quiet with (s := s); auto.
    + match_inv Hstep. injection Hstep as <-.
      apply inv_manager_quiet with (s := s); auto.
    + match_inv Hstep. injection Hstep as <-. apply inv_abort. assumption.
    + match_inv Hstep. injection Hstep as <-.
      apply inv_manager_quiet with (s := s); auto.
Qed.

(** The invariant holds along every well-formed trace. *)
Lemma session_inv_reach n t s :
  well_formed n t -> reach n t s -> session_inv n t s.
Proof.
  revert s. induction t as [|l t IH] using rev_ind; intros s Hwf Hs.
  - unfold reach in Hs. cbn [replay] in Hs. injection Hs as <-. apply session_inv_start.
  - apply reach_snoc in Hs. destruct Hs as (s1 & Hs1 & Hstep).
    eapply session_inv_step; eauto.
    apply IH; [eapply well_formed_prefix|]; eassumption.
Qed.


(** * C5: no trigger is fired before the rendezvous is complete *)

(** C5.  In every execution with [n] workers on one barrier of [n]
    parties, when a worker issues its fire command
    ([writeRegister(SOFTWARE_TRIGGER, FIRE_VALUE)]) there is a generation
    [g] of the barrier in which every one of the [n] workers has arrived
    before that command, each right after a read of the trigger register
    that showed bit 31 clear and its call of [wait]; and the firing worker
    arrived in that generation [g] and has since done nothing but return
    from that [wait] with an index. *)
Theorem no_fire_before_full_rendezvous n t1 p r t2 :
  execution n
    (t1 ++ ByWorker p (WEv (EvCall (writeRegister SOFTWARE_TRIGGER FIRE_VALUE) r)) :: t2) ->
  exists g, all_arrived n g t1 /\ released_in n p g t1.
Proof.
  intros Hex. apply execution_well_formed in Hex.
  replace (t1 ++ ByWorker p (WEv (EvCall (writeRegister SOFTWARE_TRIGGER FIRE_VALUE) r)) :: t2)
    with ((t1 ++ [ByWorker p (WEv (EvCall (writeRegister SOFTWARE_TRIGGER FIRE_VALUE) r))]) ++ t2)
    in Hex by (rewrite <- app_assoc; reflexivity).
  apply well_formed_prefix in Hex.
  pose proof Hex as ([s' Hs'] & _ & Hpaths).
  apply reach_snoc in Hs'. destruct Hs' as (s & Hs & Hstep).
  assert (Hpn : (p < n)%nat).
  { cbn [sys_step] in Hstep.
    destruct (nth_error (sys_status s) p) eqn:Hp; [|discriminate].
    assert (p < length (sys_status s))%nat by (apply nth_error_Some; congruence).
    pose proof (workers_bounded n t1 s (well_formed_prefix _ _ _ Hex) Hs). lia. }
  destruct (Hpaths p Hpn) as [q Hq].
  rewrite worker_events_app, own_event in Hq.
  apply fire_after_release in Hq. destruct Hq as (we & bl & i & Hwe).
  pose proof (session_inv_reach n t1 s (well_formed_prefix _ _ _ Hex) Hs) as (_ & _ & Hr).
  destruct (Hr p _ _ _ Hwe) as (g & Hrel & Hall). eauto.
Qed.

Ltac session_worker j Hj :=
  let p := fresh "p" in
  let Hp := fresh "Hp" in
  intros p Hp; apply session_process in Hp; destruct Hp as (j & Hj & ->).

Lemma two_fire_execution : execution 2 two_fire_trace.
Proof.
  split; [|split].
  - eexists. unfold reach. vm_compute. reflexivity.
  - eexists. vm_compute. reflexivity.
  - session_worker j Hj.
    assert (j = 0 \/ j = 1)%nat as [-> | ->] by lia.
    + split.
      * exists (env_of []), 2%nat. eexists. vm_compute. reflexivity.
      * intros H. vm_compute in H.
        repeat (destruct H as [H|H]; [discriminate H|]). destruct H.
    + split.
      * exists (env_of [quiet; quiet; quiet; quiet; quiet; quiet; quiet; quiet;
                        quiet; quiet;
                        mkResponse false 0 false (mkTriggerMode false 0 0 0 0)
                          0 0 false (inr 1%nat)]), 2%nat.
        eexists. vm_compute. reflexivity.
      * intros H. vm_compute in H.
        repeat (destruct H as [H|H]; [discriminate H|]). destruct H.
Qed.

Lemma no_fire_before_full_rendezvous_witness :
  execution 2 two_fire_trace
  /\ exists g, all_arrived 2 g two_fire_before
               /\ released_in 2 1 g two_fire_before.
Proof.
  split; [exact two_fire_execution|].
  apply (no_fire_before_full_rendezvous 2 two_fire_before 1 (inr VNone)
           two_fire_after).
  exact two_fire_execution.
Defined.

(** * After the abort *)

Ltac broken_same p Hp Hb :=
  split; [exact Hb|];
  split; [intros ? ?; discriminate|];
  split; [intros ? ? ? H; discriminate H|];
  let j := fresh "j" in
  let Hj := fresh "Hj" in
  let Hne := fresh "Hne" in
  intros j ? Hj; split; [exact Hj|];
  destruct (Nat.eq_dec j p) as [->|Hne];
  [rewrite Hp in Hj; discriminate Hj | apply other_worker_silent; assumption].

Ltac broken_quiet Hother Hb :=
  split; [exact Hb|];
  split; [intros ? ?; discriminate|];
  split; [intros ? ? ? H; discriminate H|];
  intros ? ? Hj; eapply Hother; [exact Hj | intros ?; discriminate].

(** A step from a broken barrier: the barrier stays broken, nobody is
    counted in, a wait returns an index only to a worker that had been
    released before, and no worker becomes released. *)
Lemma broken_step m s l s' :
  sys_step m s l = Some s' ->
  b_state (the_barrier (sys_shared s)) = -2 ->
  b_state (the_barrier (sys_shared s')) = -2
  /\ (forall j i, l <> ByWorker j (WArrive i))
  /\ (forall j bl r, l = ByWorker j (WEv (EvWaitRet bl r)) ->
        r = inl BrokenBarrierError
        \/ exists i, r = inr i /\ nth_error (sys_status s) j = Some (Released i))
  /\ (forall j i, nth_error (sys_status s') j = Some (Released i) ->
        nth_error (sys_status s) j = Some (Released i)
        /\ worker_events j [l] = []).
Proof.
  intros Hstep Hb. destruct l as [p w|a]; cbn [sys_step] in Hstep.
  - destruct (nth_error (sys_status s) p) as [st|] eqn:Hp; [|discriminate].
    assert (Hother : forall st' j i,
               nth_error (set_nth p st' (sys_status s)) j = Some (Released i) ->
               (forall k, st' <> Released k) ->
               nth_error (sys_status s) j = Some (Released i)
               /\ worker_events j [ByWorker p w] = []).
    { intros st' j i Hj Hst'. destruct (Nat.eq_dec j p) as [->|Hne].
      - rewrite (nth_error_set_nth_eq _ _ _ _ Hp) in Hj. injection Hj as ->.
        exfalso. eapply Hst'; reflexivity.
      - rewrite nth_error_set_nth_neq in Hj by assumption.
        split; [assumption|]. apply other_worker_silent; assumption. }
    destruct st as [| |i|i|]; destruct w as [e|k|]; try discriminate Hstep;
      try (destruct e as [c r|ev v|bl tmo|bl r|q|msg]; try discriminate Hstep);
      cbn [worker_step] in Hstep.
    + injection Hstep as <-. broken_same p Hp Hb.
    + match_inv Hstep. injection Hstep as <-. broken_same p Hp Hb.
    + match_inv Hstep. injection Hstep as <-.
      broken_quiet Hother Hb.
    + injection Hstep as <-. broken_same p Hp Hb.
    + injection Hstep as <-. broken_same p Hp Hb.
    + injection Hstep as <-.
      broken_quiet Hother Hb.
    + rewrite (enter_broken _ Hb) in Hstep.
      destruct (_ && _) eqn:Hc; [|discriminate].
      apply andb_prop in Hc. destruct Hc as [_ Hc]. apply exn_sum_eqb_eq in Hc.
      subst r. injection Hstep as <-. rewrite with_barrier_same.
      split; [assumption|]. split; [intros ? ?; discriminate|].
      split; [intros ? ? ? H; injection H as _ _ <-; left; reflexivity|].
      intros j i Hj. eapply Hother; [exact Hj|intros ?; discriminate].
    + rewrite (enter_broken _ Hb) in Hstep. discriminate.
    + rewrite (resume_broken _ _ Hb) in Hstep.
      destruct (_ && _) eqn:Hc; [|discriminate].
      apply andb_prop in Hc. destruct Hc as [_ Hc]. apply exn_sum_eqb_eq in Hc.
      subst r. injection Hstep as <-.
      split; [reflexivity|]. split; [intros ? ?; discriminate|].
      split; [intros ? ? ? H; injection H as _ _ <-; left; reflexivity|].
      intros j k Hj. eapply Hother; [exact Hj|intros ?; discriminate].
    + destruct (_ && _) eqn:Hc; [|discriminate].
      apply andb_prop in Hc. destruct Hc as [_ Hc]. apply exn_sum_eqb_eq in Hc.
      subst r. injection Hstep as <-.
      split; [assumption|]. split; [intros ? ?; discriminate|]. split.
      * intros j bl' r' H. injection H as <- _ <-. right. eauto.
      * intros j k Hj. eapply Hother; [exact Hj|intros ?; discriminate].
  - unfold manager_step in Hstep.
    destruct a as [p|ev|bl|p]; match_inv Hstep; injection Hstep as <-;
      (split; [try assumption; reflexivity|]); (split; [intros ? ?; discriminate|]);
      (split; [intros ? ? ? H; discriminate H|]); intros j i Hj; (split; [|reflexivity]);
      cbn [with_barrier sys_status] in Hj; try assumption.
    destruct (Nat.eq_dec j (length (sys_status s))) as [->|Hne].
    + rewrite nth_error_app2 in Hj by lia. rewrite Nat.sub_diag in Hj. discriminate.
    + rewrite nth_error_snoc_other in Hj by assumption. assumption.
Qed.

Lemma post_abort m s1 u s :
  replay m s1 u = Some s ->
  b_state (the_barrier (sys_shared s1)) = -2 ->
  b_state (the_barrier (sys_shared s)) = -2
  /\ (forall j i, ~ In (ByWorker j (WArrive i)) u)
  /\ (forall u1 j bl r u2,
        u = u1 ++ ByWorker j (WEv (EvWaitRet bl r)) :: u2 ->
        r = inl BrokenBarrierError
        \/ exists i, r = inr i
                     /\ nth_error (sys_status s1) j = Some (Released i)
                     /\ worker_events j u1 = [])
  /\ (forall j i, nth_error (sys_status s) j = Some (Released i) ->
        nth_error (sys_status s1) j = Some (Released i)
        /\ worker_events j u = []).
Proof.
  revert s. induction u as [|l u IH] using rev_ind; intros s Hs Hb.
  - cbn [replay] in Hs. injection Hs as <-.
    split; [assumption|]. split; [intros j i []|]. split.
    + intros u1 j bl r u2 H. destruct u1; discriminate H.
    + auto.
  - rewrite replay_app in Hs.
    destruct (replay m s1 u) as [s0|] eqn:Hs0; [|discriminate].
    cbn [replay] in Hs. destruct (sys_step m s0 l) as [s'|] eqn:Hstep; [|discriminate].
    injection Hs as <-.
    destruct (IH _ eq_refl Hb) as (Hb0 & Harr & Hret & Hrel).
    destruct (broken_step _ _ _ _ Hstep Hb0) as (Hb' & Hnarr & Hwr & Hrel').
    split; [assumption|]. split; [|split].
    + intros j i Hin. apply in_app_or in Hin. destruct Hin as [Hin|[Hin|[]]].
      * eapply Harr; eassumption.
      * eapply Hnarr; eauto.
    + intros u1 j bl r u2 Hu.
      destruct u2 as [|l2 u2] using rev_ind.
      * apply app_inj_tail in Hu. destruct Hu as [-> ->].
        destruct (Hwr _ _ _ eq_refl) as [H|(i & -> & Hi)]; [auto|].
        right. exists i. split; [reflexivity|]. apply Hrel. assumption.
      * clear IHu2. rewrite app_comm_cons, app_assoc in Hu.
        apply app_inj_tail in Hu. destruct Hu as [-> _].
        eapply Hret. reflexivity.
    + intros j i Hj. destruct (Hrel' _ _ Hj) as [Hj0 Hl].
      destruct (Hrel _ _ Hj0) as [Hj1 Hu]. split; [assumption|].
      rewrite worker_events_app, Hu, Hl. reflexivity.
Qed.

Lemma broken_wait_enabled m s j st :
  b_state (the_barrier (sys_shared s)) = -2 ->
  nth_error (sys_status s) j = Some st ->
  st = Called \/ (exists i, st = Parked i) ->
  sys_step m s (ByWorker j (WEv (EvWaitRet (mgr_barrier m) (inl BrokenBarrierError))))
  <> None.
Proof.
  intros Hb Hj Hst. cbn [sys_step]. rewrite Hj.
  destruct Hst as [->|[i ->]]; cbn [worker_step].
  - rewrite (enter_broken _ Hb), Nat.eqb_refl. cbn. discriminate.
  - rewrite (resume_broken _ _ Hb), Nat.eqb_refl. cbn. discriminate.
Qed.

Lemma actor_bounded n ta j w tb : well_formed n (ta ++ ByWorker j w :: tb) -> (j < n)%nat.
Proof.
  intros Hwf.
  replace (ta ++ ByWorker j w :: tb) with ((ta ++ [ByWorker j w]) ++ tb) in Hwf
    by (rewrite <- app_assoc; reflexivity).
  apply well_formed_prefix in Hwf. pose proof Hwf as ([s' Hs'] & _).
  apply reach_snoc in Hs'. destruct Hs' as (s & Hs & Hstep).
  cbn [sys_step] in Hstep.
  destruct (nth_error (sys_status s) j) eqn:Hp; [|discriminate].
  assert (j < length (sys_status s))%nat by (apply nth_error_Some; congruence).
  pose proof (workers_bounded n ta s (well_formed_prefix _ _ _ Hwf) Hs). lia.
Qed.

(** In a session, a worker whose [wait] raises anything but
    [TimeoutError] goes on with the finally block and nothing else. *)
Lemma raise_leads_to_finally n ta j bl e tb :
  execution n (ta ++ ByWorker j (WEv (EvWaitRet bl (inl e))) :: tb) ->
  e <> TimeoutError ->
  (exists rest, finally_log (worker_events j tb ++ rest))
  /\ (has_exited j (ta ++ ByWorker j (WEv (EvWaitRet bl (inl e))) :: tb) ->
      finally_log (worker_events j tb)).
Proof.
  intros Hex He.
  pose proof (actor_bounded _ _ _ _ _ (execution_well_formed _ _ Hex)) as Hj.
  destruct Hex as (_ & _ & Hw).
  destruct (Hw (process_of j)) as [(E & fuel & [rest Hpre]) Hexit].
  { apply session_process. eauto. }
  cbn [process_of pid target] in *.
  assert (Hsrc : forall q q',
             path PStart (worker_events j ta) = Some q ->
             wnext q (EvWaitRet bl (inl e)) = Some q' ->
             q = PWaitRet /\ q' = PFinally true).
  { intros q q' _ Hx. apply wait_raise_source in Hx. destruct Hx as [-> ->].
    destruct e; [auto|congruence|auto]. }
  rewrite worker_events_app in Hpre. cbn [worker_events] in Hpre.
  rewrite Nat.eqb_refl in Hpre. rewrite <- app_assoc in Hpre. cbn [app] in Hpre.
  split.
  - exists rest.
    eapply (run_tail_finally _ _ _ _ _ _ _ PWaitRet true Hpre Hsrc).
  - intros Hx. destruct (Hexit Hx) as (E' & fuel' & Hlog & _).
    rewrite worker_events_app in Hlog. cbn [worker_events] in Hlog.
    rewrite Nat.eqb_refl in Hlog. symmetry in Hlog.
    eapply (run_tail_finally _ _ _ _ _ _ _ PWaitRet true Hlog Hsrc).
Qed.

(** C3, as the code behaves.  After the manager's [stop] has called
    [barrier.abort()]: no worker is counted in or parked by the barrier
    again; every [wait]
    that returns afterwards raises [BrokenBarrierError], except in a
    worker that had already been released as the last party before the
    abort; for a worker that is in [wait] (called or parked) the raise is
    enabled at once, in every state after the abort; and a worker whose
    [wait] has raised does nothing more than the finally block of [run]
    ([stopCapture], then [disconnect] when [stopCapture] returned). *)
Theorem abort_releases_every_waiter n t1 bl t2 :
  execution n (t1 ++ ByManager (MAbort bl) :: t2) ->
  (forall j i, ~ In (ByWorker j (WArrive i)) t2)
  /\ (forall u j bl' r u',
        t2 = u ++ ByWorker j (WEv (EvWaitRet bl' r)) :: u' ->
        (r = inl BrokenBarrierError
         /\ (exists rest, finally_log (worker_events j u' ++ rest))
         /\ (has_exited j (t1 ++ ByManager (MAbort bl) :: t2) ->
             finally_log (worker_events j u')))
        \/ (exists i s1, r = inr i /\ reach n t1 s1
                         /\ nth_error (sys_status s1) j = Some (Released i)
                         /\ worker_events j u = []))
  /\ (forall u u' s j st,
        t2 = u ++ u' ->
        reach n (t1 ++ ByManager (MAbort bl) :: u) s ->
        nth_error (sys_status s) j = Some st ->
        st = Called \/ (exists i, st = Parked i) ->
        sys_step (session_manager n) s
          (ByWorker j (WEv (EvWaitRet (mgr_barrier (session_manager n))
                                      (inl BrokenBarrierError))))
        <> None).
Proof.
  intros Hex. pose proof Hex as ([s Hs] & _).
  apply reach_app in Hs. destruct Hs as (s1 & Hs1 & Hs2).
  cbn [replay sys_step] in Hs2.
  destruct (manager_step (session_manager n) s1 (MAbort bl)) as [sa|] eqn:Ha;
    [|discriminate].
  assert (Hsa : b_state (the_barrier (sys_shared sa)) = -2
                /\ sys_status sa = sys_status s1).
  { unfold manager_step in Ha. match_inv Ha. injection Ha as <-. split; reflexivity. }
  destruct Hsa as [Hba Hsta].
  destruct (post_abort _ _ _ _ Hs2 Hba) as (_ & Harr & Hret & _).
  split; [assumption|]. split.
  - intros u j bl' r u' Hu.
    destruct (Hret _ _ _ _ _ Hu) as [->|(i & -> & Hi & Hev)].
    + left. split; [reflexivity|]. subst t2.
      replace (t1 ++ ByManager (MAbort bl)
                 :: u ++ ByWorker j (WEv (EvWaitRet bl' (inl BrokenBarrierError))) :: u')
        with ((t1 ++ ByManager (MAbort bl) :: u)
                ++ ByWorker j (WEv (EvWaitRet bl' (inl BrokenBarrierError))) :: u')
        in * by (rewrite <- app_assoc; reflexivity).
      apply (raise_leads_to_finally n); [assumption|discriminate].
    + right. exists i, s1. rewrite Hsta in Hi. auto.
  - intros u u' s' j st Hu Hs' Hj Hst.
    apply broken_wait_enabled with (st := st); auto.
    apply reach_app in Hs'. destruct Hs' as (s1' & Hs1' & Hs2').
    unfold reach in Hs1, Hs1'. rewrite Hs1 in Hs1'. injection Hs1' as <-.
    cbn [replay sys_step] in Hs2'. rewrite Ha in Hs2'.
    destruct (post_abort _ _ _ _ Hs2' Hba) as (Hb' & _). assumption.
Qed.

Lemma abort_execution : execution 2 abort_trace.
Proof.
  split; [|split].
  - eexists. unfold reach. vm_compute. reflexivity.
  - eexists. vm_compute. reflexivity.
  - session_worker j Hj.
    assert (j = 0 \/ j = 1)%nat as [-> | ->] by lia.
    + split.
      * exists timeout_env0, 2%nat. eexists. vm_compute. reflexivity.
      * intros _. exists timeout_env0, 2%nat. split; [vm_compute; reflexivity|].
        vm_compute. discriminate.
    + split.
      * exists timeout_env0, 2%nat. eexists. vm_compute. reflexivity.
      * intros _. exists timeout_env0, 2%nat. split; [vm_compute; reflexivity|].
        vm_compute. discriminate.
Qed.

Lemma abort_releases_every_waiter_witness :
  execution 2 abort_trace
  /\ (forall j i, ~ In (ByWorker j (WArrive i)) abort_after).
Proof.
  split; [exact abort_execution|].
  exact (proj1 (abort_releases_every_waiter 2 abort_before 0 abort_after
                  abort_execution)).
Defined.

Lemma abort_fail_execution : execution 2 abort_fail_trace.
Proof.
  split; [|split].
  - eexists. unfold reach. vm_compute. reflexivity.
  - eexists. vm_compute. reflexivity.
  - session_worker j Hj.
    assert (j = 0 \/ j = 1)%nat as [-> | ->] by lia.
    + split.
      * exists broken_then_stop_capture_fails_env, 2%nat. eexists.
        vm_compute. reflexivity.
      * intros _. exists broken_then_stop_capture_fails_env, 2%nat.
        split; [vm_compute; reflexivity|]. vm_compute. discriminate.
    + split.
      * exists timeout_env0, 2%nat. eexists. vm_compute. reflexivity.
      * intros _. exists timeout_env0, 2%nat. split; [vm_compute; reflexivity|].
        vm_compute. discriminate.
Qed.

(** C3, on the code.  Two cameras.  Worker 0 is parked in [wait] when the
    manager's [stop] aborts the barrier.  Its [wait] raises
    [BrokenBarrierError] and it enters the finally block of [run], but
    [stopCapture] raises there: the worker terminates without having
    called [disconnect], and [stop] joins it and returns. *)
Lemma abort_shutdown_skips_disconnect :
  execution 2 (abort_before ++ ByManager (MAbort 0) :: abort_fail_after)
  /\ (exists s, reach 2 abort_before s
                /\ nth_error (sys_status s) 0 = Some (Parked 0))
  /\ worker_events 0 abort_fail_after
     = [EvWaitRet 0 (inl BrokenBarrierError); EvCall stopCapture (inl Fc2error)]
  /\ has_exited 0 abort_fail_after
  /\ calls_of disconnect
       (worker_events 0 (abort_before ++ ByManager (MAbort 0) :: abort_fail_after))
     = 0%nat
  /\ manager_actions (abort_before ++ ByManager (MAbort 0) :: abort_fail_after)
     = main_actions 2.
Proof.
  split; [exact abort_fail_execution|].
  split; [eexists; split; [unfold reach; vm_compute; reflexivity|reflexivity]|].
  split; [reflexivity|]. split; [|split; reflexivity].
  unfold has_exited. vm_compute. auto.
Qed.

(** * Joining the workers *)

Lemma exited_step m s l s' j :
  sys_step m s l = Some s' ->
  nth_error (sys_status s') j = Some Exited ->
  l = ByWorker j WExit \/ nth_error (sys_status s) j = Some Exited.
Proof.
  intros Hstep Hj. destruct l as [p w|a]; cbn [sys_step] in Hstep.
  - destruct (nth_error (sys_status s) p) as [st|] eqn:Hp; [|discriminate].
    destruct (Nat.eq_dec j p) as [->|Hne].
    + step_inv Hstep; injection Hstep as <-;
        cbn [with_status with_barrier sys_status] in Hj;
        try (rewrite (nth_error_set_nth_eq _ _ _ _ Hp) in Hj; discriminate Hj);
        try (rewrite Hp in Hj; discriminate Hj).
      left. reflexivity.
    + right. step_inv Hstep; injection Hstep as <-;
        cbn [with_status with_barrier sys_status] in Hj;
        rewrite ?nth_error_set_nth_neq in Hj by assumption; assumption.
  - right. unfold manager_step in Hstep.
    destruct a as [p|ev|bl|p]; match_inv Hstep; injection Hstep as <-;
      cbn [with_barrier sys_status] in Hj; try assumption.
    destruct (Nat.eq_dec j (length (sys_status s))) as [->|Hne].
    + rewrite nth_error_app2 in Hj by lia. rewrite Nat.sub_diag in Hj. discriminate.
    + rewrite nth_error_snoc_other in Hj by assumption. assumption.
Qed.

Lemma exited_reach n t s j :
  reach n t s -> nth_error (sys_status s) j = Some Exited -> has_exited j t.
Proof.
  revert s. induction t as [|l t IH] using rev_ind; intros s Hs Hj.
  - unfold reach in Hs. cbn in Hs. injection Hs as <-. destruct j; discriminate Hj.
  - apply reach_snoc in Hs. destruct Hs as (s1 & Hs1 & Hstep).
    unfold has_exited. apply in_or_app.
    destruct (exited_step _ _ _ _ _ Hstep Hj) as [->|H1].
    + right. left. reflexivity.
    + left. eapply IH; eassumption.
Qed.

(** [p.join()] returns only after process [p] has terminated. *)
Lemma join_after_exit n u p u' s :
  reach n (u ++ ByManager (MJoin p) :: u') s -> has_exited (pid p) u.
Proof.
  intros Hs. apply reach_app in Hs. destruct Hs as (s1 & Hs1 & Hs2).
  cbn [replay sys_step manager_step] in Hs2.
  destruct (nth_error (sys_status s1) (pid p)) as [[]|] eqn:Hp; try discriminate.
  eapply exited_reach; eassumption.
Qed.

Lemma manager_action_in t a : In a (manager_actions t) -> In (ByManager a) t.
Proof.
  induction t as [|l t IH]; cbn [manager_actions]; [auto|].
  destruct l as [p w|b]; [right; auto|].
  intros [->|H]; [left; reflexivity|right; auto].
Qed.

(** C4, as the code behaves.  [p.join()] returns only after process [p]
    has terminated, so when [stop] has returned every worker has terminated.
    A worker that has entered its capture loop and has terminated has
    called [stopCapture] exactly once and [disconnect] at most once:
    exactly once when [stopCapture] returned.  The same holds of every
    run of [run] that enters the loop and ends. *)
Theorem stop_waits_for_every_worker n t :
  execution n t ->
  (forall u p u', t = u ++ ByManager (MJoin p) :: u' -> has_exited (pid p) u)
  /\ (manager_actions t = main_actions n ->
      forall j, (j < n)%nat -> has_exited j t)
  /\ (forall j i,
        (j < n)%nat -> has_exited j t ->
        In (EvPrint (StandingBy i)) (worker_events j t) ->
        calls_of stopCapture (worker_events j t) = 1%nat
        /\ (calls_of disconnect (worker_events j t) <= 1)%nat
        /\ ((exists v, In (EvCall stopCapture (inr v)) (worker_events j t))
            <-> calls_of disconnect (worker_events j t) = 1%nat))
  /\ (forall self fuel E c i,
        out (CameraWorker_run self fuel E c) <> OutOfFuel ->
        In (EvPrint (StandingBy i)) (log (CameraWorker_run self fuel E c)) ->
        calls_of stopCapture (log (CameraWorker_run self fuel E c)) = 1%nat
        /\ (calls_of disconnect (log (CameraWorker_run self fuel E c)) <= 1)%nat
        /\ ((exists v, In (EvCall stopCapture (inr v))
                          (log (CameraWorker_run self fuel E c)))
            <-> calls_of disconnect (log (CameraWorker_run self fuel E c)) = 1%nat)).
Proof.
  intros Hex. pose proof Hex as ([s Hs] & _ & Hw).
  assert (Hjoin : forall u p u',
             t = u ++ ByManager (MJoin p) :: u' -> has_exited (pid p) u).
  { intros u p u' ->. eapply join_after_exit; eassumption. }
  split; [assumption|]. split; [|split].
  - intros Hm j Hj.
    assert (Hin : In (ByManager (MJoin (process_of j))) t).
    { apply manager_action_in. rewrite Hm, main_actions_eq.
      apply in_or_app. right. apply in_or_app. right.
      apply in_map, in_map, in_seq. lia. }
    apply in_split in Hin. destruct Hin as (u & u' & Hu).
    pose proof (Hjoin _ _ _ Hu) as Hx. cbn [process_of pid] in Hx.
    subst t. unfold has_exited in *. apply in_or_app. left. assumption.
  - intros j i Hj Hx Hin.
    destruct (Hw (process_of j)) as [_ Hexit].
    { apply session_process. eauto. }
    destruct (Hexit Hx) as (E & fuel & Hlog & Hout).
    cbn [process_of pid target] in *. rewrite Hlog in *.
    eapply run_releases_camera; eassumption.
  - intros self fuel E c i. apply run_releases_camera.
Qed.

(** C4, on the code.  A worker that reads the stop event set at its
    first loop test and on which [stopCapture] raises: it has entered the
    loop, it ends, and it never calls [disconnect]. *)
Lemma disconnect_skipped_when_stop_capture_raises :
  CameraWorker_run worker0 1 stop_capture_fails_env 0%nat
  = mkRes (Raise Fc2error) 10
      (setup_log 0 ++ [EvIsSet 1 true; EvCall stopCapture (inl Fc2error)])
  /\ In (EvPrint (StandingBy 0))
        (log (CameraWorker_run worker0 1 stop_capture_fails_env 0%nat))
  /\ calls_of disconnect
       (log (CameraWorker_run worker0 1 stop_capture_fails_env 0%nat)) = 0%nat.
Proof.
  split; [reflexivity|]. split; [|reflexivity].
  vm_compute. intuition.
Qed.

Lemma stop_waits_for_every_worker_witness :
  execution 2 abort_trace
  /\ (forall j, (j < 2)%nat -> has_exited j abort_trace).
Proof.
  split; [exact abort_execution|].
  apply (proj1 (proj2 (stop_waits_for_every_worker 2 abort_trace abort_execution))).
  reflexivity.
Defined.

(** * The rendezvous time-out *)

Lemma wait_ret_step m s j bl r s' :
  sys_step m s (ByWorker j (WEv (EvWaitRet bl r))) = Some s' ->
  r = inl BrokenBarrierError \/ exists i, r = inr i.
Proof.
  cbn [sys_step]. destruct (nth_error (sys_status s) j) as [st|]; [|discriminate].
  intros H. destruct st as [| |i|i|]; cbn [worker_step] in H; try discriminate H.
  - match_inv H.
    match goal with
    | Hc : (_ && exn_sum_eqb r _) = true |- _ =>
        apply andb_prop in Hc; destruct Hc as [_ Hc]; apply exn_sum_eqb_eq in Hc
    end. auto.
  - unfold Barrier_wait_resume in H.
    destruct (b_state (the_barrier (sys_shared s)) =? 0);
      [|destruct (b_state (the_barrier (sys_shared s)) <? 0)];
      (destruct (_ && _) eqn:Hc; [|discriminate]);
      apply andb_prop in Hc; destruct Hc as [_ Hc]; apply exn_sum_eqb_eq in Hc;
      eauto.
  - destruct (_ && _) eqn:Hc; [|discriminate].
    apply andb_prop in Hc. destruct Hc as [_ Hc]. apply exn_sum_eqb_eq in Hc. eauto.
Qed.

(** [barrier.wait] never raises [multiprocessing.TimeoutError]: it
    returns an index or raises [BrokenBarrierError]. *)
Lemma wait_never_times_out n t j bl r :
  execution n t -> In (ByWorker j (WEv (EvWaitRet bl r))) t ->
  r = inl BrokenBarrierError \/ exists i, r = inr i.
Proof.
  intros ([s Hs] & _) Hin. apply in_split in Hin. destruct Hin as (u & u' & ->).
  replace (u ++ ByWorker j (WEv (EvWaitRet bl r)) :: u')
    with ((u ++ [ByWorker j (WEv (EvWaitRet bl r))]) ++ u') in Hs
    by (rewrite <- app_assoc; reflexivity).
  apply reach_app in Hs. destruct Hs as (s1 & Hs1 & _).
  apply reach_snoc in Hs1. destruct Hs1 as (s0 & _ & Hstep).
  eapply wait_ret_step; eassumption.
Qed.

Lemma timeout_execution : execution 2 timeout_trace.
Proof.
  split; [|split].
  - eexists. unfold reach. vm_compute. reflexivity.
  - eexists. vm_compute. reflexivity.
  - session_worker j Hj.
    assert (j = 0 \/ j = 1)%nat as [-> | ->] by lia.
    + split.
      * exists timeout_env0, 2%nat. eexists. vm_compute. reflexivity.
      * intros _. exists timeout_env0, 2%nat. split; [vm_compute; reflexivity|].
        vm_compute. discriminate.
    + split.
      * exists always_busy_env, 3%nat. eexists. vm_compute. reflexivity.
      * intros H. vm_compute in H.
        repeat (destruct H as [H|H]; [discriminate H|]). destruct H.
Qed.

(** C2, on the code.  Two cameras; worker 0 is parked in the barrier
    while worker 1 keeps polling a busy register.  The barrier is still
    filling, so the wait of worker 0 can end by time-out only; it then
    raises [BrokenBarrierError], which the clause
    [except multiprocessing.TimeoutError] does not catch: worker 0 stops
    the capture, disconnects and terminates instead of polling again.
    In no execution does [wait] raise [TimeoutError]. *)
Theorem rendezvous_timeout_ends_worker :
  execution 2 timeout_trace
  /\ (exists s, reach 2 timeout_before s
                /\ nth_error (sys_status s) 0 = Some (Parked 0)
                /\ b_state (the_barrier (sys_shared s)) = 0
                /\ Barrier_wait_resume (the_barrier (sys_shared s)) 0
                   = (inl BrokenBarrierError, mkBarrier 2 (-2) 0))
  /\ worker_events 0 timeout_trace
     = setup_log 0
       ++ [EvIsSet 1 false; read_ready; EvWaitCall 0 5;
           EvWaitRet 0 (inl BrokenBarrierError);
           EvCall stopCapture (inr VNone); EvCall disconnect (inr VNone)]
  /\ has_exited 0 timeout_trace
  /\ (forall n t j bl r,
        execution n t -> In (ByWorker j (WEv (EvWaitRet bl r))) t ->
        r <> inl TimeoutError).
Proof.
  split; [exact timeout_execution|]. split; [|split; [|split]].
  - eexists. split; [unfold reach; vm_compute; reflexivity|].
    split; [reflexivity|]. split; reflexivity.
  - reflexivity.
  - unfold has_exited. vm_compute. intuition.
  - intros n t j bl r Hex Hin.
    destruct (wait_never_times_out _ _ _ _ _ Hex Hin) as [->|[i ->]]; discriminate.
Qed.

(** * The logs of the parts of [run] *)

Lemma log_bind_eq {A B} (m : M A) (k : A -> M B) E c :
  log (bind m k E c)
  = log (m E c) ++ match out (m E c) with
                   | Ret a => log (k a E (cur (m E c)))
                   | _ => []
                   end.
Proof.
  unfold bind. destruct (out (m E c)); cbn [log]; rewrite ?app_nil_r; reflexivity.
Qed.

Lemma out_bind_eq {A B} (m : M A) (k : A -> M B) E c :
  out (bind m k E c)
  = match out (m E c) with
    | Ret a => out (k a E (cur (m E c)))
    | Raise e => Raise e
    | OutOfFuel => OutOfFuel
    end.
Proof. unfold bind. destruct (out (m E c)); reflexivity. Qed.

Lemma log_try_finally_eq {A} (body : M A) fin E c :
  log (try_finally body fin E c)
  = log (body E c) ++ match out (body E c) with
                      | OutOfFuel => []
                      | _ => log (fin E (cur (body E c)))
                      end.
Proof.
  unfold try_finally. destruct (out (body E c)) eqn:H; cbn [log];
    rewrite ?app_nil_r; reflexivity.
Qed.

Lemma out_try_finally_eq {A} (body : M A) fin E c :
  out (try_finally body fin E c)
  = match out (body E c) with
    | OutOfFuel => OutOfFuel
    | o => match out (fin E (cur (body E c))) with
           | Ret _ => o
           | Raise e' => Raise e'
           | OutOfFuel => OutOfFuel
           end
    end.
Proof.
  unfold try_finally. destruct (out (body E c)) eqn:H; cbn [out]; auto.
Qed.

(** The log of [run]: what precedes the try statement, the try block and
    the finally block. *)
Lemma run_log_eq self fuel E c :
  log (CameraWorker_run self fuel E c)
  = log (prepare_camera E c)
    ++ match out (prepare_camera E c) with
       | Ret _ =>
           log (capture_session self fuel E (cur (prepare_camera E c)))
           ++ match out (capture_session self fuel E (cur (prepare_camera E c))) with
              | OutOfFuel => []
              | _ => log (release_camera E
                            (cur (capture_session self fuel E
                                    (cur (prepare_camera E c)))))
              end
       | _ => []
       end.
Proof.
  unfold CameraWorker_run. rewrite log_bind_eq.
  destruct (out (prepare_camera E c)); [|reflexivity|reflexivity].
  rewrite log_try_finally_eq. reflexivity.
Qed.

(** What the try block does before the loop, by the answers of the
    environment. *)
Lemma capture_session_eq self fuel E c :
  capture_session self fuel E c =
  if fails (E c)
  then mkRes (Raise Fc2error) (S c)
         [EvCall (getCameraFromIndex (cam_index self)) (inl Fc2error)]
  else if fails (E (S c))
  then mkRes (Raise Fc2error) (S (S c))
         [EvCall (getCameraFromIndex (cam_index self)) (inr (VGuid (guid (E c))));
          EvCall (connect (guid (E c))) (inl Fc2error)]
  else if fails (E (S (S c)))
  then mkRes (Raise Fc2error) (S (S (S c)))
         [EvCall (getCameraFromIndex (cam_index self)) (inr (VGuid (guid (E c))));
          EvCall (connect (guid (E c))) (inr VNone);
          EvCall getTriggerMode (inl Fc2error)]
  else if fails (E (S (S (S c))))
  then mkRes (Raise Fc2error) (S (S (S (S c))))
         [EvCall (getCameraFromIndex (cam_index self)) (inr (VGuid (guid (E c))));
          EvCall (connect (guid (E c))) (inr VNone);
          EvCall getTriggerMode (inr (VTriggerMode (trigger_mode (E (S (S c))))));
          EvCall (setTriggerMode (software_trigger (trigger_mode (E (S (S c))))))
                 (inl Fc2error)]
  else if fails (E (S (S (S (S c)))))
  then mkRes (Raise Fc2error) (S (S (S (S (S c)))))
         [EvCall (getCameraFromIndex (cam_index self)) (inr (VGuid (guid (E c))));
          EvCall (connect (guid (E c))) (inr VNone);
          EvCall getTriggerMode (inr (VTriggerMode (trigger_mode (E (S (S c))))));
          EvCall (setTriggerMode (software_trigger (trigger_mode (E (S (S c))))))
                 (inr VNone);
          EvCall startCapture (inl Fc2error)]
  else after
         [EvCall (getCameraFromIndex (cam_index self)) (inr (VGuid (guid (E c))));
          EvCall (connect (guid (E c))) (inr VNone);
          EvCall getTriggerMode (inr (VTriggerMode (trigger_mode (E (S (S c))))));
          EvCall (setTriggerMode (software_trigger (trigger_mode (E (S (S c))))))
                 (inr VNone);
          EvCall startCapture (inr VNone);
          EvPrint (StandingBy (cam_index self))]
         (capture_loop self fuel E (S (S (S (S (S c)))))).
Proof.
  unfold capture_session, bind, sdk, print, after, software_trigger.
  destruct (fails (E c)); cbn [out cur log app]; try reflexivity.
  destruct (fails (E (S c))); cbn [out cur log app]; try reflexivity.
  destruct (fails (E (S (S c)))); cbn [out cur log app]; try reflexivity.
  destruct (fails (E (S (S (S c))))); cbn [out cur log app]; try reflexivity.
  destruct (fails (E (S (S (S (S c)))))); cbn [out cur log app]; reflexivity.
Qed.

(** What precedes the try statement, by the answers of the environment. *)
Lemma prepare_camera_eq E c :
  prepare_camera E c =
  if fails (E c)
  then mkRes (Raise Fc2error) (S c) [EvCall BusManager_new (inl Fc2error)]
  else if fails (E (S c))
  then mkRes (Raise Fc2error) (S (S c))
         [EvCall BusManager_new (inr VNone); EvCall Camera_new (inl Fc2error)]
  else after [EvCall BusManager_new (inr VNone); EvCall Camera_new (inr VNone)]
         (enable_embedded_timestamp true E (S (S c))).
Proof.
  unfold prepare_camera, bind, sdk, after.
  destruct (fails (E c)); cbn [out cur log app]; try reflexivity.
  destruct (fails (E (S c))); cbn [out cur log app]; reflexivity.
Qed.

(** [enable_embedded_timestamp], by the answers of the environment. *)
Lemma enable_embedded_timestamp_eq b E c :
  enable_embedded_timestamp b E c =
  if fails (E c)
  then mkRes (Raise Fc2error) (S c) [EvCall getEmbeddedImageInfo (inl Fc2error)]
  else if info_timestamp (E c)
  then if fails (E (S c))
       then mkRes (Raise Fc2error) (S (S c))
              [EvCall getEmbeddedImageInfo (inr (VInfo true));
               EvCall (setEmbeddedImageInfo b) (inl Fc2error)]
       else mkRes (Ret tt) (S (S c))
              [EvCall getEmbeddedImageInfo (inr (VInfo true));
               EvCall (setEmbeddedImageInfo b) (inr VNone);
               EvPrint (if b then TimeStampEnabled else TimeStampDisabled)]
  else mkRes (Ret tt) (S c) [EvCall getEmbeddedImageInfo (inr (VInfo false))].
Proof.
  unfold enable_embedded_timestamp, bind, sdk, print, ret.
  destruct (fails (E c)); cbn [out cur log app]; try reflexivity.
  destruct (info_timestamp (E c)); cbn [out cur log app]; try reflexivity.
  destruct (fails (E (S c))); cbn [out cur log app]; try reflexivity.
  destruct b; reflexivity.
Qed.

(** * The arguments that [run] passes *)

Lemma event_ok_prev self p e :
  event_ok self None e = true -> event_ok self p e = true.
Proof.
  destruct e as [[] r| | | | |[]]; cbn [event_ok]; rewrite ?andb_false_r;
    try discriminate; auto.
Qed.

Lemma well_linked_prev self p l :
  well_linked self None l = true -> well_linked self p l = true.
Proof.
  destruct l as [|e l]; cbn [well_linked]; [auto|].
  rewrite !andb_true_iff. intros [H1 H2]. split; [apply event_ok_prev|]; assumption.
Qed.

Lemma well_linked_app self l1 : forall p l2,
  well_linked self p l1 = true -> well_linked self None l2 = true ->
  well_linked self p (l1 ++ l2) = true.
Proof.
  induction l1 as [|e l1 IH]; intros p l2 H1 H2; cbn [app].
  - apply well_linked_prev. assumption.
  - cbn [well_linked] in *. apply andb_true_iff in H1 as [He H1].
    rewrite He. cbn [andb]. apply IH; assumption.
Qed.

Lemma well_linked_all self l : forall p,
  (forall e, In e l -> event_ok self None e = true) ->
  well_linked self p l = true.
Proof.
  induction l as [|e l IH]; intros p H; cbn [well_linked]; [reflexivity|].
  rewrite (event_ok_prev self p e) by (apply H; left; reflexivity).
  cbn [andb]. apply IH. intros x Hx. apply H. right. assumption.
Qed.

(** The event before an event of a checked log. *)
Lemma well_linked_at self l1 : forall p e l2,
  well_linked self p (l1 ++ e :: l2) = true ->
  (l1 = [] /\ event_ok self p e = true)
  \/ (exists l0 e0, l1 = l0 ++ [e0] /\ event_ok self (Some e0) e = true).
Proof.
  induction l1 as [|x l1 IH]; intros p e l2 H; cbn [app well_linked] in H;
    apply andb_true_iff in H as [Hx H].
  - left. auto.
  - right. destruct (IH _ _ _ H) as [[-> He]|(l0 & e0 & -> & He)].
    + exists [], x. auto.
    + exists (x :: l0), e0. auto.
Qed.

Lemma well_linked_in self l : forall p e,
  well_linked self p l = true -> In e l -> exists p', event_ok self p' e = true.
Proof.
  induction l as [|x l IH]; intros p e H Hin; [destruct Hin|].
  cbn [well_linked] in H. apply andb_true_iff in H as [Hx H].
  destruct Hin as [<-|Hin]; eauto.
Qed.

Lemma poll_well_linked self fuel E c p :
  well_linked self p (log (poll_for_trigger_ready fuel E c)) = true.
Proof.
  apply well_linked_all. intros e He.
  destruct (poll_log_events _ _ _ _ He) as [[r ->]| ->]; reflexivity.
Qed.

Lemma fire_well_linked self E k :
  well_linked self None (log (fire_on_rendezvous self E k)) = true.
Proof.
  rewrite fire_on_rendezvous_eq.
  destruct (wait_result (E k)) as [[]|i];
    [| | |destruct (fails (E (S k))); [|destruct (fails (E (S (S k))))]];
    cbn [after log app well_linked event_ok];
    rewrite ?Nat.eqb_refl, ?Z.eqb_refl; reflexivity.
Qed.

Lemma cycle_well_linked self fuel E c :
  well_linked self None (log (cycle self fuel E c)) = true.
Proof.
  rewrite cycle_eq.
  destruct (out (poll_for_trigger_ready fuel E c)); cbn [after log];
    try apply poll_well_linked.
  apply well_linked_app; [apply poll_well_linked|apply fire_well_linked].
Qed.

Lemma loop_well_linked self fuel : forall E c,
  well_linked self None (log (capture_loop self fuel E c)) = true.
Proof.
  induction fuel as [|fuel IH]; intros E c; [reflexivity|].
  destruct (flag (E c)) eqn:Hs.
  - rewrite loop_stops by assumption. cbn. rewrite Nat.eqb_refl. reflexivity.
  - destruct (out (cycle self fuel E (S c))) as [[]|e|] eqn:Hc.
    + rewrite loop_continues by assumption. cbn [after log].
      change (EvIsSet (stop_event self) false :: log (cycle self fuel E (S c)))
        with ([EvIsSet (stop_event self) false] ++ log (cycle self fuel E (S c))).
      rewrite <- app_assoc. apply well_linked_app.
      * cbn. rewrite Nat.eqb_refl. reflexivity.
      * apply well_linked_app; [apply cycle_well_linked|apply IH].
    + rewrite loop_breaks by (assumption || (rewrite Hc; discriminate)). cbn [after log].
      apply well_linked_app; [|apply cycle_well_linked].
      cbn. rewrite Nat.eqb_refl. reflexivity.
    + rewrite loop_breaks by (assumption || (rewrite Hc; discriminate)). cbn [after log].
      apply well_linked_app; [|apply cycle_well_linked].
      cbn. rewrite Nat.eqb_refl. reflexivity.
Qed.

Lemma TriggerMode_eqb_refl tm : TriggerMode_eqb tm tm = true.
Proof.
  unfold TriggerMode_eqb. rewrite Bool.eqb_reflx, !Z.eqb_refl. reflexivity.
Qed.

Lemma TriggerMode_eqb_eq a b : TriggerMode_eqb a b = true -> a = b.
Proof.
  unfold TriggerMode_eqb. rewrite !andb_true_iff, !Z.eqb_eq.
  intros ((((H1 & H2) & H3) & H4) & H5). apply Bool.eqb_prop in H1.
  destruct a, b; cbn in *; congruence.
Qed.

Lemma session_well_linked self fuel E c :
  well_linked self None (log (capture_session self fuel E c)) = true.
Proof.
  rewrite capture_session_eq.
  destruct (fails (E c)); [cbn; rewrite ?Nat.eqb_refl; reflexivity|].
  destruct (fails (E (S c)));
    [cbn; rewrite ?Nat.eqb_refl, ?Z.eqb_refl; reflexivity|].
  destruct (fails (E (S (S c))));
    [cbn; rewrite ?Nat.eqb_refl, ?Z.eqb_refl; reflexivity|].
  destruct (fails (E (S (S (S c)))));
    [cbn [log well_linked event_ok];
     rewrite ?Nat.eqb_refl, ?Z.eqb_refl, ?TriggerMode_eqb_refl; reflexivity|].
  destruct (fails (E (S (S (S (S c))))));
    [cbn [log well_linked event_ok];
     rewrite ?Nat.eqb_refl, ?Z.eqb_refl, ?TriggerMode_eqb_refl; reflexivity|].
  cbn [after log]. apply well_linked_app; [|apply loop_well_linked].
  cbn [log well_linked event_ok].
  rewrite ?Nat.eqb_refl, ?Z.eqb_refl, ?TriggerMode_eqb_refl. reflexivity.
Qed.

Lemma prepare_well_linked self E c :
  well_linked self None (log (prepare_camera E c)) = true.
Proof.
  rewrite prepare_camera_eq.
  destruct (fails (E c)); [reflexivity|].
  destruct (fails (E (S c))); [reflexivity|].
  rewrite enable_embedded_timestamp_eq.
  destruct (fails (E (S (S c)))); [reflexivity|].
  destruct (info_timestamp (E (S (S c)))); [|reflexivity].
  destruct (fails (E (S (S (S c))))); reflexivity.
Qed.

Lemma release_well_linked self E c :
  well_linked self None (log (release_camera E c)) = true.
Proof.
  rewrite release_camera_log.
  destruct (fails (E c)); [reflexivity|].
  destruct (fails (E (S c))); reflexivity.
Qed.

(** Every event of a log of [run] passes the check. *)
Lemma run_well_linked self fuel E c :
  well_linked self None (log (CameraWorker_run self fuel E c)) = true.
Proof.
  rewrite run_log_eq.
  apply well_linked_app; [apply prepare_well_linked|].
  destruct (out (prepare_camera E c)); try reflexivity.
  apply well_linked_app; [apply session_well_linked|].
  destruct (out (capture_session self fuel E (cur (prepare_camera E c))));
    try reflexivity; apply release_well_linked.
Qed.

Lemma run_event_at self fuel E c l1 e l2 :
  log (CameraWorker_run self fuel E c) = l1 ++ e :: l2 ->
  (l1 = [] /\ event_ok self None e = true)
  \/ (exists l0 e0, l1 = l0 ++ [e0] /\ event_ok self (Some e0) e = true).
Proof.
  intros Hl. apply (well_linked_at self l1 None e l2).
  rewrite <- Hl. apply run_well_linked.
Qed.

Lemma run_event_in self fuel E c e :
  In e (log (CameraWorker_run self fuel E c)) ->
  exists p, event_ok self p e = true.
Proof. apply well_linked_in with (p := None). apply run_well_linked. Qed.

(** * The stop event and the poller *)

Lemma stop_while_polling_execution : execution 1 stop_while_polling_trace.
Proof.
  split; [|split].
  - eexists. unfold reach. vm_compute. reflexivity.
  - eexists. vm_compute. reflexivity.
  - session_worker j Hj. assert (j = 0%nat) as -> by lia. split.
    + exists stop_while_polling_env, 3%nat. eexists. vm_compute. reflexivity.
    + intros H. vm_compute in H.
      repeat (destruct H as [H|H]; [discriminate H|]). destruct H.
Qed.

(** C1, on the code.  One camera.  The manager sets the stop event while
    the worker polls a busy register.  The poller does not return: the
    worker sleeps, reads the register again, passes the barrier, issues
    the fire command and retrieves. *)
Lemma stop_set_while_polling_not_cancelled :
  execution 1 (stop_while_polling_before
               ++ ByManager (MSet 1) :: stop_while_polling_after)
  /\ (exists s, reach 1 (stop_while_polling_before ++ [ByManager (MSet 1)]) s
                /\ the_stop (sys_shared s) = true)
  /\ worker_events 0 stop_while_polling_after
     = [EvSleep (1 # 1000); read_ready; EvWaitCall 0 5; EvWaitRet 0 (inr 0%nat);
        fire_ok; EvCall retrieveBuffer (inr (VImage 0)); EvPrint (Captured 0 0)].
Proof.
  split; [exact stop_while_polling_execution|]. split; [|reflexivity].
  eexists. split; [unfold reach; vm_compute; reflexivity|reflexivity].
Qed.

Lemma poll_ignores_stop fuel E E' c :
  (forall k, fails (E k) = fails (E' k) /\ reg_val (E k) = reg_val (E' k)) ->
  poll_for_trigger_ready fuel E c = poll_for_trigger_ready fuel E' c.
Proof.
  intros H. revert c. induction fuel as [|fuel IH]; intros c; [reflexivity|].
  destruct (H c) as [Hf Hr].
  destruct (fails (E c)) eqn:Hfc.
  - rewrite !poll_read_fails by congruence. reflexivity.
  - destruct (Z.testbit (reg_val (E c)) 31) eqn:Hb.
    + rewrite !poll_busy by congruence. rewrite IH, Hr. reflexivity.
    + rewrite !poll_ready by congruence. rewrite Hr. reflexivity.
Qed.

Lemma poll_returns_on_ready fuel E c :
  out (poll_for_trigger_ready fuel E c) = Ret tt ->
  exists l v,
    log (poll_for_trigger_ready fuel E c)
    = l ++ [EvCall (readRegister SOFTWARE_TRIGGER) (inr (VInt v))]
    /\ Z.testbit v 31 = false.
Proof.
  revert c. induction fuel as [|fuel IH]; intros c; [discriminate|].
  destruct (fails (E c)) eqn:Hfc.
  - rewrite poll_read_fails by assumption. discriminate.
  - destruct (Z.testbit (reg_val (E c)) 31) eqn:Hb.
    + rewrite poll_busy by assumption. cbn [after out log]. intros H.
      destruct (IH _ H) as (l & v & -> & Hv).
      eexists (_ :: _ :: l), v. split; [reflexivity|assumption].
    + rewrite poll_ready by assumption. intros _.
      exists [], (reg_val (E c)). split; [reflexivity|assumption].
Qed.

Lemma poll_raises_on_failed_read fuel E c e :
  out (poll_for_trigger_ready fuel E c) = Raise e ->
  e = Fc2error
  /\ exists l,
       log (poll_for_trigger_ready fuel E c)
       = l ++ [EvCall (readRegister SOFTWARE_TRIGGER) (inl Fc2error)].
Proof.
  revert c. induction fuel as [|fuel IH]; intros c; [discriminate|].
  destruct (fails (E c)) eqn:Hfc.
  - rewrite poll_read_fails by assumption. cbn [out log]. intros [= <-].
    split; [reflexivity|]. exists []. reflexivity.
  - destruct (Z.testbit (reg_val (E c)) 31) eqn:Hb.
    + rewrite poll_busy by assumption. cbn [after out log]. intros H.
      destruct (IH _ H) as (-> & l & ->). split; [reflexivity|].
      eexists (_ :: _ :: l). reflexivity.
    + rewrite poll_ready by assumption. discriminate.
Qed.

(** The places of the stop test and of the register read in the graph. *)
Lemma is_set_source q ev b q' :
  wnext q (EvIsSet ev b) = Some q' ->
  q = PLoopTop /\ q' = if b then PFinally false else PPoll.
Proof. intros H. destruct q; graph_inv H; injection H as <-; auto. Qed.

Lemma loop_top_source q x :
  wnext q x = Some PLoopTop ->
  (exists i, x = EvPrint (StandingBy i))
  \/ (exists i ts, x = EvPrint (Captured i ts))
  \/ (exists i e, x = EvPrint (CaptureError i e))
  \/ (exists bl, x = EvWaitRet bl (inl TimeoutError)).
Proof. intros H. destruct q; graph_inv H; try discriminate H; eauto 8. Qed.

Lemma read_source q a r q' :
  wnext q (EvCall (readRegister a) r) = Some q' -> q = PPoll.
Proof. intros H. destruct q; graph_inv H; reflexivity. Qed.

Lemma poll_point_source q x :
  wnext q x = Some PPoll ->
  (exists ev, x = EvIsSet ev false) \/ (exists s, x = EvSleep s).
Proof. intros H. destruct q; graph_inv H; try discriminate H; eauto. Qed.

Lemma poll_point_next l q :
  path PPoll l = Some q ->
  l = [] \/ exists a r l', l = EvCall (readRegister a) r :: l'.
Proof.
  destruct l as [|x l]; [auto|]. cbn [path].
  destruct (wnext PPoll x) as [q1|] eqn:Hx; [|discriminate]. intros _.
  right. graph_inv Hx; eauto.
Qed.

(** The last step of a path that moves. *)
Lemma path_last q l q' :
  path q l = Some q' -> q' <> q ->
  exists l0 e0 q0, l = l0 ++ [e0] /\ path q l0 = Some q0 /\ wnext q0 e0 = Some q'.
Proof.
  destruct l as [|x l0] using rev_ind.
  - cbn [path]. intros [= <-] H. congruence.
  - intros H _. destruct (snoc_path _ _ _ _ H) as (q0 & H0 & Hx).
    exists l0, x, q0. auto.
Qed.

Lemma Q_eqb_eq a b : Q_eqb a b = true -> a = b.
Proof.
  unfold Q_eqb. destruct a as [n d], b as [n' d']. cbn [Qnum Qden].
  intros H. apply andb_true_iff in H as [H1 H2].
  apply Z.eqb_eq in H1. apply Pos.eqb_eq in H2. subst. reflexivity.
Qed.

(** The stop test of [run] is the test of its [while] loop and nothing
    else: what precedes it is the last statement before the loop or the
    last statement of an iteration, and what follows a test that read the
    event clear is the first statement of the loop body. *)
Lemma is_set_at_loop_top self fuel E c l1 ev b l2 :
  log (CameraWorker_run self fuel E c) = l1 ++ EvIsSet ev b :: l2 ->
  ev = stop_event self
  /\ (exists l0 e0,
        l1 = l0 ++ [e0]
        /\ (e0 = EvPrint (StandingBy (cam_index self))
            \/ (exists ts, e0 = EvPrint (Captured (cam_index self) ts))
            \/ (exists e, e0 = EvPrint (CaptureError (cam_index self) e))
            \/ e0 = EvWaitRet (barrier self) (inl TimeoutError)))
  /\ (b = false ->
      l2 = [] \/ exists r l3, l2 = EvCall (readRegister SOFTWARE_TRIGGER) r :: l3).
Proof.
  intros Hl.
  assert (Hin : forall x, In x (l1 ++ EvIsSet ev b :: l2) ->
                          exists p, event_ok self p x = true).
  { intros x Hx. rewrite <- Hl in Hx. eapply run_event_in. eassumption. }
  destruct (run_log_cut _ _ _ _ _ _ _ Hl) as (q1 & q2 & q' & Hp1 & Hx & Hp2 & _).
  destruct (is_set_source _ _ _ _ Hx) as [-> ->].
  split; [|split].
  - destruct (Hin (EvIsSet ev b)) as [p Hp].
    { apply in_or_app. right. left. reflexivity. }
    apply Nat.eqb_eq. exact Hp.
  - destruct (path_last _ _ _ Hp1 ltac:(discriminate))
      as (l0 & e0 & q0 & -> & _ & He0).
    exists l0, e0. split; [reflexivity|].
    destruct (Hin e0) as [p Hp].
    { apply in_or_app. left. apply in_or_app. right. left. reflexivity. }
    destruct (loop_top_source _ _ He0)
      as [[i ->]|[(i & ts & ->)|[(i & e & ->)|[bl ->]]]]; cbn [event_ok] in Hp.
    + apply Nat.eqb_eq in Hp. subst i. auto.
    + apply andb_true_iff in Hp as [Hp _]. apply Nat.eqb_eq in Hp. subst i.
      right. left. eauto.
    + apply andb_true_iff in Hp as [Hp _]. apply Nat.eqb_eq in Hp. subst i.
      right. right. left. eauto.
    + apply Nat.eqb_eq in Hp. subst bl. auto.
  - intros ->. destruct (poll_point_next _ _ Hp2) as [->|(a & r & l3 & ->)];
      [left; reflexivity|].
    right. exists r, l3.
    destruct (Hin (EvCall (readRegister a) r)) as [p Hp].
    { apply in_or_app. right. right. left. reflexivity. }
    cbn [event_ok] in Hp. apply Z.eqb_eq in Hp. subst a. reflexivity.
Qed.

(** Every read of the trigger register comes right after a stop test that
    read the event clear, or right after the sleep of the poller. *)
Lemma read_after_stop_test self fuel E c l1 a r l2 :
  log (CameraWorker_run self fuel E c) = l1 ++ EvCall (readRegister a) r :: l2 ->
  exists l0 e0,
    l1 = l0 ++ [e0]
    /\ (e0 = EvIsSet (stop_event self) false \/ e0 = EvSleep POLL_SLEEP).
Proof.
  intros Hl.
  destruct (run_log_cut _ _ _ _ _ _ _ Hl) as (q1 & q2 & q' & Hp1 & Hx & _).
  rewrite (read_source _ _ _ _ Hx) in Hp1.
  destruct (path_last _ _ _ Hp1 ltac:(discriminate))
    as (l0 & e0 & q0 & -> & _ & He0).
  exists l0, e0. split; [reflexivity|].
  destruct (run_event_in self fuel E c e0) as [p Hp].
  { rewrite Hl. apply in_or_app. left. apply in_or_app. right. left. reflexivity. }
  destruct (poll_point_source _ _ He0) as [[ev ->]|[s ->]]; cbn [event_ok] in Hp.
  - apply Nat.eqb_eq in Hp. subst ev. auto.
  - apply Q_eqb_eq in Hp. subst s. auto.
Qed.

(** C1 (as amended).  The readiness poller does not consult the stop
    event: its result depends on the register reads only, its log holds
    nothing but reads of the trigger register and sleeps, it returns only
    at a read that shows bit 31 clear, and it raises only at a read that
    fails.  The worker reads the stop event at the top of its loop only:
    every [is_set] of [run] is on its own stop event and comes right
    after the last statement before the loop or the last statement of an
    iteration (the "Standing by" line, a "Captured" or "Capture Error"
    line, or a [wait] that raised [TimeoutError]); after a test that read
    the event clear the next event is the register read of the poller,
    and every register read comes right after such a test or after the
    sleep of the poller.  When the worker reads the event set, the rest
    of its log is the finally block of [run]: no fire command and no
    retrieve call follows. *)
Theorem stop_is_read_at_loop_top_only :
  (forall fuel E E' c,
     (forall k, fails (E k) = fails (E' k) /\ reg_val (E k) = reg_val (E' k)) ->
     poll_for_trigger_ready fuel E c = poll_for_trigger_ready fuel E' c)
  /\ (forall fuel E c ev,
        In ev (log (poll_for_trigger_ready fuel E c)) ->
        (exists r, ev = EvCall (readRegister SOFTWARE_TRIGGER) r)
        \/ ev = EvSleep POLL_SLEEP)
  /\ (forall fuel E c,
        out (poll_for_trigger_ready fuel E c) = Ret tt ->
        exists l v,
          log (poll_for_trigger_ready fuel E c)
          = l ++ [EvCall (readRegister SOFTWARE_TRIGGER) (inr (VInt v))]
          /\ Z.testbit v 31 = false)
  /\ (forall fuel E c e,
        out (poll_for_trigger_ready fuel E c) = Raise e ->
        e = Fc2error
        /\ exists l,
             log (poll_for_trigger_ready fuel E c)
             = l ++ [EvCall (readRegister SOFTWARE_TRIGGER) (inl Fc2error)])
  /\ (forall self fuel E c l1 ev b l2,
        log (CameraWorker_run self fuel E c) = l1 ++ EvIsSet ev b :: l2 ->
        ev = stop_event self
        /\ (exists l0 e0,
              l1 = l0 ++ [e0]
              /\ (e0 = EvPrint (StandingBy (cam_index self))
                  \/ (exists ts, e0 = EvPrint (Captured (cam_index self) ts))
                  \/ (exists e, e0 = EvPrint (CaptureError (cam_index self) e))
                  \/ e0 = EvWaitRet (barrier self) (inl TimeoutError)))
        /\ (b = false ->
            l2 = []
            \/ exists r l3, l2 = EvCall (readRegister SOFTWARE_TRIGGER) r :: l3))
  /\ (forall self fuel E c l1 a r l2,
        log (CameraWorker_run self fuel E c)
          = l1 ++ EvCall (readRegister a) r :: l2 ->
        exists l0 e0,
          l1 = l0 ++ [e0]
          /\ (e0 = EvIsSet (stop_event self) false \/ e0 = EvSleep POLL_SLEEP))
  /\ (forall self fuel E c l1 ev l2,
        log (CameraWorker_run self fuel E c) = l1 ++ EvIsSet ev true :: l2 ->
        finally_log l2
        /\ out (CameraWorker_run self fuel E c) <> OutOfFuel
        /\ (forall x, In x l2 -> is_cleanup x = true)).
Proof.
  split; [exact poll_ignores_stop|]. split; [exact poll_log_events|].
  split; [exact poll_returns_on_ready|].
  split; [exact poll_raises_on_failed_read|].
  split; [exact is_set_at_loop_top|]. split; [exact read_after_stop_test|].
  intros self fuel E c l1 ev l2 Hl.
  destruct (run_tail_finally _ _ _ _ _ _ _ PLoopTop false Hl) as (Hf & Ho & _).
  { intros q q' _ Hx. eapply stop_seen_source; eassumption. }
  split; [assumption|]. split; [assumption|]. apply finally_log_cleanup; assumption.
Qed.

Lemma stop_is_read_at_loop_top_only_witness :
  finally_log [EvCall stopCapture (inr VNone); EvCall disconnect (inr VNone)]
  /\ out (CameraWorker_run worker0 1 stop_at_once_env 0%nat) <> OutOfFuel
  /\ exists l0 e0,
       setup_log 0 = l0 ++ [e0]
       /\ (e0 = EvPrint (StandingBy (cam_index worker0))
           \/ (exists ts, e0 = EvPrint (Captured (cam_index worker0) ts))
           \/ (exists e, e0 = EvPrint (CaptureError (cam_index worker0) e))
           \/ e0 = EvWaitRet (barrier worker0) (inl TimeoutError)).
Proof.
  pose proof (proj2 (proj2 (proj2 (proj2 (proj2 (proj2
                stop_is_read_at_loop_top_only)))))
                worker0 1%nat stop_at_once_env 0%nat (setup_log 0) 1%nat
                [EvCall stopCapture (inr VNone); EvCall disconnect (inr VNone)]
                eq_refl) as (H1 & H2 & _).
  pose proof (proj1 (proj2 (proj2 (proj2 (proj2 stop_is_read_at_loop_top_only))))
                worker0 1%nat stop_at_once_env 0%nat (setup_log 0) 1%nat true
                [EvCall stopCapture (inr VNone); EvCall disconnect (inr VNone)]
                eq_refl) as (_ & H3 & _).
  split; [assumption|]. split; assumption.
Defined.

(** * The theorems at concrete inputs *)

Lemma poll_returns_at_first_ready_witness :
  poll_for_trigger_ready 4 three_busy_env 0%nat
  = mkRes (Ret tt) 4
      (busy_rounds three_busy_env 0 3
       ++ [EvCall (readRegister SOFTWARE_TRIGGER) (inr (VInt 0))]).
Proof.
  apply (poll_returns_at_first_ready three_busy_env 0 3 4).
  - intros [|[|[|j]]] Hj; try lia; split; reflexivity.
  - reflexivity.
  - reflexivity.
  - lia.
Defined.

Lemma timestamp_failure_skips_cleanup_witness :
  out (enable_embedded_timestamp true timestamp_fails_env 2%nat) = Raise Fc2error
  /\ out (CameraWorker_run worker0 1 timestamp_fails_env 0%nat) = Raise Fc2error.
Proof.
  split; [reflexivity|].
  exact (proj1 (timestamp_failure_skips_cleanup worker0 1 timestamp_fails_env 0
                  Fc2error eq_refl eq_refl eq_refl)).
Defined.

Lemma fire_failure_is_fatal_witness :
  log (CameraWorker_run worker0 2 fire_fails_env 0%nat)
  = (setup_log 0 ++ [EvIsSet 1 false; read_ready; EvWaitCall 0 5;
                     EvWaitRet 0 (inr 0%nat)])
    ++ EvCall (writeRegister SOFTWARE_TRIGGER FIRE_VALUE) (inl Fc2error)
    :: [EvCall stopCapture (inr VNone); EvCall disconnect (inr VNone)]
  /\ finally_log [EvCall stopCapture (inr VNone); EvCall disconnect (inr VNone)].
Proof.
  split; [reflexivity|].
  exact (proj1 (fire_failure_is_fatal worker0 2 fire_fails_env 0
                  (setup_log 0 ++ [EvIsSet 1 false; read_ready; EvWaitCall 0 5;
                                   EvWaitRet 0 (inr 0%nat)])
                  SOFTWARE_TRIGGER FIRE_VALUE Fc2error
                  [EvCall stopCapture (inr VNone); EvCall disconnect (inr VNone)]
                  eq_refl)).
Defined.

Lemma retrieve_error_is_recoverable_witness :
  flag (retrieve_fails_env 8%nat) = false
  /\ out (cycle worker0 1 retrieve_fails_env 9%nat) = Ret tt.
Proof.
  split; [reflexivity|].
  refine (proj1 (proj2 (retrieve_error_is_recoverable worker0 1 retrieve_fails_env 8
                          Fc2error eq_refl _))).
  vm_compute. intuition.
Defined.

(** * More fuel does not change a run that ended *)

Lemma bind_fuel_step {A B} (m m' : M A) (k k' : A -> M B) E c :
  out (bind m k E c) <> OutOfFuel ->
  (out (m E c) <> OutOfFuel -> m' E c = m E c) ->
  (forall a, out (m E c) = Ret a ->
             out (k a E (cur (m E c))) <> OutOfFuel ->
             k' a E (cur (m E c)) = k a E (cur (m E c))) ->
  bind m' k' E c = bind m k E c.
Proof.
  unfold bind. intros Ho Hm Hk.
  destruct (out (m E c)) as [a| |] eqn:Hout; cbn [out] in Ho.
  - rewrite Hm by discriminate. rewrite Hout. rewrite Hk; auto.
  - rewrite Hm by discriminate. rewrite Hout. reflexivity.
  - congruence.
Qed.

Lemma poll_fuel_step fuel E c :
  out (poll_for_trigger_ready fuel E c) <> OutOfFuel ->
  poll_for_trigger_ready (S fuel) E c = poll_for_trigger_ready fuel E c.
Proof.
  revert c. induction fuel as [|fuel IH]; intros c Ho; [exfalso; auto|].
  destruct (fails (E c)) eqn:Hf.
  - rewrite !poll_read_fails by assumption. reflexivity.
  - destruct (Z.testbit (reg_val (E c)) 31) eqn:Hb.
    + rewrite poll_busy in Ho by assumption. cbn [after out] in Ho.
      rewrite (poll_busy (S fuel) E c), (poll_busy fuel E c) by assumption.
      rewrite IH by assumption. reflexivity.
    + rewrite !poll_ready by assumption. reflexivity.
Qed.

Lemma cycle_fuel_step self fuel E c :
  out (cycle self fuel E c) <> OutOfFuel ->
  cycle self (S fuel) E c = cycle self fuel E c.
Proof.
  intros Ho. unfold cycle in *.
  apply bind_fuel_step; [assumption | apply poll_fuel_step | reflexivity].
Qed.

Lemma capture_loop_fuel_step self fuel E c :
  out (capture_loop self fuel E c) <> OutOfFuel ->
  capture_loop self (S fuel) E c = capture_loop self fuel E c.
Proof.
  revert c. induction fuel as [|fuel IH]; intros c Ho; [exfalso; auto|].
  cbn [capture_loop] in *. apply bind_fuel_step; [assumption | reflexivity |].
  intros [|] _ Ho'; [reflexivity|].
  apply bind_fuel_step; [assumption | apply cycle_fuel_step |].
  intros [] _ Ho''. apply IH. assumption.
Qed.

Lemma run_fuel_step self fuel E c :
  out (CameraWorker_run self fuel E c) <> OutOfFuel ->
  CameraWorker_run self (S fuel) E c = CameraWorker_run self fuel E c.
Proof.
  intros Ho. unfold CameraWorker_run in *.
  apply bind_fuel_step; [assumption | reflexivity |].
  intros [] Hp Ho'. unfold try_finally in *.
  assert (Hs : out (capture_session self fuel E (cur (prepare_camera E c))) <> OutOfFuel).
  { intros H. rewrite H in Ho'. congruence. }
  assert (Heq : capture_session self (S fuel) E (cur (prepare_camera E c))
                = capture_session self fuel E (cur (prepare_camera E c))).
  { unfold capture_session in *.
    repeat (apply bind_fuel_step; [assumption|reflexivity|]; intros ? ? ?).
    apply capture_loop_fuel_step. assumption. }
  rewrite Heq. reflexivity.
Qed.

(** A run that has ended is the same run with any larger fuel. *)
Lemma run_fuel_mono self fuel fuel' E c :
  out (CameraWorker_run self fuel E c) <> OutOfFuel ->
  (fuel <= fuel')%nat ->
  CameraWorker_run self fuel' E c = CameraWorker_run self fuel E c.
Proof.
  intros Ho Hle. induction Hle as [|fuel' Hle IH]; [reflexivity|].
  rewrite <- IH. apply run_fuel_step. rewrite IH. assumption.
Qed.

(** * More about the readiness poller *)

Lemma busy_rounds_S E c k :
  busy_rounds E c (S k)
  = [EvCall (readRegister SOFTWARE_TRIGGER) (inr (VInt (reg_val (E c))));
     EvSleep (1 # 1000)] ++ busy_rounds E (S c) k.
Proof.
  unfold busy_rounds. cbn [seq flat_map]. rewrite <- seq_shift.
  rewrite (flat_map_concat_map _ (map S _)), map_map, <- flat_map_concat_map.
  rewrite Nat.add_0_r. cbn [app]. do 2 f_equal.
  apply flat_map_ext. intros j.
  replace (c + S j)%nat with (S c + j)%nat by lia. reflexivity.
Qed.

(** [k] reads of a busy register are [k] read-and-sleep rounds, and the
    poll goes on behind them. *)
Lemma poll_busy_rounds E k : forall c fuel,
  (forall j, (j < k)%nat ->
     fails (E (c + j)%nat) = false /\ Z.testbit (reg_val (E (c + j)%nat)) 31 = true) ->
  poll_for_trigger_ready (k + fuel) E c
  = after (busy_rounds E c k) (poll_for_trigger_ready fuel E (c + k)%nat).
Proof.
  induction k as [|k IH]; intros c fuel Hbusy.
  - rewrite Nat.add_0_r. cbn [Nat.add]. unfold busy_rounds, after. cbn.
    apply res_eta.
  - destruct (Hbusy 0%nat ltac:(lia)) as [Hf0 Hb0]. rewrite Nat.add_0_r in Hf0, Hb0.
    cbn [Nat.add]. rewrite poll_busy by assumption.
    rewrite (IH (S c) fuel).
    + rewrite after_after, busy_rounds_S.
      replace (S c + k)%nat with (c + S k)%nat by lia. reflexivity.
    + intros j Hj. replace (S c + j)%nat with (c + S j)%nat by lia.
      apply Hbusy. lia.
Qed.

(** The poller has no error handling of its own: when the read that
    follows [k] busy reads fails, the poll is [k] read-and-sleep rounds
    and the failed read, and [Fc2error] leaves the poller. *)
Theorem poll_raises_at_first_failed_read (E : env) (c k fuel : nat) :
  (forall j, (j < k)%nat ->
     fails (E (c + j)%nat) = false /\ Z.testbit (reg_val (E (c + j)%nat)) 31 = true) ->
  fails (E (c + k)%nat) = true ->
  (k < fuel)%nat ->
  poll_for_trigger_ready fuel E c =
  mkRes (Raise Fc2error) (c + k + 1)%nat
    (busy_rounds E c k ++ [EvCall (readRegister SOFTWARE_TRIGGER) (inl Fc2error)]).
Proof.
  intros Hbusy Hf Hfuel.
  replace fuel with (k + S (fuel - k - 1))%nat by lia.
  rewrite poll_busy_rounds by assumption.
  rewrite poll_read_fails by assumption.
  unfold after. cbn [out cur log]. f_equal. lia.
Qed.

(** The poller has no bound of its own: on a register that stays busy it
    neither returns nor raises; after any number [fuel] of iterations it
    has done [fuel] read-and-sleep rounds and is about to read again. *)
Theorem poll_never_gives_up (E : env) (c fuel : nat) :
  (forall j, fails (E (c + j)%nat) = false
             /\ Z.testbit (reg_val (E (c + j)%nat)) 31 = true) ->
  poll_for_trigger_ready fuel E c
  = mkRes OutOfFuel (c + fuel)%nat (busy_rounds E c fuel).
Proof.
  intros Hbusy.
  replace fuel with (fuel + 0)%nat at 1 by lia.
  rewrite poll_busy_rounds by (intros; apply Hbusy).
  cbn [poll_for_trigger_ready]. unfold out_of_fuel, after. cbn [out cur log].
  rewrite app_nil_r. reflexivity.
Qed.

(** Every poll that ends is a number [k] of read-and-sleep rounds on a busy
    register followed by one last read: the poll returns when that read
    shows bit 31 clear, and raises [Fc2error] when that read fails.  No
    other exit exists. *)
Theorem poll_ends_at_last_read (E : env) (fuel c : nat) :
  out (poll_for_trigger_ready fuel E c) <> OutOfFuel ->
  exists k,
    (k < fuel)%nat
    /\ (forall j, (j < k)%nat ->
          fails (E (c + j)%nat) = false
          /\ Z.testbit (reg_val (E (c + j)%nat)) 31 = true)
    /\ cur (poll_for_trigger_ready fuel E c) = (c + k + 1)%nat
    /\ ((fails (E (c + k)%nat) = true
         /\ out (poll_for_trigger_ready fuel E c) = Raise Fc2error
         /\ log (poll_for_trigger_ready fuel E c)
            = busy_rounds E c k
              ++ [EvCall (readRegister SOFTWARE_TRIGGER) (inl Fc2error)])
        \/ (fails (E (c + k)%nat) = false
            /\ Z.testbit (reg_val (E (c + k)%nat)) 31 = false
            /\ out (poll_for_trigger_ready fuel E c) = Ret tt
            /\ log (poll_for_trigger_ready fuel E c)
               = busy_rounds E c k
                 ++ [EvCall (readRegister SOFTWARE_TRIGGER)
                            (inr (VInt (reg_val (E (c + k)%nat))))])).
Proof.
  revert c. induction fuel as [|fuel IH]; intros c Hout.
  - exfalso. apply Hout. reflexivity.
  - destruct (fails (E c)) eqn:Hf.
    + exists 0%nat. rewrite Nat.add_0_r. rewrite poll_read_fails by assumption.
      cbn [out cur log]. repeat split; try lia.
      left. auto.
    + destruct (Z.testbit (reg_val (E c)) 31) eqn:Hb.
      * rewrite poll_busy in Hout |- * by assumption.
        unfold after in Hout |- *. cbn [out cur log] in Hout |- *.
        destruct (IH (S c) Hout) as (k & Hk & Hbusy & Hcur & Hend).
        exists (S k). split; [lia|]. split.
        { intros [|j] Hj.
          - rewrite Nat.add_0_r. auto.
          - replace (c + S j)%nat with (S c + j)%nat by lia. apply Hbusy. lia. }
        replace (c + S k)%nat with (S c + k)%nat by lia.
        split; [lia|]. rewrite busy_rounds_S.
        destruct Hend as [(H1 & H2 & H3)|(H1 & H2 & H3 & H4)].
        -- left. rewrite H3, <- app_assoc. auto.
        -- right. rewrite H4, <- app_assoc. auto.
      * exists 0%nat. rewrite Nat.add_0_r. rewrite poll_ready by assumption.
        cbn [out cur log]. repeat split; try lia.
        right. auto.
Qed.

(** The readiness test looks at bit 31 of the register value alone: against
    two cameras whose reads fail at the same places and agree on bit 31,
    the poller ends in the same way, after the same number of reads and
    sleeps. *)
Theorem poll_decides_on_bit_31_alone (fuel : nat) (E E' : env) (c : nat) :
  (forall k, fails (E k) = fails (E' k)
             /\ Z.testbit (reg_val (E k)) 31 = Z.testbit (reg_val (E' k)) 31) ->
  out (poll_for_trigger_ready fuel E c) = out (poll_for_trigger_ready fuel E' c)
  /\ cur (poll_for_trigger_ready fuel E c) = cur (poll_for_trigger_ready fuel E' c)
  /\ length (log (poll_for_trigger_ready fuel E c))
     = length (log (poll_for_trigger_ready fuel E' c)).
Proof.
  intros Heq. revert c. induction fuel as [|fuel IH]; intros c.
  - cbn. auto.
  - destruct (Heq c) as [Hf Hb].
    destruct (fails (E c)) eqn:Hfc.
    + rewrite (poll_read_fails fuel E) by assumption.
      rewrite (poll_read_fails fuel E') by congruence. cbn. auto.
    + destruct (Z.testbit (reg_val (E c)) 31) eqn:Hbc.
      * rewrite (poll_busy fuel E) by assumption.
        rewrite (poll_busy fuel E') by congruence.
        unfold after. cbn [out cur log length app].
        destruct (IH (S c)) as (H1 & H2 & H3). auto.
      * rewrite (poll_ready fuel E) by assumption.
        rewrite (poll_ready fuel E') by congruence. cbn. auto.
Qed.

(** * What [run] passes to the camera and to the shared objects *)

(** The worker touches one register of the camera: every [readRegister]
    of [run] reads [SOFTWARE_TRIGGER], and every [writeRegister] writes
    [FIRE_VALUE] to [SOFTWARE_TRIGGER]. *)
Theorem run_touches_the_trigger_register_only self fuel E c :
  (forall a r, In (EvCall (readRegister a) r) (log (CameraWorker_run self fuel E c)) ->
               a = SOFTWARE_TRIGGER)
  /\ (forall a v r,
        In (EvCall (writeRegister a v) r) (log (CameraWorker_run self fuel E c)) ->
        a = SOFTWARE_TRIGGER /\ v = FIRE_VALUE).
Proof.
  split.
  - intros a r Hin. destruct (run_event_in _ _ _ _ _ Hin) as [p Hp].
    cbn [event_ok] in Hp. apply Z.eqb_eq. assumption.
  - intros a v r Hin. destruct (run_event_in _ _ _ _ _ Hin) as [p Hp].
    cbn [event_ok] in Hp. apply andb_true_iff in Hp as [H1 H2].
    split; apply Z.eqb_eq; assumption.
Qed.

(** The worker synchronises through the two objects it was given: every
    [wait] of [run] is on its own barrier with a time-out of 5 seconds,
    every [is_set] is on its own stop event, and every sleep is of 0.001
    seconds. *)
Theorem run_uses_its_own_barrier_and_stop_event self fuel E c :
  (forall b t, In (EvWaitCall b t) (log (CameraWorker_run self fuel E c)) ->
               b = barrier self /\ t = WAIT_TIMEOUT)
  /\ (forall b r, In (EvWaitRet b r) (log (CameraWorker_run self fuel E c)) ->
                  b = barrier self)
  /\ (forall ev v, In (EvIsSet ev v) (log (CameraWorker_run self fuel E c)) ->
                   ev = stop_event self)
  /\ (forall s, In (EvSleep s) (log (CameraWorker_run self fuel E c)) ->
                s = POLL_SLEEP).
Proof.
  repeat split.
  - destruct (run_event_in _ _ _ _ _ H) as [p Hp]. cbn [event_ok] in Hp.
    apply andb_true_iff in Hp as [H1 _]. apply Nat.eqb_eq. assumption.
  - destruct (run_event_in _ _ _ _ _ H) as [p Hp]. cbn [event_ok] in Hp.
    apply andb_true_iff in Hp as [_ H1]. apply Z.eqb_eq. assumption.
  - intros b r H. destruct (run_event_in _ _ _ _ _ H) as [p Hp].
    cbn [event_ok] in Hp. apply Nat.eqb_eq. assumption.
  - intros ev v H. destruct (run_event_in _ _ _ _ _ H) as [p Hp].
    cbn [event_ok] in Hp. apply Nat.eqb_eq. assumption.
  - intros s H. destruct (run_event_in _ _ _ _ _ H) as [p Hp].
    cbn [event_ok] in Hp. unfold Q_eqb in Hp. destruct s as [n d].
    cbn [Qnum Qden POLL_SLEEP] in Hp. apply andb_true_iff in Hp as [H1 H2].
    apply Z.eqb_eq in H1. apply Pos.eqb_eq in H2. subst. reflexivity.
Qed.

(** The worker connects to the camera of its own index: every
    [getCameraFromIndex] of [run] is for [cam_index], and every [connect]
    comes right after a [getCameraFromIndex] that returned, with the GUID
    that call returned. *)
Theorem run_connects_to_its_own_camera self fuel E c :
  (forall i r, In (EvCall (getCameraFromIndex i) r)
                  (log (CameraWorker_run self fuel E c)) ->
               i = cam_index self)
  /\ (forall l1 g r l2,
        log (CameraWorker_run self fuel E c) = l1 ++ EvCall (connect g) r :: l2 ->
        exists l0,
          l1 = l0 ++ [EvCall (getCameraFromIndex (cam_index self)) (inr (VGuid g))]).
Proof.
  assert (H1 : forall i r, In (EvCall (getCameraFromIndex i) r)
                              (log (CameraWorker_run self fuel E c)) ->
                           i = cam_index self).
  { intros i r Hin. destruct (run_event_in _ _ _ _ _ Hin) as [p Hp].
    cbn [event_ok] in Hp. apply Nat.eqb_eq. assumption. }
  split; [exact H1|].
  intros l1 g r l2 Hl.
  destruct (run_event_at _ _ _ _ _ _ _ Hl) as [[_ He]|(l0 & e0 & -> & He)];
    cbn [event_ok] in He; [discriminate|].
  destruct e0 as [[] [x|[]]| | | | |]; try discriminate He.
  apply Z.eqb_eq in He. subst g0. exists l0.
  rewrite (H1 i (inr (VGuid g))); [reflexivity|].
  rewrite Hl. apply in_or_app. left. apply in_or_app. right. left. reflexivity.
Qed.

(** The worker switches the camera to the software trigger and changes
    nothing else of its trigger mode: every [setTriggerMode] of [run]
    comes right after a [getTriggerMode] that returned, and passes the
    mode that call returned with [onOff] set and the source 7. *)
Theorem run_sets_the_software_trigger self fuel E c l1 tm r l2 :
  log (CameraWorker_run self fuel E c) = l1 ++ EvCall (setTriggerMode tm) r :: l2 ->
  exists l0 tm0,
    l1 = l0 ++ [EvCall getTriggerMode (inr (VTriggerMode tm0))]
    /\ onOff tm = true /\ source tm = 7
    /\ polarity tm = polarity tm0 /\ mode tm = mode tm0
    /\ parameter tm = parameter tm0.
Proof.
  intros Hl.
  destruct (run_event_at _ _ _ _ _ _ _ Hl) as [[_ He]|(l0 & e0 & -> & He)];
    cbn [event_ok] in He; [discriminate|].
  destruct e0 as [[] [x|[]]| | | | |]; try discriminate He.
  apply TriggerMode_eqb_eq in He. subst tm.
  exists l0, tm0. cbn. auto 7.
Qed.

(** The worker never disables the embedded timestamp: every
    [setEmbeddedImageInfo] of [run] passes [timestamp = True], and [run]
    never prints that the timestamp is disabled. *)
Theorem run_never_disables_the_timestamp self fuel E c :
  (forall b r, In (EvCall (setEmbeddedImageInfo b) r)
                  (log (CameraWorker_run self fuel E c)) ->
               b = true)
  /\ ~ In (EvPrint TimeStampDisabled) (log (CameraWorker_run self fuel E c)).
Proof.
  split.
  - intros b r Hin. destruct (run_event_in _ _ _ _ _ Hin) as [p Hp]. exact Hp.
  - intros Hin. destruct (run_event_in _ _ _ _ _ Hin) as [p Hp]. discriminate Hp.
Qed.

(** What the worker prints about a capture is what [retrieveBuffer] just
    gave it: a "Captured" line comes right after a [retrieveBuffer] that
    returned and carries the timestamp of that image, a "Capture Error"
    line comes right after a [retrieveBuffer] that raised and carries that
    exception, and both carry the worker's camera index, as does the
    "Standing by" line. *)
Theorem run_prints_what_retrieve_gave self fuel E c :
  (forall l1 i ts l2,
     log (CameraWorker_run self fuel E c) = l1 ++ EvPrint (Captured i ts) :: l2 ->
     i = cam_index self
     /\ exists l0, l1 = l0 ++ [EvCall retrieveBuffer (inr (VImage ts))])
  /\ (forall l1 i e l2,
        log (CameraWorker_run self fuel E c) = l1 ++ EvPrint (CaptureError i e) :: l2 ->
        i = cam_index self
        /\ exists l0, l1 = l0 ++ [EvCall retrieveBuffer (inl e)])
  /\ (forall i, In (EvPrint (StandingBy i)) (log (CameraWorker_run self fuel E c)) ->
                i = cam_index self).
Proof.
  split; [|split].
  - intros l1 i ts l2 Hl.
    destruct (run_event_at _ _ _ _ _ _ _ Hl) as [[_ He]|(l0 & e0 & -> & He)];
      cbn [event_ok] in He; apply andb_true_iff in He as [Hi He];
      [discriminate|].
    apply Nat.eqb_eq in Hi. split; [assumption|].
    destruct e0 as [[] [x|[]]| | | | |]; try discriminate He.
    apply Z.eqb_eq in He. subst. eauto.
  - intros l1 i e l2 Hl.
    destruct (run_event_at _ _ _ _ _ _ _ Hl) as [[_ He]|(l0 & e0 & -> & He)];
      cbn [event_ok] in He; apply andb_true_iff in He as [Hi He];
      [discriminate|].
    apply Nat.eqb_eq in Hi. split; [assumption|].
    destruct e0 as [[] [x|[]]| | | | |]; try discriminate He.
    assert (e = x) by (destruct e, x; try discriminate He; reflexivity).
    subst. eauto.
  - intros i Hin. destruct (run_event_in _ _ _ _ _ Hin) as [p Hp].
    cbn [event_ok] in Hp. apply Nat.eqb_eq. assumption.
Qed.

(** * The theorems above at concrete inputs *)

Lemma poll_raises_at_first_failed_read_witness :
  poll_for_trigger_ready 3 two_busy_then_fail_env 0%nat
  = mkRes (Raise Fc2error) 3
      (busy_rounds two_busy_then_fail_env 0 2
       ++ [EvCall (readRegister SOFTWARE_TRIGGER) (inl Fc2error)]).
Proof.
  apply (poll_raises_at_first_failed_read two_busy_then_fail_env 0 2 3).
  - intros [|[|j]] Hj; [split; reflexivity|split; reflexivity|lia].
  - reflexivity.
  - lia.
Defined.

Lemma poll_never_gives_up_witness :
  poll_for_trigger_ready 5 busy_env 0%nat
  = mkRes OutOfFuel 5 (busy_rounds busy_env 0 5).
Proof.
  apply (poll_never_gives_up busy_env 0 5).
  intros j. split; reflexivity.
Defined.

Lemma poll_ends_at_last_read_witness :
  exists k,
    (k < 4)%nat
    /\ cur (poll_for_trigger_ready 4 three_busy_env 0%nat) = (0 + k + 1)%nat.
Proof.
  destruct (poll_ends_at_last_read three_busy_env 4 0) as (k & Hk & _ & Hc & _).
  - vm_compute. discriminate.
  - exists k. split; assumption.
Defined.

Lemma poll_decides_on_bit_31_alone_witness :
  out (poll_for_trigger_ready 3 busy_env 0%nat)
  = out (poll_for_trigger_ready 3 all_ones_env 0%nat).
Proof.
  apply (poll_decides_on_bit_31_alone 3 busy_env all_ones_env 0).
  intros k. split; reflexivity.
Defined.

Lemma run_sets_the_software_trigger_witness :
  exists l0 tm0,
    [EvCall BusManager_new (inr VNone); EvCall Camera_new (inr VNone);
     EvCall getEmbeddedImageInfo (inr (VInfo false));
     EvCall (getCameraFromIndex 0) (inr (VGuid 0));
     EvCall (connect 0) (inr VNone);
     EvCall getTriggerMode (inr (VTriggerMode (mkTriggerMode false 0 0 0 0)))]
    = l0 ++ [EvCall getTriggerMode (inr (VTriggerMode tm0))]
    /\ onOff (mkTriggerMode true 0 7 0 0) = true
    /\ source (mkTriggerMode true 0 7 0 0) = 7
    /\ polarity (mkTriggerMode true 0 7 0 0) = polarity tm0
    /\ mode (mkTriggerMode true 0 7 0 0) = mode tm0
    /\ parameter (mkTriggerMode true 0 7 0 0) = parameter tm0.
Proof.
  apply (run_sets_the_software_trigger worker0 2 fire_fails_env 0%nat _ _
           (inr VNone)
           [EvCall startCapture (inr VNone); EvPrint (StandingBy 0);
            EvIsSet 1 false;
            EvCall (readRegister SOFTWARE_TRIGGER) (inr (VInt 0));
            EvWaitCall 0 5; EvWaitRet 0 (inr 0%nat);
            EvCall (writeRegister SOFTWARE_TRIGGER FIRE_VALUE) (inl Fc2error);
            EvCall stopCapture (inr VNone); EvCall disconnect (inr VNone)]).
  reflexivity.
Defined.
